(** * Keyword consolidation by URL: a model of [app.py]

    The application reads a tab separated keyword export
    ([process_file]), groups the keywords by destination URL
    ([cluster_keywords]) and shows the table ([main]).  This file embeds
    the two functions and the guard of [main] and settles the
    statements C1 to C10 of the specification on them.  It then embeds
    the statistics that [main] shows and proves further properties of
    the three functions.

    The program is written against pandas.  Each pandas or numpy call
    of the source is modelled by a definition that carries its name
    ([sort_values], [nargsort], [unique], [groupby_agg], [to_numeric],
    [strip], ...).  Two things of the libraries are left open and taken
    as interfaces, because the source fixes neither:
    - the numpy sorting kernel behind [sort_values]: the source does not
      pass [kind], so pandas uses [kind='quicksort'], which sorts but is
      not a stable algorithm ([SortKernel]); a stable kernel and a model
      of numpy's own quicksort are two of its instances;
    - the decoder and tab separated parser behind [pd.read_csv]
      ([CsvReader]).

    The numeric cells have two models.  In the first ([number], and
    the modules [Aggregator] to [Dashboard]) a numeric cell is an
    integer or NaN, as in an export of integral counts and ranks; the
    statements on the order of the table, the grouping, the cleaning
    and the errors are settled on it.  The second ([Float64] and
    [FloatFrame]) has [cluster_keywords] once more, on a volume column
    of float64 values: finite values with or without a fraction, the
    infinities and NaN, with the truncation and the two exceptions of
    [int] and the rounding of the builtin [sum].  The statements on
    the values of the table, C4 first, are settled on the second.  The
    float rounding of the mean position is left uninterpreted
    ([rounded]), and so is a sum that is not exact.

    The file has five parts: the model of the program, the vocabulary
    of the statements, the properties of the model, the statements C1
    to C10 in their order, and the further properties. *)

From Stdlib Require Import ZArith String Ascii Bool Arith Lia List.
From Stdlib Require Import Sorted Permutation.
From Stdlib Require DecimalString DecimalPos.
Import ListNotations.

Local Open Scope Z_scope.
Local Open Scope list_scope.

(** ** Numeric cells *)

(** A cell of an int64 column, or of a float64 column of integral
    values and NaN.  [Float64.t], below, has every float. *)
Inductive number : Type :=
| NaN
| Num (z : Z).

Definition isna (n : number) : bool :=
  match n with NaN => true | Num _ => false end.

Definition notna (n : number) : bool := negb (isna n).

Definition number_eq_dec : forall a b : number, {a = b} + {a <> b}.
Proof. decide equality; apply Z.eq_dec. Defined.

(** ** numpy and pandas sorting *)

Module Numpy.

(** [argsort a] are the positions of [a] in ascending order of value, as
    [ndarray.argsort(kind='quicksort')] returns them.  The two laws are
    what numpy promises of every kind; the order of equal values is
    promised only by [kind='stable'] and [kind='mergesort']. *)
Class SortKernel : Type := {
  argsort : list Z -> list nat;
  argsort_perm : forall a, Permutation (argsort a) (seq 0 (length a));
  argsort_sorted :
    forall a, Sorted Z.le (map (fun p => nth p a 0) (argsort a))
}.

(** Insertion of position [i] into a list of positions ordered by value.
    [before x y] decides whether a key [x] goes in front of a key [y]. *)
Fixpoint insert_pos (before : Z -> Z -> bool) (a : list Z) (i : nat)
    (l : list nat) : list nat :=
  match l with
  | [] => [i]
  | j :: l' =>
      if before (nth i a 0) (nth j a 0) then i :: l
      else j :: insert_pos before a i l'
  end.

Fixpoint insertion_argsort_from (before : Z -> Z -> bool) (a : list Z)
    (positions : list nat) : list nat :=
  match positions with
  | [] => []
  | i :: rest => insert_pos before a i (insertion_argsort_from before a rest)
  end.

Definition insertion_argsort (before : Z -> Z -> bool) (a : list Z)
  : list nat :=
  insertion_argsort_from before a (seq 0 (length a)).

(** [a[indexer]] for an integer indexer: positions out of range do not
    occur with the indexers built below. *)
Definition take {A : Type} (rows : list A) (indexer : list nat) : list A :=
  flat_map (fun i => match nth_error rows i with
                     | Some r => [r]
                     | None => []
                     end) indexer.

(** The values of the cells that are not NaN: [items[~mask]]. *)
Definition non_nan_values (items : list number) : list Z :=
  flat_map (fun n => match n with Num z => [z] | NaN => [] end) items.

Section Sorting.
Context {K : SortKernel}.

(** [pandas.core.sorting.nargsort] with [na_position='last']: the
    cells that are not NaN are sorted by the kernel, for a descending
    sort on the reversed array with the result reversed again, and the
    positions of the NaN cells are appended in index order. *)
Definition nargsort (items : list number) (ascending : bool) : list nat :=
  let idx := seq 0 (length items) in
  let non_nans := non_nan_values items in
  let non_nan_idx := filter (fun i => notna (nth i items NaN)) idx in
  let nan_idx := filter (fun i => isna (nth i items NaN)) idx in
  let non_nans := if ascending then non_nans else rev non_nans in
  let non_nan_idx := if ascending then non_nan_idx else rev non_nan_idx in
  let indexer := map (fun p => nth p non_nan_idx 0%nat) (argsort non_nans) in
  let indexer := if ascending then indexer else rev indexer in
  indexer ++ nan_idx.

(** [DataFrame.sort_values(by=..., ascending=...)] on one column, the
    rows being given with the function that reads the column. *)
Definition sort_values {A : Type} (by_ : A -> number) (ascending : bool)
    (rows : list A) : list A :=
  take rows (nargsort (map by_ rows) ascending).

End Sorting.

End Numpy.

(** ** numpy's quicksort

    The scalar argsort of numpy for [kind='quicksort'] (the function
    aquicksort of npysort/quicksort.cpp): an array of positions is
    sorted in place by the values they point to, by partitions around
    the median of three while a part has more than sixteen items and
    by insertion below that.  The loops run on fuel that they do not
    use up.  Builds of numpy for processors with vector instructions
    replace this function by another that is not stable either. *)

Module NumpyQuicksort.

(** Reading and writing the array of positions through a pointer. *)
Definition item (a : list nat) (p : nat) : nat := nth p a 0%nat.

Fixpoint set_item (a : list nat) (p : nat) (x : nat) : list nat :=
  match a, p with
  | [], _ => []
  | _ :: a', O => x :: a'
  | y :: a', S p' => y :: set_item a' p' x
  end.

(** The macro INTP_SWAP on the items at [p] and [q]. *)
Definition swap (a : list nat) (p q : nat) : list nat :=
  set_item (set_item a p (item a q)) q (item a p).

(** The value whose position the item at [p] is. *)
Definition key (v : list Z) (a : list nat) (p : nat) : Z :=
  nth (item a p) v 0.

(** The do-while that moves [pi] right while the value there is below
    the pivot. *)
Fixpoint scan_right (fuel : nat) (v : list Z) (a : list nat) (vp : Z)
    (pi : nat) : nat :=
  match fuel with
  | O => pi
  | S fuel' =>
      let pi := S pi in
      if key v a pi <? vp then scan_right fuel' v a vp pi else pi
  end.

(** The do-while that moves [pj] left while the value there is above
    the pivot. *)
Fixpoint scan_left (fuel : nat) (v : list Z) (a : list nat) (vp : Z)
    (pj : nat) : nat :=
  match fuel with
  | O => pj
  | S fuel' =>
      let pj := Nat.pred pj in
      if vp <? key v a pj then scan_left fuel' v a vp pj else pj
  end.

(** The loop that exchanges the items on the wrong side of the pivot. *)
Fixpoint exchange (fuel : nat) (v : list Z) (a : list nat) (vp : Z)
    (pi pj : nat) : list nat * nat :=
  match fuel with
  | O => (a, pi)
  | S fuel' =>
      let pi := scan_right (List.length a) v a vp pi in
      let pj := scan_left (List.length a) v a vp pj in
      if (pj <=? pi)%nat then (a, pi)
      else exchange fuel' v (swap a pi pj) vp pi pj
  end.

(** One partition of [pl .. pr] around the median of three. *)
Definition partition (v : list Z) (a : list nat) (pl pr : nat)
  : list nat * nat :=
  let pm := (pl + Nat.div2 (pr - pl))%nat in
  let a := if key v a pm <? key v a pl then swap a pm pl else a in
  let a := if key v a pr <? key v a pm then swap a pr pm else a in
  let a := if key v a pm <? key v a pl then swap a pm pl else a in
  let vp := key v a pm in
  let pj := (pr - 1)%nat in
  let a := swap a pm pj in
  let '(a, pi) := exchange (List.length a) v a vp pl pj in
  (swap a pi (pr - 1)%nat, pi).

(** The while of the insertion sort, which moves the items above [vp]
    one place right. *)
Fixpoint shift (fuel : nat) (v : list Z) (a : list nat) (vp : Z)
    (pl pj : nat) : list nat * nat :=
  match fuel with
  | O => (a, pj)
  | S fuel' =>
      if (pl <? pj)%nat && (vp <? key v a (pj - 1)%nat)
      then shift fuel' v (set_item a pj (item a (pj - 1)%nat)) vp pl
             (pj - 1)%nat
      else (a, pj)
  end.

Definition insert_item (v : list Z) (pl : nat) (a : list nat) (pi : nat)
  : list nat :=
  let vi := item a pi in
  let '(a, pj) := shift (List.length a) v a (nth vi v 0) pl pi in
  set_item a pj vi.

(** The insertion sort of [pl .. pr]. *)
Definition insertion_sort (v : list Z) (a : list nat) (pl pr : nat)
  : list nat :=
  fold_left (insert_item v pl) (seq (S pl) (pr - pl)) a.

Definition small_quicksort : nat := 16.

(** [while ((pr - pl) > SMALL_QUICKSORT)]: partition, push the larger
    part with the depth left, go on with the smaller. *)
Fixpoint split_while (fuel : nat) (v : list Z) (a : list nat) (pl pr : nat)
    (stack : list (nat * nat * Z)) (cdepth : Z)
  : list nat * nat * nat * list (nat * nat * Z) * Z :=
  match fuel with
  | O => (a, pl, pr, stack, cdepth)
  | S fuel' =>
      if (small_quicksort <? pr - pl)%nat then
        let '(a, pi) := partition v a pl pr in
        let cdepth := cdepth - 1 in
        if (pi - pl <? pr - pi)%nat
        then split_while fuel' v a pl (pi - 1)%nat
               ((S pi, pr, cdepth) :: stack) cdepth
        else split_while fuel' v a (S pi) pr
               ((pl, (pi - 1)%nat, cdepth) :: stack) cdepth
      else (a, pl, pr, stack, cdepth)
  end.

(** The outer loop.  When the depth is used up numpy goes over to
    heapsort, which is not modelled: [None]. *)
Fixpoint run (fuel : nat) (v : list Z) (a : list nat) (pl pr : nat)
    (stack : list (nat * nat * Z)) (cdepth : Z) : option (list nat) :=
  match fuel with
  | O => None
  | S fuel' =>
      if cdepth <? 0 then None
      else
        let '(a, pl, pr, stack, cdepth) :=
          split_while (List.length a) v a pl pr stack cdepth in
        let a := insertion_sort v a pl pr in
        match stack with
        | [] => Some a
        | (pl', pr', depth) :: stack' => run fuel' v a pl' pr' stack' depth
        end
  end.

Definition aquicksort (v : list Z) : option (list nat) :=
  let num := List.length v in
  run (S num) v (seq 0 num) 0 (num - 1) [] (2 * Z.log2 (Z.of_nat num)).

End NumpyQuicksort.

(** ** Python values and exceptions *)

(** A cell of an object column, or of a numeric one: a string or a
    number.  A missing value is the float NaN, in every column. *)
Inductive cell : Type :=
| Str (s : string)
| Numc (n : number).

Definition cell_isna (c : cell) : bool :=
  match c with Numc NaN => true | _ => false end.

Definition cell_eq_dec : forall a b : cell, {a = b} + {a <> b}.
Proof. decide equality; [apply string_dec | apply number_eq_dec]. Defined.

(** Python's [==] on two cells: NaN differs from everything, itself
    included. *)
Definition cell_eqb (a b : cell) : bool :=
  if cell_isna a then false
  else if cell_eq_dec a b then true else false.

(** The exceptions that the two functions can meet. *)
Inductive exn : Type :=
| ValueError (msg : string)
| TypeError (msg : string)
| ZeroDivisionError
| KeyError (missing : list string)
| AttributeError (msg : string)
| UnicodeError (codec : string)
| ParserError (msg : string)
| OverflowError (msg : string).

(** A computation that returns or raises. *)
Definition result (A : Type) : Type := (exn + A)%type.

Definition ret {A : Type} (a : A) : result A := inr a.
Definition raise {A : Type} (e : exn) : result A := inl e.

Definition bind {A B : Type} (m : result A) (k : A -> result B) : result B :=
  match m with
  | inl e => inl e
  | inr a => k a
  end.

Notation "x <- m ;; k" := (bind m (fun x => k))
  (at level 61, m at next level, right associativity).

(** [Series.apply(f)] with an [f] that may raise: the cells are visited
    in order and the first exception leaves the loop. *)
Fixpoint apply_ {A B : Type} (f : A -> result B) (col : list A)
  : result (list B) :=
  match col with
  | [] => ret []
  | a :: col' => b <- f a ;; bs <- apply_ f col' ;; ret (b :: bs)
  end.

(** What the program shows on the page. *)
Inductive ui_event : Type :=
| StError (prefix : string) (e : exn)
| StWrite (label : string) (columns : list string).

Definition nan_to_integer : exn :=
  ValueError "cannot convert float NaN to integer".

(** [int(v)] on an integer or NaN; [Float64.py_int] is [int] on every
    float. *)
Definition py_int (v : number) : result Z :=
  match v with
  | NaN => raise nan_to_integer
  | Num z => ret z
  end.

Definition py_add (a b : number) : number :=
  match a, b with
  | Num x, Num y => Num (x + y)
  | _, _ => NaN
  end.

(** The builtin [sum] on a list of numbers: left to right from [0]. *)
Definition py_sum (x : list number) : number := fold_left py_add x (Num 0).

(** [round(q, 1)] of the float quotient of two integers, or NaN.  The
    float rounding itself is not interpreted. *)
Inductive rounded : Type :=
| RoundNaN
| Round1 (numerator : Z) (denominator : nat).

Definition newline : string := String (ascii_of_nat 10) EmptyString.

(** [str(z)] for an integer. *)
Definition str_int (z : Z) : string :=
  DecimalString.NilZero.string_of_int (Z.to_int z).

(** [str(v)] for a number taken from a column: a column that holds a NaN
    is a float64 column, whose integral values print with [.0].  The
    values from 1e16 on, which Python prints with an exponent, are
    outside this model. *)
Definition str_number (float64 : bool) (v : number) : string :=
  match v with
  | NaN => "nan"
  | Num z => if float64 then (str_int z ++ ".0")%string else str_int z
  end.

Definition str_cell (float64 : bool) (c : cell) : string :=
  match c with
  | Str s => s
  | Numc n => str_number float64 n
  end.

(** The characters of a string, each as a string: what iterating over a
    [str] yields. *)
Fixpoint chars (s : string) : list string :=
  match s with
  | EmptyString => []
  | String c s' => String c EmptyString :: chars s'
  end.

(** ** The record set and the result table *)

(** One row of the frame that [process_file] returns. *)
Record KeywordRecord : Type := {
  keyword : cell;
  volume : number;
  position : number;
  url : cell;
  branded : cell;
  local : cell;
  informational : cell;
  commercial : cell;
  transactional : cell
}.

(** A cell of the columns keyword, position and volume of the grouped
    frame: the list made by [agg], later replaced by its text. *)
Inductive multi (A : Type) : Type :=
| AsList (l : list A)
| AsText (s : string).
Arguments AsList {A} l.
Arguments AsText {A} s.

(** One row of the table that [cluster_keywords] returns, in the order
    of its columns. *)
Record UrlGroup : Type := {
  g_url : cell;
  top_keyword : cell;
  top_keyword_volume : number;
  avg_position : rounded;
  keyword_count : nat;
  total_volume : number;
  g_keyword : multi cell;
  g_volume : multi number;
  g_position : multi number
}.

(** ** The URL aggregator: [cluster_keywords] *)

Module Aggregator.
Import Numpy.

(** A Python [dict] keyed by cells, in insertion order. *)
Definition dict (V : Type) : Type := list (cell * V).

Fixpoint dict_get {V : Type} (k : cell) (d : dict V) : option V :=
  match d with
  | [] => None
  | (k', v) :: d' => if cell_eq_dec k k' then Some v else dict_get k d'
  end.

Fixpoint dict_set {V : Type} (k : cell) (v : V) (d : dict V) : dict V :=
  match d with
  | [] => [(k, v)]
  | (k', v') :: d' =>
      if cell_eq_dec k k' then (k, v) :: d' else (k', v') :: dict_set k v d'
  end.

(** [Series.unique()]: the distinct cells in order of first appearance
    (a NaN, if any, once). *)
Fixpoint unique (l : list cell) : list cell :=
  match l with
  | [] => []
  | x :: l' => x :: remove cell_eq_dec x (unique l')
  end.

(** [df_sorted[df_sorted['url'] == u]]. *)
Definition rows_of_url (u : cell) (rows : list KeywordRecord)
  : list KeywordRecord :=
  filter (fun r => cell_eqb (url r) u) rows.

(** Lines 65 to 71: the loop that fills [top_keywords] and [top_volumes]. *)
Fixpoint top_loop (df_sorted : list KeywordRecord) (urls : list cell)
    (top_keywords : dict cell) (top_volumes : dict Z)
  : result (dict cell * dict Z) :=
  match urls with
  | [] => ret (top_keywords, top_volumes)
  | u :: urls' =>
      match rows_of_url u df_sorted with
      | [] => top_loop df_sorted urls' top_keywords top_volumes
      | first :: _ =>
          let top_keywords := dict_set u (keyword first) top_keywords in
          v <- py_int (volume first) ;;
          top_loop df_sorted urls' top_keywords (dict_set u v top_volumes)
      end
  end.

(** The order in which [groupby(sort=True)] arranges its keys: numbers
    before strings, numbers by value, strings by code point. *)
Definition cell_leb (a b : cell) : bool :=
  match a, b with
  | Numc (Num x), Numc (Num y) => x <=? y
  | Numc _, _ => true
  | Str _, Numc _ => false
  | Str s, Str t => String.leb s t
  end.

Fixpoint insert_key (k : cell) (l : list cell) : list cell :=
  match l with
  | [] => [k]
  | k' :: l' => if cell_leb k k' then k :: l else k' :: insert_key k l'
  end.

Fixpoint sort_keys (l : list cell) : list cell :=
  match l with
  | [] => []
  | k :: l' => insert_key k (sort_keys l')
  end.

(** The keys of [groupby('url')]: [dropna=True] leaves the NaN urls out,
    [sort=True] orders the others. *)
Definition group_keys (rows : list KeywordRecord) : list cell :=
  sort_keys (unique (filter (fun u => negb (cell_isna u)) (map url rows))).

(** The frame [grouped], column by column.  The last five columns are
    absent until the program assigns them. *)
Record Grouped : Type := {
  c_url : list cell;
  c_keyword : list (multi cell);
  c_position : list (multi number);
  c_volume : list (multi number);
  c_keyword_count : option (list nat);
  c_total_volume : option (list number);
  c_avg_position : option (list rounded);
  c_top_keyword : option (list cell);
  c_top_keyword_volume : option (list number)
}.

(** Lines 74 to 78: [groupby('url', as_index=False).agg(...)] with
    [list] for the three columns; the rows of a group keep the order
    they have in the frame. *)
Definition groupby_agg (rows : list KeywordRecord) : Grouped :=
  let keys := group_keys rows in
  let column {A : Type} (f : KeywordRecord -> A) : list (multi A) :=
    map (fun k => AsList (map f (rows_of_url k rows))) keys in
  {| c_url := keys;
     c_keyword := column keyword;
     c_position := column position;
     c_volume := column volume;
     c_keyword_count := None;
     c_total_volume := None;
     c_avg_position := None;
     c_top_keyword := None;
     c_top_keyword_volume := None |}.

(** The functions applied to the cells of the list columns.  On a cell
    that is already text they do what Python does with a [str]. *)
Definition len_ {A : Type} (x : multi A) : nat :=
  match x with
  | AsList l => List.length l
  | AsText s => String.length s
  end.

Definition no_int_plus_str : exn :=
  TypeError "unsupported operand type(s) for +: 'int' and 'str'".

Definition sum_ (x : multi number) : result number :=
  match x with
  | AsList l => ret (py_sum l)
  | AsText EmptyString => ret (Num 0)
  | AsText _ => raise no_int_plus_str
  end.

(** [lambda x: round(sum(x)/len(x), 1)]. *)
Definition mean_rounded (x : multi number) : result rounded :=
  s <- sum_ x ;;
  match len_ x with
  | O => raise ZeroDivisionError
  | n => ret (match s with NaN => RoundNaN | Num t => Round1 t n end)
  end.

Definition join_lines (l : list string) : string := String.concat newline l.

(** [lambda x: '\n'.join(str(k) for k in x)]. *)
Definition join_keywords (float64 : bool) (x : multi cell) : multi cell :=
  match x with
  | AsList l => AsText (join_lines (map (str_cell float64) l))
  | AsText s => AsText (join_lines (chars s))
  end.

Definition join_positions (float64 : bool) (x : multi number)
  : multi number :=
  match x with
  | AsList l => AsText (join_lines (map (str_number float64) l))
  | AsText s => AsText (join_lines (chars s))
  end.

(** [int(c)] for a one character string. *)
Definition int_of_char (c : string) : result Z :=
  match c with
  | String a EmptyString =>
      let n := nat_of_ascii a in
      if ((48 <=? n) && (n <=? 57))%nat then ret (Z.of_nat (n - 48))
      else raise (ValueError "invalid literal for int() with base 10")
  | _ => raise (ValueError "invalid literal for int() with base 10")
  end.

(** [lambda x: '\n'.join(str(int(v)) for v in x)]. *)
Definition join_volumes (x : multi number) : result (multi number) :=
  match x with
  | AsList l =>
      t <- apply_ (fun v => z <- py_int v ;; ret (str_int z)) l ;;
      ret (AsText (join_lines t))
  | AsText s =>
      t <- apply_ (fun c => z <- int_of_char c ;; ret (str_int z)) (chars s) ;;
      ret (AsText (join_lines t))
  end.

(** [grouped['url'].map(d)]: a key that [d] lacks gives NaN. *)
Definition map_dict_cells (d : dict cell) (col : list cell) : list cell :=
  map (fun u => match dict_get u d with Some c => c | None => Numc NaN end) col.

Definition map_dict_ints (d : dict Z) (col : list cell) : list number :=
  map (fun u => match dict_get u d with Some z => Num z | None => NaN end) col.

(** Assignments [grouped[name] = column]: each gives the frame with the
    one column set. *)
Definition set_keyword_count (g : Grouped) (col : list nat) : Grouped :=
  {| c_url := c_url g; c_keyword := c_keyword g; c_position := c_position g;
     c_volume := c_volume g; c_keyword_count := Some col;
     c_total_volume := c_total_volume g; c_avg_position := c_avg_position g;
     c_top_keyword := c_top_keyword g;
     c_top_keyword_volume := c_top_keyword_volume g |}.

Definition set_total_volume (g : Grouped) (col : list number) : Grouped :=
  {| c_url := c_url g; c_keyword := c_keyword g; c_position := c_position g;
     c_volume := c_volume g; c_keyword_count := c_keyword_count g;
     c_total_volume := Some col; c_avg_position := c_avg_position g;
     c_top_keyword := c_top_keyword g;
     c_top_keyword_volume := c_top_keyword_volume g |}.

Definition set_avg_position (g : Grouped) (col : list rounded) : Grouped :=
  {| c_url := c_url g; c_keyword := c_keyword g; c_position := c_position g;
     c_volume := c_volume g; c_keyword_count := c_keyword_count g;
     c_total_volume := c_total_volume g; c_avg_position := Some col;
     c_top_keyword := c_top_keyword g;
     c_top_keyword_volume := c_top_keyword_volume g |}.

Definition set_top_keyword (g : Grouped) (col : list cell) : Grouped :=
  {| c_url := c_url g; c_keyword := c_keyword g; c_position := c_position g;
     c_volume := c_volume g; c_keyword_count := c_keyword_count g;
     c_total_volume := c_total_volume g; c_avg_position := c_avg_position g;
     c_top_keyword := Some col;
     c_top_keyword_volume := c_top_keyword_volume g |}.

Definition set_top_keyword_volume (g : Grouped) (col : list number)
  : Grouped :=
  {| c_url := c_url g; c_keyword := c_keyword g; c_position := c_position g;
     c_volume := c_volume g; c_keyword_count := c_keyword_count g;
     c_total_volume := c_total_volume g; c_avg_position := c_avg_position g;
     c_top_keyword := c_top_keyword g;
     c_top_keyword_volume := Some col |}.

Definition set_keyword (g : Grouped) (col : list (multi cell)) : Grouped :=
  {| c_url := c_url g; c_keyword := col; c_position := c_position g;
     c_volume := c_volume g; c_keyword_count := c_keyword_count g;
     c_total_volume := c_total_volume g; c_avg_position := c_avg_position g;
     c_top_keyword := c_top_keyword g;
     c_top_keyword_volume := c_top_keyword_volume g |}.

Definition set_position (g : Grouped) (col : list (multi number)) : Grouped :=
  {| c_url := c_url g; c_keyword := c_keyword g; c_position := col;
     c_volume := c_volume g; c_keyword_count := c_keyword_count g;
     c_total_volume := c_total_volume g; c_avg_position := c_avg_position g;
     c_top_keyword := c_top_keyword g;
     c_top_keyword_volume := c_top_keyword_volume g |}.

Definition set_volume (g : Grouped) (col : list (multi number)) : Grouped :=
  {| c_url := c_url g; c_keyword := c_keyword g; c_position := c_position g;
     c_volume := col; c_keyword_count := c_keyword_count g;
     c_total_volume := c_total_volume g; c_avg_position := c_avg_position g;
     c_top_keyword := c_top_keyword g;
     c_top_keyword_volume := c_top_keyword_volume g |}.

(** Lines 81 to 92, one function per statement. *)
Definition line_81 (g : Grouped) : result Grouped :=
  ret (set_keyword_count g (map len_ (c_keyword g))).

Definition line_82 (g : Grouped) : result Grouped :=
  col <- apply_ sum_ (c_volume g) ;; ret (set_total_volume g col).

Definition line_83 (g : Grouped) : result Grouped :=
  col <- apply_ mean_rounded (c_position g) ;; ret (set_avg_position g col).

Definition line_86 (top_keywords : dict cell) (g : Grouped) : result Grouped :=
  ret (set_top_keyword g (map_dict_cells top_keywords (c_url g))).

Definition line_87 (top_volumes : dict Z) (g : Grouped) : result Grouped :=
  ret (set_top_keyword_volume g (map_dict_ints top_volumes (c_url g))).

Definition line_90 (float64 : bool) (g : Grouped) : result Grouped :=
  ret (set_keyword g (map (join_keywords float64) (c_keyword g))).

Definition line_91 (float64 : bool) (g : Grouped) : result Grouped :=
  ret (set_position g (map (join_positions float64) (c_position g))).

Definition line_92 (g : Grouped) : result Grouped :=
  col <- apply_ join_volumes (c_volume g) ;; ret (set_volume g col).

(** The rows of nine columns of one length. *)
Fixpoint zip_rows (u tk : list cell) (tv : list number) (av : list rounded)
    (kc : list nat) (t : list number) (k : list (multi cell))
    (v p : list (multi number)) : list UrlGroup :=
  match u, tk, tv, av, kc, t, k, v, p with
  | u0 :: u', tk0 :: tk', tv0 :: tv', av0 :: av', kc0 :: kc', t0 :: t',
    k0 :: k', v0 :: v', p0 :: p' =>
      {| g_url := u0; top_keyword := tk0; top_keyword_volume := tv0;
         avg_position := av0; keyword_count := kc0; total_volume := t0;
         g_keyword := k0; g_volume := v0; g_position := p0 |}
      :: zip_rows u' tk' tv' av' kc' t' k' v' p'
  | _, _, _, _, _, _, _, _, _ => []
  end.

Definition absent {A : Type} (name : string) (col : option A) : list string :=
  match col with Some _ => [] | None => [name] end.

(** Lines 95 to 105: [grouped[[...]]], which raises [KeyError] for a
    column that the frame lacks. *)
Definition select_columns (g : Grouped) : result (list UrlGroup) :=
  match c_top_keyword g, c_top_keyword_volume g, c_avg_position g,
        c_keyword_count g, c_total_volume g with
  | Some tk, Some tv, Some av, Some kc, Some t =>
      ret (zip_rows (c_url g) tk tv av kc t
             (c_keyword g) (c_volume g) (c_position g))
  | _, _, _, _, _ =>
      raise (KeyError (absent "top_keyword" (c_top_keyword g)
                       ++ absent "top_keyword_volume" (c_top_keyword_volume g)
                       ++ absent "avg_position" (c_avg_position g)
                       ++ absent "keyword_count" (c_keyword_count g)
                       ++ absent "total_volume" (c_total_volume g)))
  end.

(** A column that holds a NaN is a float64 (or object) column. *)
Definition keyword_is_float (rows : list KeywordRecord) : bool :=
  existsb cell_isna (map keyword rows).

Definition position_is_float (rows : list KeywordRecord) : bool :=
  existsb isna (map position rows).

Section Cluster.
Context {K : SortKernel}.

(** The body of the [try] of [cluster_keywords], lines 61 to 110. *)
Definition cluster_keywords_body (df : list KeywordRecord)
  : result (list UrlGroup) :=
  let df_sorted := sort_values volume false df in
  tops <- top_loop df_sorted (unique (map url df_sorted)) [] [] ;;
  let grouped := groupby_agg df_sorted in
  grouped <- line_81 grouped ;;
  grouped <- line_82 grouped ;;
  grouped <- line_83 grouped ;;
  grouped <- line_86 (fst tops) grouped ;;
  grouped <- line_87 (snd tops) grouped ;;
  grouped <- line_90 (keyword_is_float df_sorted) grouped ;;
  grouped <- line_91 (position_is_float df_sorted) grouped ;;
  grouped <- line_92 grouped ;;
  result_ <- select_columns grouped ;;
  ret (sort_values top_keyword_volume true result_).

(** [cluster_keywords]: the table, or [None] after the error has been
    shown. *)
Definition cluster_keywords (df : list KeywordRecord)
  : list ui_event * option (list UrlGroup) :=
  match cluster_keywords_body df with
  | inr result_ => ([], Some result_)
  | inl e => ([StError "Erreur lors du clustering: " e], None)
  end.

End Cluster.

End Aggregator.

(** ** The record normalizer: [process_file] *)

Module Normalizer.

Inductive dtype : Type := object_ | int64 | float64.

(** A column of a parsed frame.  With [quoting=3] the quote characters
    of a field stay in its text, so a quoted export gives object
    columns; a column of bare numbers is numeric. *)
Record column : Type := {
  col_dtype : dtype;
  cells : list cell
}.

(** A frame as [read_csv] returns it: the columns in file order, under
    the names of the header line. *)
Definition DataFrame : Type := list (string * column).

Definition columns (df : DataFrame) : list string := map fst df.

Inductive encoding : Type := utf_16 | utf_8.

(** The decoder and parser behind
    [pd.read_csv(f, sep='\t', encoding=..., quoting=3)]: what it makes of
    the bytes from the cursor to the end, and how far it has moved the
    cursor when it returns or raises. *)
Class CsvReader : Type := {
  read_csv : encoding -> list Byte.byte -> result DataFrame;
  consumed : encoding -> list Byte.byte -> nat
}.

(** The uploaded file.  [attempts] records, for the statements, each
    call of [read_csv] with the cursor it started from. *)
Record upload : Type := {
  content : list Byte.byte;
  cursor : nat;
  attempts : list (encoding * nat)
}.

Definition fresh_upload (bytes : list Byte.byte) : upload :=
  {| content := bytes; cursor := 0; attempts := [] |}.

(** [uploaded_file.seek(0)]. *)
Definition seek0 (f : upload) : upload :=
  {| content := content f; cursor := 0; attempts := attempts f |}.

Definition quote : ascii := ascii_of_nat 34.
Definition comma : ascii := ascii_of_nat 44.

Definition q (name : string) : string :=
  String quote (name ++ String quote EmptyString).

(** The nine columns of line 26 to 28, with the quotes of the header. *)
Definition required : list string :=
  [q "Keyword"; q "Volume"; q "Current position"; q "Current URL";
   q "Branded"; q "Local"; q "Informational"; q "Commercial";
   q "Transactional"].

Fixpoint lookup_column (name : string) (df : DataFrame) : option column :=
  match df with
  | [] => None
  | (n, c) :: df' => if string_dec name n then Some c else lookup_column name df'
  end.

(** [df[[...]]] with a list of names: the named columns in the order of
    the list, or [KeyError] with the names that the frame lacks. *)
Definition getitem_list (names : list string) (df : DataFrame)
  : result (list column) :=
  match filter (fun n => match lookup_column n df with
                         | Some _ => false
                         | None => true
                         end) names with
  | [] => ret (flat_map (fun n => match lookup_column n df with
                                  | Some c => [c]
                                  | None => []
                                  end) names)
  | missing => raise (KeyError missing)
  end.

(** [s.lstrip(chars)], [s.rstrip(chars)] and [s.strip(chars)] where
    [chars] is the one double quote character, as on line 44. *)
Fixpoint lstrip (s : string) : string :=
  match s with
  | EmptyString => EmptyString
  | String c s' => if ascii_dec c quote then lstrip s' else s
  end.

Fixpoint rstrip (s : string) : string :=
  match s with
  | EmptyString => EmptyString
  | String c s' =>
      match rstrip s' with
      | EmptyString => if ascii_dec c quote then EmptyString
                       else String c EmptyString
      | t => String c t
      end
  end.

Definition strip (s : string) : string := rstrip (lstrip s).

(** [col.str.strip(chars)]: a cell that is not a string becomes NaN. *)
Definition str_strip (c : cell) : cell :=
  match c with
  | Str s => Str (strip s)
  | Numc _ => Numc NaN
  end.

(** Lines 42 to 44, for one column, when the [.str] accessor of an
    object column accepts it, as it does once the column holds a
    string. *)
Definition clean_column (c : column) : column :=
  match col_dtype c with
  | object_ => {| col_dtype := object_; cells := map str_strip (cells c) |}
  | _ => c
  end.

(** [s.replace(',', '')]. *)
Fixpoint remove_commas (s : string) : string :=
  match s with
  | EmptyString => EmptyString
  | String c s' =>
      if ascii_dec c comma then remove_commas s'
      else String c (remove_commas s')
  end.

Definition str_replace_comma (c : cell) : cell :=
  match c with
  | Str s => Str (remove_commas s)
  | Numc _ => Numc NaN
  end.

(** The [.str] accessor, which only object columns have. *)
Definition str_accessor (c : column) : result (list cell) :=
  match col_dtype c with
  | object_ => ret (cells c)
  | _ => raise (AttributeError "Can only use .str accessor with string values!")
  end.

Definition digit_of (c : ascii) : option Z :=
  let n := nat_of_ascii c in
  if ((48 <=? n) && (n <=? 57))%nat then Some (Z.of_nat (n - 48)) else None.

Fixpoint parse_digits (acc : Z) (s : string) : option Z :=
  match s with
  | EmptyString => Some acc
  | String c s' =>
      match digit_of c with
      | Some d => parse_digits (10 * acc + d) s'
      | None => None
      end
  end.

(** The integer literals that [to_numeric] reads: digits after an
    optional sign.  Literals with a fraction, an exponent or blanks,
    and integers that a float64 column rounds, are outside this model
    of the cells. *)
Definition parse_integer (s : string) : option Z :=
  match s with
  | EmptyString => None
  | String c s' =>
      if ascii_dec c (ascii_of_nat 45) then
        match s' with
        | EmptyString => None
        | _ => option_map Z.opp (parse_digits 0 s')
        end
      else if ascii_dec c (ascii_of_nat 43) then
        match s' with
        | EmptyString => None
        | _ => parse_digits 0 s'
        end
      else parse_digits 0 s
  end.

(** [pd.to_numeric(col, errors='coerce')], cell by cell: what does not
    parse becomes NaN. *)
Definition to_numeric (c : cell) : number :=
  match c with
  | Str s => match parse_integer s with Some z => Num z | None => NaN end
  | Numc n => n
  end.

(** The rows of the nine cleaned columns, under their new names. *)
Fixpoint rows_of (k : list cell) (v p : list number) (u b l i c t : list cell)
  : list KeywordRecord :=
  match k, v, p, u, b, l, i, c, t with
  | k0 :: k', v0 :: v', p0 :: p', u0 :: u', b0 :: b', l0 :: l', i0 :: i',
    c0 :: c', t0 :: t' =>
      {| keyword := k0; volume := v0; position := p0; url := u0;
         branded := b0; local := l0; informational := i0;
         commercial := c0; transactional := t0 |}
      :: rows_of k' v' p' u' b' l' i' c' t'
  | _, _, _, _, _, _, _, _, _ => []
  end.

(** Lines 26 to 50: the part of the [try] that follows the reading. *)
Definition normalize (df : DataFrame) : result (list KeywordRecord) :=
  selected <- getitem_list required df ;;
  match map clean_column selected with
  | [k; v; p; u; b; l; i; c; t] =>
      v_text <- str_accessor v ;;
      let volume_ := map to_numeric (map str_replace_comma v_text) in
      let position_ := map to_numeric (cells p) in
      ret (rows_of (cells k) volume_ position_ (cells u) (cells b) (cells l)
             (cells i) (cells c) (cells t))
  | _ => raise (KeyError required)
  end.

Section Reading.
Context {R : CsvReader}.

(** One call of [pd.read_csv] on the uploaded file. *)
Definition pd_read_csv (enc : encoding) (f : upload)
  : result DataFrame * upload :=
  let input := skipn (cursor f) (content f) in
  (read_csv enc input,
   {| content := content f;
      cursor := Nat.min (List.length (content f))
                  (cursor f + consumed enc input);
      attempts := attempts f ++ [(enc, cursor f)] |}).

(** Lines 9 to 23: UTF-16 first; on [UnicodeError], and on no other
    exception, back to the start and UTF-8. *)
Definition read_frame (f : upload) : result DataFrame * upload :=
  match pd_read_csv utf_16 f with
  | (inl (UnicodeError _), f1) => pd_read_csv utf_8 (seek0 f1)
  | other => other
  end.

(** [process_file]: what it shows, what it returns, and the file
    afterwards.  The columns are listed when [df] had been bound. *)
Definition process_file (f : upload)
  : list ui_event * option (list KeywordRecord) * upload :=
  match read_frame f with
  | (inl e, f') => ([StError "Erreur lors du chargement: " e], None, f')
  | (inr df, f') =>
      match normalize df with
      | inr df_cleaned => ([], Some df_cleaned, f')
      | inl e =>
          ([StError "Erreur lors du chargement: " e;
            StWrite "Colonnes disponibles:" (columns df)], None, f')
      end
  end.

End Reading.

End Normalizer.

(** ** [cluster_keywords] on a store of frames

    Python binds [df], [df_sorted], [grouped] and [result] to frame
    objects.  Here the objects live in a heap, a location is an index
    into it, [sort_values], the row selections, [agg] and
    [grouped[[...]]] make new objects, and [grouped[name] = ...]
    changes the object of [grouped] in place. *)

Module Store.
Import Numpy Aggregator.

Inductive object : Type :=
| Records (rows : list KeywordRecord)
| GroupedFrame (g : Grouped)
| Table (rows : list UrlGroup).

Record state : Type := {
  heap : list object;
  page : list ui_event
}.

(** A statement: it returns or raises, and leaves a state. *)
Definition M (A : Type) : Type := state -> result A * state.

Definition mret {A : Type} (a : A) : M A := fun s => (inr a, s).

Definition mbind {A B : Type} (m : M A) (k : A -> M B) : M B :=
  fun s => match m s with
           | (inl e, s') => (inl e, s')
           | (inr a, s') => k a s'
           end.

Notation "x <~ m ;; k" := (mbind m (fun x => k))
  (at level 61, m at next level, right associativity).

Definition lift {A : Type} (r : result A) : M A := fun s => (r, s).

Fixpoint update {A : Type} (l : list A) (i : nat) (a : A) : list A :=
  match l, i with
  | [], _ => []
  | _ :: l', O => a :: l'
  | x :: l', S i' => x :: update l' i' a
  end.

Definition alloc (o : object) : M nat :=
  fun s => (inr (List.length (heap s)),
            {| heap := heap s ++ [o]; page := page s |}).

Definition write (l : nat) (o : object) : M unit :=
  fun s => (inr tt, {| heap := update (heap s) l o; page := page s |}).

Definition not_a (kind : string) : exn := TypeError kind.

Definition read_records (l : nat) : M (list KeywordRecord) :=
  fun s => match nth_error (heap s) l with
           | Some (Records rows) => (inr rows, s)
           | _ => (inl (not_a "frame of records"), s)
           end.

Definition read_grouped (l : nat) : M Grouped :=
  fun s => match nth_error (heap s) l with
           | Some (GroupedFrame g) => (inr g, s)
           | _ => (inl (not_a "grouped frame"), s)
           end.

Definition read_table (l : nat) : M (list UrlGroup) :=
  fun s => match nth_error (heap s) l with
           | Some (Table rows) => (inr rows, s)
           | _ => (inl (not_a "result table"), s)
           end.

(** [grouped[name] = ...]: the object at [l] is read, the new column is
    computed and the same object gets it. *)
Definition assign (l : nat) (line : Grouped -> result Grouped) : M unit :=
  g <~ read_grouped l ;;
  g' <~ lift (line g) ;;
  write l (GroupedFrame g').

Fixpoint top_loop_st (df_sorted : nat) (urls : list cell)
    (top_keywords : dict cell) (top_volumes : dict Z)
  : M (dict cell * dict Z) :=
  match urls with
  | [] => mret (top_keywords, top_volumes)
  | u :: urls' =>
      rows <~ read_records df_sorted ;;
      url_df <~ alloc (Records (rows_of_url u rows)) ;;
      selected <~ read_records url_df ;;
      match selected with
      | [] => top_loop_st df_sorted urls' top_keywords top_volumes
      | first :: _ =>
          let top_keywords := dict_set u (keyword first) top_keywords in
          v <~ lift (py_int (volume first)) ;;
          top_loop_st df_sorted urls' top_keywords (dict_set u v top_volumes)
      end
  end.

Section Cluster.
Context {K : SortKernel}.

Definition cluster_keywords_body_st (df : nat) : M nat :=
  rows <~ read_records df ;;
  df_sorted <~ alloc (Records (sort_values volume false rows)) ;;
  sorted <~ read_records df_sorted ;;
  tops <~ top_loop_st df_sorted (unique (map url sorted)) [] [] ;;
  grouped <~ alloc (GroupedFrame (groupby_agg sorted)) ;;
  _ <~ assign grouped line_81 ;;
  _ <~ assign grouped line_82 ;;
  _ <~ assign grouped line_83 ;;
  _ <~ assign grouped (line_86 (fst tops)) ;;
  _ <~ assign grouped (line_87 (snd tops)) ;;
  _ <~ assign grouped (line_90 (keyword_is_float sorted)) ;;
  _ <~ assign grouped (line_91 (position_is_float sorted)) ;;
  _ <~ assign grouped line_92 ;;
  g <~ read_grouped grouped ;;
  selected <~ lift (select_columns g) ;;
  result_ <~ alloc (Table selected) ;;
  t <~ read_table result_ ;;
  alloc (Table (sort_values top_keyword_volume true t)).

(** The function with its handler: the location of the table, or
    [None] with the error on the page. *)
Definition cluster_keywords_st (df : nat) (s : state)
  : option nat * state :=
  match cluster_keywords_body_st df s with
  | (inr l, s') => (Some l, s')
  | (inl e, s') =>
      (None, {| heap := heap s';
                page := page s' ++ [StError "Erreur lors du clustering: " e] |})
  end.

End Cluster.

End Store.

(** ** The guard of [main] *)

Module App.
Import Numpy Aggregator Normalizer.

Section Main.
Context {K : SortKernel} {R : CsvReader}.

(** Lines 196 to 200: [cluster_keywords] runs only on a frame, and the
    table exists only when both functions returned one. *)
Definition analyse (f : upload) : list ui_event * option (list UrlGroup) :=
  match process_file f with
  | (shown, None, _) => (shown, None)
  | (shown, Some df, _) =>
      let (shown', results) := cluster_keywords df in
      (shown ++ shown', results)
  end.

End Main.

End App.

(** ** The statistics of [main] *)

Module Dashboard.
Import Numpy Aggregator Normalizer.

(** Whether the sum of the cells is exact: their magnitudes add up to
    less than 2^53.  Then no int64 sum wraps and no float64 sum rounds,
    in whatever order pandas adds the cells, and the format of line
    213, which makes a float of an integer, shows the sum itself. *)
Definition sum_is_exact (vs : list Z) : bool :=
  fold_right Z.add 0 (map Z.abs vs) <? 2 ^ 53.

(** [Series.sum()]: the NaN cells are skipped and the sum of no cell
    is 0.  A sum that is not exact is not interpreted. *)
Definition series_sum (col : list number) : option Z :=
  let vs := non_nan_values col in
  if sum_is_exact vs then Some (fold_right Z.add 0 vs) else None.

(** [Series.mean()] under the format with one decimal: the NaN cells
    are skipped and the mean of no cell is NaN.  The mean of a sum that
    is not exact is not interpreted. *)
Definition series_mean (col : list number) : option rounded :=
  match non_nan_values col with
  | [] => Some RoundNaN
  | vs =>
      if sum_is_exact vs
      then Some (Round1 (fold_right Z.add 0 vs) (List.length vs))
      else None
  end.

(** The grouping option of the format of line 213: a comma in front of
    every group of three digits but the first. *)
Fixpoint group_thousands (digits : string) : string :=
  match digits with
  | EmptyString => EmptyString
  | String c rest =>
      String c
        (if ((0 <? String.length rest) && (String.length rest mod 3 =? 0))%nat
         then String comma (group_thousands rest)
         else group_thousands rest)
  end.

(** The format of line 213, with grouping and no decimals, on an
    integral value. *)
Definition format_thousands (z : Z) : string :=
  if z <? 0 then String (ascii_of_nat 45) (group_thousands (str_int (- z)))
  else group_thousands (str_int z).

(** The three metrics of lines 203 to 221, computed from [df]: the
    number of records, the text of the volume total and the mean
    position, the last two when their sums are exact. *)
Record Metrics : Type := {
  keywords_metric : nat;
  volume_metric : option string;
  position_metric : option rounded
}.

Definition metrics (df : list KeywordRecord) : Metrics :=
  {| keywords_metric := List.length df;
     volume_metric := option_map format_thousands (series_sum (map volume df));
     position_metric := series_mean (map position df) |}.

Section Main.
Context {K : SortKernel} {R : CsvReader}.

(** Lines 194 to 221 and 243, for an uploaded file: what the two
    functions have shown and, when both returned a frame, the metrics
    of [df] with the table. *)
Definition main (f : upload)
  : list ui_event * option (Metrics * list UrlGroup) :=
  match process_file f with
  | (shown, None, _) => (shown, None)
  | (shown, Some df, _) =>
      match cluster_keywords df with
      | (shown', Some results) => (shown ++ shown', Some (metrics df, results))
      | (shown', None) => (shown ++ shown', None)
      end
  end.

End Main.

End Dashboard.

(** ** Float volumes

    [pd.to_numeric] makes a float64 column of the volumes as soon as
    one cell has a fraction, is infinite or is missing.  The values of
    such a column and what the program does with them: comparison in
    the sort, [int], and the builtin [sum]. *)

Module Float64.

(** A float64 value.  A finite value [x] is given by the integer
    [x * 2^1074], its number of units: 2^-1074 is the smallest
    positive double, and every finite double is a whole number of
    them.  The two zeros are one value here; nothing that the program
    does with a volume tells them apart. *)
Inductive t : Type :=
| nan
| inf (negative : bool)
| finite (units : Z).

(** The units of the value 1. *)
Definition unit : Z := 2 ^ 1074.

Definition of_int (z : Z) : t := finite (z * unit).

Definition isna (x : t) : bool :=
  match x with nan => true | _ => false end.

(** Whether a number of units is a double: at most 53 significant
    bits and a magnitude below 2^1024. *)
Definition representable (u : Z) : bool :=
  let a := Z.abs u in
  (a mod 2 ^ Z.max 0 (Z.log2 a - 52) =? 0) && (a <? 2 ^ 2098).

(** The order of [numpy.sort] on the values that are not NaN, as an
    integer key: the finite values by their units, the infinities
    beyond every double. *)
Definition sort_key (x : t) : number :=
  match x with
  | nan => NaN
  | inf true => Num (- 2 ^ 2098)
  | inf false => Num (2 ^ 2098)
  | finite u => Num u
  end.

Definition is_finite (x : t) : bool :=
  match x with finite _ => true | _ => false end.

Definition inf_to_integer : exn :=
  OverflowError "cannot convert float infinity to integer".

(** [int(v)] on a float: the fraction is cut off, towards zero. *)
Definition py_int (x : t) : result Z :=
  match x with
  | nan => raise nan_to_integer
  | inf _ => raise inf_to_integer
  | finite u => ret (Z.quot u unit)
  end.

(** The result of the builtin [sum] on floats.  It is a value when the
    additions are exact; otherwise (an addition that rounds, which
    recent Pythons compensate, an infinity, a NaN) it is the sum of the
    terms, not interpreted. *)
Inductive total : Type :=
| Value (x : t)
| FloatSum (terms : list t).

(** The exact sum, in units, when every term is finite and the sum of
    the first terms is a double at every step. *)
Fixpoint exact_sum (acc : Z) (x : list t) : option Z :=
  match x with
  | [] => Some acc
  | finite u :: x' =>
      if representable (acc + u) then exact_sum (acc + u) x' else None
  | _ => None
  end.

Definition py_sum (x : list t) : total :=
  match exact_sum 0 x with
  | Some u => Value (finite u)
  | None => FloatSum x
  end.

(** The integers of a column, when every cell is an integer. *)
Fixpoint integers (col : list t) : option (list Z) :=
  match col with
  | [] => Some []
  | finite u :: col' =>
      if u mod unit =? 0 then option_map (cons (u / unit)) (integers col')
      else None
  | _ => None
  end.

(** [Series.sum()]: the NaN cells are skipped.  When the other cells
    are integers whose magnitudes add up to less than 2^53, the result
    is their exact sum, whatever the dtype of the column and the order
    of the additions; otherwise (an int64 sum that wraps, a float sum
    that rounds, an infinity) it is not interpreted. *)
Definition series_sum (col : list t) : option Z :=
  match integers (filter (fun v => negb (isna v)) col) with
  | Some zs =>
      if fold_right Z.add 0 (map Z.abs zs) <? 2 ^ 53
      then Some (fold_right Z.add 0 zs)
      else None
  | None => None
  end.

End Float64.

(** ** [cluster_keywords] on a float volume column

    The function of lines 58 to 114 again, on a record set whose
    volumes are float64 values.  The position column is as before. *)

Module FloatFrame.
Import Numpy Aggregator.

Record KeywordRecord : Type := {
  keyword : cell;
  volume : Float64.t;
  position : number;
  url : cell;
  branded : cell;
  local : cell;
  informational : cell;
  commercial : cell;
  transactional : cell
}.

(** One row of the table, in the order of its columns. *)
Record UrlGroup : Type := {
  g_url : cell;
  top_keyword : cell;
  top_keyword_volume : number;
  avg_position : rounded;
  keyword_count : nat;
  total_volume : Float64.total;
  g_keyword : multi cell;
  g_volume : multi Float64.t;
  g_position : multi number
}.

(** [df_sorted[df_sorted['url'] == u]]. *)
Definition rows_of_url (u : cell) (rows : list KeywordRecord)
  : list KeywordRecord :=
  filter (fun r => cell_eqb (url r) u) rows.

(** Lines 65 to 71. *)
Fixpoint top_loop (df_sorted : list KeywordRecord) (urls : list cell)
    (top_keywords : dict cell) (top_volumes : dict Z)
  : result (dict cell * dict Z) :=
  match urls with
  | [] => ret (top_keywords, top_volumes)
  | u :: urls' =>
      match rows_of_url u df_sorted with
      | [] => top_loop df_sorted urls' top_keywords top_volumes
      | first :: _ =>
          let top_keywords := dict_set u (keyword first) top_keywords in
          v <- Float64.py_int (volume first) ;;
          top_loop df_sorted urls' top_keywords (dict_set u v top_volumes)
      end
  end.

Definition group_keys (rows : list KeywordRecord) : list cell :=
  sort_keys (unique (filter (fun u => negb (cell_isna u)) (map url rows))).

Record Grouped : Type := {
  c_url : list cell;
  c_keyword : list (multi cell);
  c_position : list (multi number);
  c_volume : list (multi Float64.t);
  c_keyword_count : option (list nat);
  c_total_volume : option (list Float64.total);
  c_avg_position : option (list rounded);
  c_top_keyword : option (list cell);
  c_top_keyword_volume : option (list number)
}.

(** Lines 74 to 78. *)
Definition groupby_agg (rows : list KeywordRecord) : Grouped :=
  let keys := group_keys rows in
  let column {A : Type} (f : KeywordRecord -> A) : list (multi A) :=
    map (fun k => AsList (map f (rows_of_url k rows))) keys in
  {| c_url := keys;
     c_keyword := column keyword;
     c_position := column position;
     c_volume := column volume;
     c_keyword_count := None;
     c_total_volume := None;
     c_avg_position := None;
     c_top_keyword := None;
     c_top_keyword_volume := None |}.

(** [sum] on a cell of the volume column. *)
Definition sum_ (x : multi Float64.t) : result Float64.total :=
  match x with
  | AsList l => ret (Float64.py_sum l)
  | AsText EmptyString => ret (Float64.Value (Float64.of_int 0))
  | AsText _ => raise no_int_plus_str
  end.

(** [lambda x: '\n'.join(str(int(v)) for v in x)]. *)
Definition join_volumes (x : multi Float64.t)
  : result (multi Float64.t) :=
  match x with
  | AsList l =>
      t <- apply_ (fun v => z <- Float64.py_int v ;; ret (str_int z)) l ;;
      ret (AsText (join_lines t))
  | AsText s =>
      t <- apply_ (fun c => z <- int_of_char c ;; ret (str_int z)) (chars s) ;;
      ret (AsText (join_lines t))
  end.

(** Lines 81 to 92: each assignment gives the frame with the one
    column set. *)
Definition line_81 (g : Grouped) : result Grouped :=
  ret {| c_url := c_url g; c_keyword := c_keyword g;
         c_position := c_position g; c_volume := c_volume g;
         c_keyword_count := Some (map len_ (c_keyword g));
         c_total_volume := c_total_volume g;
         c_avg_position := c_avg_position g;
         c_top_keyword := c_top_keyword g;
         c_top_keyword_volume := c_top_keyword_volume g |}.

Definition line_82 (g : Grouped) : result Grouped :=
  col <- apply_ sum_ (c_volume g) ;;
  ret {| c_url := c_url g; c_keyword := c_keyword g;
         c_position := c_position g; c_volume := c_volume g;
         c_keyword_count := c_keyword_count g;
         c_total_volume := Some col;
         c_avg_position := c_avg_position g;
         c_top_keyword := c_top_keyword g;
         c_top_keyword_volume := c_top_keyword_volume g |}.

Definition line_83 (g : Grouped) : result Grouped :=
  col <- apply_ mean_rounded (c_position g) ;;
  ret {| c_url := c_url g; c_keyword := c_keyword g;
         c_position := c_position g; c_volume := c_volume g;
         c_keyword_count := c_keyword_count g;
         c_total_volume := c_total_volume g;
         c_avg_position := Some col;
         c_top_keyword := c_top_keyword g;
         c_top_keyword_volume := c_top_keyword_volume g |}.

Definition line_86 (top_keywords : dict cell) (g : Grouped) : result Grouped :=
  ret {| c_url := c_url g; c_keyword := c_keyword g;
         c_position := c_position g; c_volume := c_volume g;
         c_keyword_count := c_keyword_count g;
         c_total_volume := c_total_volume g;
         c_avg_position := c_avg_position g;
         c_top_keyword := Some (map_dict_cells top_keywords (c_url g));
         c_top_keyword_volume := c_top_keyword_volume g |}.

Definition line_87 (top_volumes : dict Z) (g : Grouped) : result Grouped :=
  ret {| c_url := c_url g; c_keyword := c_keyword g;
         c_position := c_position g; c_volume := c_volume g;
         c_keyword_count := c_keyword_count g;
         c_total_volume := c_total_volume g;
         c_avg_position := c_avg_position g;
         c_top_keyword := c_top_keyword g;
         c_top_keyword_volume
           := Some (map_dict_ints top_volumes (c_url g)) |}.

Definition line_90 (float64 : bool) (g : Grouped) : result Grouped :=
  ret {| c_url := c_url g;
         c_keyword := map (join_keywords float64) (c_keyword g);
         c_position := c_position g; c_volume := c_volume g;
         c_keyword_count := c_keyword_count g;
         c_total_volume := c_total_volume g;
         c_avg_position := c_avg_position g;
         c_top_keyword := c_top_keyword g;
         c_top_keyword_volume := c_top_keyword_volume g |}.

Definition line_91 (float64 : bool) (g : Grouped) : result Grouped :=
  ret {| c_url := c_url g; c_keyword := c_keyword g;
         c_position := map (join_positions float64) (c_position g);
         c_volume := c_volume g;
         c_keyword_count := c_keyword_count g;
         c_total_volume := c_total_volume g;
         c_avg_position := c_avg_position g;
         c_top_keyword := c_top_keyword g;
         c_top_keyword_volume := c_top_keyword_volume g |}.

Definition line_92 (g : Grouped) : result Grouped :=
  col <- apply_ join_volumes (c_volume g) ;;
  ret {| c_url := c_url g; c_keyword := c_keyword g;
         c_position := c_position g; c_volume := col;
         c_keyword_count := c_keyword_count g;
         c_total_volume := c_total_volume g;
         c_avg_position := c_avg_position g;
         c_top_keyword := c_top_keyword g;
         c_top_keyword_volume := c_top_keyword_volume g |}.

Fixpoint zip_rows (u tk : list cell) (tv : list number) (av : list rounded)
    (kc : list nat) (t : list Float64.total) (k : list (multi cell))
    (v : list (multi Float64.t)) (p : list (multi number)) : list UrlGroup :=
  match u, tk, tv, av, kc, t, k, v, p with
  | u0 :: u', tk0 :: tk', tv0 :: tv', av0 :: av', kc0 :: kc', t0 :: t',
    k0 :: k', v0 :: v', p0 :: p' =>
      {| g_url := u0; top_keyword := tk0; top_keyword_volume := tv0;
         avg_position := av0; keyword_count := kc0; total_volume := t0;
         g_keyword := k0; g_volume := v0; g_position := p0 |}
      :: zip_rows u' tk' tv' av' kc' t' k' v' p'
  | _, _, _, _, _, _, _, _, _ => []
  end.

(** Lines 95 to 105. *)
Definition select_columns (g : Grouped) : result (list UrlGroup) :=
  match c_top_keyword g, c_top_keyword_volume g, c_avg_position g,
        c_keyword_count g, c_total_volume g with
  | Some tk, Some tv, Some av, Some kc, Some t =>
      ret (zip_rows (c_url g) tk tv av kc t
             (c_keyword g) (c_volume g) (c_position g))
  | _, _, _, _, _ =>
      raise (KeyError (absent "top_keyword" (c_top_keyword g)
                       ++ absent "top_keyword_volume" (c_top_keyword_volume g)
                       ++ absent "avg_position" (c_avg_position g)
                       ++ absent "keyword_count" (c_keyword_count g)
                       ++ absent "total_volume" (c_total_volume g)))
  end.

Definition keyword_is_float (rows : list KeywordRecord) : bool :=
  existsb cell_isna (map keyword rows).

Definition position_is_float (rows : list KeywordRecord) : bool :=
  existsb isna (map position rows).

(** Lines 65 to 105, on the sorted frame. *)
Definition table_of (df_sorted : list KeywordRecord)
  : result (list UrlGroup) :=
  tops <- top_loop df_sorted (unique (map url df_sorted)) [] [] ;;
  let grouped := groupby_agg df_sorted in
  grouped <- line_81 grouped ;;
  grouped <- line_82 grouped ;;
  grouped <- line_83 grouped ;;
  grouped <- line_86 (fst tops) grouped ;;
  grouped <- line_87 (snd tops) grouped ;;
  grouped <- line_90 (keyword_is_float df_sorted) grouped ;;
  grouped <- line_91 (position_is_float df_sorted) grouped ;;
  grouped <- line_92 grouped ;;
  select_columns grouped.

Section Cluster.
Context {K : SortKernel}.

(** The body of the [try], lines 61 to 110: the sort by volume, the
    table of the sorted frame, and the sort of the table. *)
Definition cluster_keywords_body (df : list KeywordRecord)
  : result (list UrlGroup) :=
  let df_sorted :=
    sort_values (fun r => Float64.sort_key (volume r)) false df in
  result_ <- table_of df_sorted ;;
  ret (sort_values top_keyword_volume true result_).

Definition cluster_keywords (df : list KeywordRecord)
  : list ui_event * option (list UrlGroup) :=
  match cluster_keywords_body df with
  | inr result_ => ([], Some result_)
  | inl e => ([StError "Erreur lors du clustering: " e], None)
  end.

End Cluster.

(** Line 213: the text of the metric Volume total, when the sum is
    interpreted. *)
Definition volume_metric (df : list KeywordRecord) : option string :=
  option_map Dashboard.format_thousands (Float64.series_sum (map volume df)).

End FloatFrame.

(** * The vocabulary of the statements

    The inputs of the scenarios of the specification, the rows that the
    statements name, and the statements of C2, C3 and C6 in the words
    of the specification. *)

Import Numpy NumpyQuicksort Aggregator Normalizer.

(** An export row with empty category flags. *)
Definition row (k : string) (v : number) (p : Z) (u : string)
  : KeywordRecord :=
  {| keyword := Str k; volume := v; position := Num p; url := Str u;
     branded := Str ""; local := Str ""; informational := Str "";
     commercial := Str ""; transactional := Str "" |}.

(** What lines 44 and 47 make of the text of a Volume cell. *)
Definition normalized_volume (text : string) : number :=
  Normalizer.to_numeric
    (Normalizer.str_replace_comma (Normalizer.str_strip (Str text))).

Definition clustering_error (e : exn) : list ui_event :=
  [StError "Erreur lors du clustering: " e].

Definition loading_error (e : exn) : ui_event :=
  StError "Erreur lors du chargement: " e.

(** What [process_file] returns for a frame that has been read. *)
Definition normalized (df : DataFrame)
  : list ui_event * option (list KeywordRecord) :=
  match normalize df with
  | inr rows => ([], Some rows)
  | inl e => ([loading_error e; StWrite "Colonnes disponibles:" (columns df)],
              None)
  end.

(** Scenario A of the specification. *)
Definition scenario_A : list KeywordRecord :=
  [row "shoes" (Num 1000) 3 "/a";
   row "sneakers" (Num 500) 5 "/a";
   row "boots" (Num 2000) 1 "/b"].

(** Scenario B of the specification: two keywords of one url, the
    volume text of the second being n/a. *)
Definition scenario_B : list KeywordRecord :=
  [row "shoes" (normalized_volume (Normalizer.q "1,234")) 3 "/a";
   row "sandals" (normalized_volume (Normalizer.q "n/a")) 7 "/a"].

(** The frame of an export with its header line and no data row. *)
Definition headers_only : Normalizer.DataFrame :=
  map (fun name => (name, {| Normalizer.col_dtype := Normalizer.object_;
                             Normalizer.cells := [] |}))
    Normalizer.required.

(** Scenario C of the specification: the header lacks Current URL. *)
Definition scenario_C : DataFrame :=
  map (fun name => (name, {| col_dtype := object_; cells := [] |}))
    [q "Keyword"; q "Volume"; q "Current position"; q "Branded"; q "Local";
     q "Informational"; q "Commercial"; q "Transactional"].

(** The table of scenario A: the group of /a before the group of /b. *)
Definition group_a : UrlGroup :=
  {| g_url := Str "/a"; top_keyword := Str "shoes";
     top_keyword_volume := Num 1000; avg_position := Round1 8 2;
     keyword_count := 2; total_volume := Num 1500;
     g_keyword := AsText (join_lines ["shoes"; "sneakers"]%string);
     g_volume := AsText (join_lines ["1000"; "500"]%string);
     g_position := AsText (join_lines ["3"; "5"]%string) |}.

Definition group_b : UrlGroup :=
  {| g_url := Str "/b"; top_keyword := Str "boots";
     top_keyword_volume := Num 2000; avg_position := Round1 1 1;
     keyword_count := 1; total_volume := Num 2000;
     g_keyword := AsText "boots"; g_volume := AsText "2000";
     g_position := AsText "1" |}.

(** Two keywords of equal volume. *)
Definition tie_rows : list KeywordRecord :=
  [row "k1" (Num 10) 1 "/b"; row "k2" (Num 10) 2 "/a"].

(** Eighteen keywords of one url, numbered in input order, all of
    volume 10. *)
Definition eighteen_rows : list KeywordRecord :=
  map (fun i => row (str_int (Z.of_nat i)) (Num 10) 1 "/a") (seq 1 18).

(** A reader for which no encoding decodes the bytes. *)
Definition undecodable : CsvReader :=
  {| read_csv := fun enc _ =>
       inl (UnicodeError match enc with
                         | utf_16 => "utf-16"
                         | utf_8 => "utf-8"
                         end);
     consumed := fun _ input => List.length input |}.

(** A reader that decodes every file to the given frame. *)
Definition reads_as (frame : DataFrame) : CsvReader :=
  {| read_csv := fun _ _ => inr frame;
     consumed := fun _ input => List.length input |}.

Definition group_sizes (keys : list cell) (rows : list KeywordRecord) : nat :=
  list_sum (map (fun k => List.length (rows_of_url k rows)) keys).

(** What the loop of lines 67 to 71 has stored for [u], whose first row
    in the sorted frame is [first]. *)
Definition entry (top_keywords : dict cell) (top_volumes : dict Z)
    (u : cell) (first : KeywordRecord) : Prop :=
  exists z, volume first = Num z
            /\ dict_get u top_volumes = Some z
            /\ dict_get u top_keywords = Some (keyword first).

(** The row of [k] in the table, before the last sort, given the frame
    sorted by volume and the two dictionaries. *)
Definition row_of (sorted : list KeywordRecord) (tops : dict cell * dict Z)
    (k : cell) : UrlGroup :=
  let rows := rows_of_url k sorted in
  {| g_url := k;
     top_keyword := match dict_get k (fst tops) with
                    | Some c => c
                    | None => Numc NaN
                    end;
     top_keyword_volume := match dict_get k (snd tops) with
                           | Some z => Num z
                           | None => NaN
                           end;
     avg_position := match py_sum (map position rows) with
                     | NaN => RoundNaN
                     | Num t => Round1 t (List.length rows)
                     end;
     keyword_count := List.length rows;
     total_volume := py_sum (map volume rows);
     g_keyword := AsText (join_lines (map (str_cell (keyword_is_float sorted))
                                        (map keyword rows)));
     g_volume := AsText (join_lines (map str_int
                                       (non_nan_values (map volume rows))));
     g_position := AsText (join_lines
                             (map (str_number (position_is_float sorted))
                                (map position rows))) |}.

Fixpoint ascends (l : list Z) : bool :=
  match l with
  | x :: (y :: _) as rest => (x <=? y) && ascends rest
  | _ => true
  end.

(** Whether [p] lists the positions of [a], each once, in ascending
    order of value. *)
Definition sorts_positions (a : list Z) (p : list nat) : bool :=
  (List.length p =? List.length a)%nat
  && forallb (fun i => existsb (Nat.eqb i) p) (seq 0 (List.length a))
  && ascends (map (fun i => nth i a 0) p).

(** numpy's quicksort where its result is at hand, the stable sort
    elsewhere. *)
Definition quicksort_argsort (a : list Z) : list nat :=
  match aquicksort a with
  | Some p => if sorts_positions a p then p else insertion_argsort Z.leb a
  | None => insertion_argsort Z.leb a
  end.

(** Whether the value at position [p] of [a] is [z]. *)
Definition has_value (a : list Z) (z : Z) (p : nat) : bool :=
  nth p a 0 =? z.

Definition value_or_zero (v : number) : Z :=
  match v with Num z => z | NaN => 0 end.

(** Whether the volume of [r] is [v], a null volume being one value. *)
Definition same_volume (v : number) (r : KeywordRecord) : bool :=
  if number_eq_dec (volume r) v then true else false.

(** C3 as the specification states it, for the sort of line 62 on a
    record set: the records in descending order of volume, the null
    volumes last, records of equal volume in their input order. *)
Definition sorted_as_C3_states {K : SortKernel} (df : list KeywordRecord)
  : Prop :=
  let sorted := sort_values volume false df in
  Permutation sorted df
  /\ (exists zs n, map volume sorted = map Num zs ++ repeat NaN n
                   /\ Sorted Z.ge zs)
  /\ forall v, filter (same_volume v) sorted = filter (same_volume v) df.

Fixpoint index_of (c : cell) (l : list cell) : nat :=
  match l with
  | [] => O
  | x :: l' => if cell_eq_dec c x then O else S (index_of c l')
  end.

(** The urls in the order in which the partitioning of the sorted frame
    meets them. *)
Definition first_encountered {K : SortKernel} (df : list KeywordRecord)
  : list cell :=
  unique (map url (sort_values volume false df)).

Definition ascending_top_volume (gs : list UrlGroup) : Prop :=
  exists zs, map top_keyword_volume gs = map Num zs /\ Sorted Z.le zs.

(** C2 as the specification states it: the table ascends in
    [top_keyword_volume], and of two groups of equal
    [top_keyword_volume] the one whose url was met first comes first. *)
Definition ordered_as_C2_states {K : SortKernel} (df : list KeywordRecord)
  : Prop :=
  forall gs, cluster_keywords df = ([], Some gs) ->
    ascending_top_volume gs
    /\ forall i j g h,
         (i < j)%nat -> nth_error gs i = Some g -> nth_error gs j = Some h ->
         top_keyword_volume g = top_keyword_volume h ->
         (index_of (g_url g) (first_encountered df)
          < index_of (g_url h) (first_encountered df))%nat.

Definition cell_le (a b : cell) : Prop := cell_leb a b = true.

Fixpoint quotes (n : nat) : string :=
  match n with
  | O => EmptyString
  | S n' => String quote (quotes n')
  end.

Definition first_char (s : string) : option ascii :=
  match s with
  | EmptyString => None
  | String c _ => Some c
  end.

Fixpoint last_char (s : string) : option ascii :=
  match s with
  | EmptyString => None
  | String c EmptyString => Some c
  | String _ s' => last_char s'
  end.

(** C6 as the specification states it: of a value wrapped in quote
    characters, one pair of them is taken away and what is inside
    stays, further quote characters included. *)
Definition strips_one_layer_as_C6_states : Prop :=
  forall inner : string, strip (q inner) = inner.

(** ** The vocabulary of the further properties *)

(** Whether a record has a url. *)
Definition has_url (r : KeywordRecord) : bool := negb (cell_isna (url r)).

(** The cells of the column [name] of a frame after lines 42 to 44. *)
Definition cleaned (name : string) (df : DataFrame) : list cell :=
  match lookup_column name df with
  | Some c => cells (clean_column c)
  | None => []
  end.

Definition no_str_accessor : exn :=
  AttributeError "Can only use .str accessor with string values!".

(** An export of one keyword in which the fields of the Volume column
    are bare numbers. *)
Definition bare_volume_frame : DataFrame :=
  map (fun name =>
         (name,
          if string_dec name (q "Volume")
          then {| col_dtype := int64; cells := [Numc (Num 1000)] |}
          else {| col_dtype := object_; cells := [Str (q "x")] |}))
    required.

(** An export of two keywords, fully quoted. *)
Definition quoted_frame : DataFrame :=
  [(q "Keyword", {| col_dtype := object_;
                    cells := [Str (q "shoes"); Str (q "boots")] |});
   (q "Volume", {| col_dtype := object_;
                   cells := [Str (q "1,000"); Str (q "n/a")] |});
   (q "Current position", {| col_dtype := object_;
                             cells := [Str (q "3"); Str (q "1")] |});
   (q "Current URL", {| col_dtype := object_;
                        cells := [Str (q "/a"); Str (q "/b")] |});
   (q "Branded", {| col_dtype := object_;
                    cells := [Str (q "false"); Str (q "false")] |});
   (q "Local", {| col_dtype := object_;
                  cells := [Str (q "false"); Str (q "false")] |});
   (q "Informational", {| col_dtype := object_;
                          cells := [Str (q "true"); Str (q "true")] |});
   (q "Commercial", {| col_dtype := object_;
                       cells := [Str (q "false"); Str (q "false")] |});
   (q "Transactional", {| col_dtype := object_;
                          cells := [Str (q "false"); Str (q "true")] |})].

(** The record set of that export. *)
Definition quoted_records : list KeywordRecord :=
  [{| keyword := Str "shoes"; volume := Num 1000; position := Num 3;
      url := Str "/a"; branded := Str "false"; local := Str "false";
      informational := Str "true"; commercial := Str "false";
      transactional := Str "false" |};
   {| keyword := Str "boots"; volume := NaN; position := Num 1;
      url := Str "/b"; branded := Str "false"; local := Str "false";
      informational := Str "true"; commercial := Str "false";
      transactional := Str "true" |}].

(** Whether two records agree on the four fields that the aggregator
    reads. *)
Definition same_keyword_data (r r' : KeywordRecord) : Prop :=
  keyword r = keyword r' /\ volume r = volume r'
  /\ position r = position r' /\ url r = url r'.

(** The record with its five category flags set to one text. *)
Definition with_flags (flag : string) (r : KeywordRecord) : KeywordRecord :=
  {| keyword := keyword r; volume := volume r; position := position r;
     url := url r; branded := Str flag; local := Str flag;
     informational := Str flag; commercial := Str flag;
     transactional := Str flag |}.

Definition scenario_gaps : list KeywordRecord :=
  [row "shoes" (Num 1000) 3 "/a";
   {| keyword := Str "sneakers"; volume := Num 500; position := NaN;
      url := Str "/a"; branded := Str ""; local := Str "";
      informational := Str ""; commercial := Str "";
      transactional := Str "" |};
   {| keyword := Str "lost"; volume := NaN; position := Num 9;
      url := Numc NaN; branded := Str ""; local := Str "";
      informational := Str ""; commercial := Str "";
      transactional := Str "" |}].

Definition group_gaps : UrlGroup :=
  {| g_url := Str "/a"; top_keyword := Str "shoes";
     top_keyword_volume := Num 1000; avg_position := RoundNaN;
     keyword_count := 2; total_volume := Num 1500;
     g_keyword := AsText (join_lines ["shoes"; "sneakers"]%string);
     g_volume := AsText (join_lines ["1000"; "500"]%string);
     g_position := AsText (join_lines ["3.0"; "nan"]%string) |}.

(** Scenario A as a quoted export. *)
Definition export_A : DataFrame :=
  [(q "Keyword", {| col_dtype := object_;
                    cells := [Str (q "shoes"); Str (q "sneakers");
                              Str (q "boots")] |});
   (q "Volume", {| col_dtype := object_;
                   cells := [Str (q "1,000"); Str (q "500");
                             Str (q "2,000")] |});
   (q "Current position", {| col_dtype := object_;
                             cells := [Str (q "3"); Str (q "5");
                                       Str (q "1")] |});
   (q "Current URL", {| col_dtype := object_;
                        cells := [Str (q "/a"); Str (q "/a");
                                  Str (q "/b")] |});
   (q "Branded", {| col_dtype := object_;
                    cells := [Str (q ""); Str (q ""); Str (q "")] |});
   (q "Local", {| col_dtype := object_;
                  cells := [Str (q ""); Str (q ""); Str (q "")] |});
   (q "Informational", {| col_dtype := object_;
                          cells := [Str (q ""); Str (q ""); Str (q "")] |});
   (q "Commercial", {| col_dtype := object_;
                       cells := [Str (q ""); Str (q ""); Str (q "")] |});
   (q "Transactional", {| col_dtype := object_;
                          cells := [Str (q ""); Str (q ""); Str (q "")] |})].

(** Whether a cell of an object column is a string. *)
Definition is_str (x : cell) : bool :=
  match x with Str _ => true | Numc _ => false end.

(** A column of text: an object column in which every cell is a
    string, as the parser makes of a column whose fields are all
    quoted. *)
Definition is_text (c : column) : bool :=
  match col_dtype c with
  | object_ => forallb is_str (cells c)
  | _ => false
  end.

Fixpoint all_digits (s : string) : bool :=
  match s with
  | EmptyString => true
  | String c s' =>
      match digit_of c with Some _ => all_digits s' | None => false end
  end.

(** A count: one to fifteen decimal digits and nothing else. *)
Definition is_count (s : string) : bool :=
  ((1 <=? String.length s) && (String.length s <=? 15))%nat && all_digits s.

(** A Volume cell that holds a count between its quotes, with or
    without commas. *)
Definition is_count_cell (x : cell) : bool :=
  match x with
  | Str s => is_count (remove_commas (strip s))
  | Numc _ => false
  end.

(** ** The vocabulary of the float volumes *)

(** The values n/2 and n/4. *)
Definition halves (n : Z) : Float64.t := Float64.finite (n * 2 ^ 1073).
Definition quarters (n : Z) : Float64.t := Float64.finite (n * 2 ^ 1072).

(** The integer part of a finite value, what [int] makes of it. *)
Definition int_part (x : Float64.t) : Z :=
  match x with
  | Float64.finite u => Z.quot u Float64.unit
  | _ => 0
  end.

(** The integer that [int] makes of a volume, as the key of a column;
    there is none for NaN and the infinities. *)
Definition int_key (x : Float64.t) : number :=
  match x with
  | Float64.finite u => Num (Z.quot u Float64.unit)
  | _ => NaN
  end.

(** An export row with a float volume and empty category flags. *)
Definition float_row (k : string) (v : Float64.t) (p : Z) (u : string)
  : FloatFrame.KeywordRecord :=
  {| FloatFrame.keyword := Str k; FloatFrame.volume := v;
     FloatFrame.position := Num p; FloatFrame.url := Str u;
     FloatFrame.branded := Str ""; FloatFrame.local := Str "";
     FloatFrame.informational := Str ""; FloatFrame.commercial := Str "";
     FloatFrame.transactional := Str "" |}.

(** Two keywords of one url with the volumes 1.5 and 1.25. *)
Definition fractional_rows : list FloatFrame.KeywordRecord :=
  [float_row "shoes" (halves 3) 3 "/a";
   float_row "sneakers" (quarters 5) 5 "/a"].

Definition fractional_group : FloatFrame.UrlGroup :=
  {| FloatFrame.g_url := Str "/a"; FloatFrame.top_keyword := Str "shoes";
     FloatFrame.top_keyword_volume := Num 1;
     FloatFrame.avg_position := Round1 8 2;
     FloatFrame.keyword_count := 2;
     FloatFrame.total_volume := Float64.Value (quarters 11);
     FloatFrame.g_keyword := AsText (join_lines ["shoes"; "sneakers"]%string);
     FloatFrame.g_volume := AsText (join_lines ["1"; "1"]%string);
     FloatFrame.g_position := AsText (join_lines ["3"; "5"]%string) |}.

(** What the loop of lines 67 to 71 has stored for [u], whose first row
    in the sorted frame is [first]. *)
Definition float_entry (top_keywords : dict cell) (top_volumes : dict Z)
    (u : cell) (first : FloatFrame.KeywordRecord) : Prop :=
  exists z, Float64.py_int (FloatFrame.volume first) = inr z
            /\ dict_get u top_volumes = Some z
            /\ dict_get u top_keywords = Some (FloatFrame.keyword first).

(** The row of [k] in the table, before the last sort. *)
Definition float_row_of (sorted : list FloatFrame.KeywordRecord)
    (tops : dict cell * dict Z) (k : cell) : FloatFrame.UrlGroup :=
  let rows := FloatFrame.rows_of_url k sorted in
  {| FloatFrame.g_url := k;
     FloatFrame.top_keyword := match dict_get k (fst tops) with
                               | Some c => c
                               | None => Numc NaN
                               end;
     FloatFrame.top_keyword_volume := match dict_get k (snd tops) with
                                      | Some z => Num z
                                      | None => NaN
                                      end;
     FloatFrame.avg_position
       := match py_sum (map FloatFrame.position rows) with
          | NaN => RoundNaN
          | Num t => Round1 t (List.length rows)
          end;
     FloatFrame.keyword_count := List.length rows;
     FloatFrame.total_volume := Float64.py_sum (map FloatFrame.volume rows);
     FloatFrame.g_keyword
       := AsText (join_lines
                    (map (str_cell (FloatFrame.keyword_is_float sorted))
                       (map FloatFrame.keyword rows)));
     FloatFrame.g_volume
       := AsText (join_lines
                    (map (fun v => str_int (int_part v))
                       (map FloatFrame.volume rows)));
     FloatFrame.g_position
       := AsText (join_lines
                    (map (str_number (FloatFrame.position_is_float sorted))
                       (map FloatFrame.position rows))) |}.

(** The frame of line 62: the records sorted by volume, descending. *)
Definition float_sorted {K : SortKernel} (df : list FloatFrame.KeywordRecord)
  : list FloatFrame.KeywordRecord :=
  sort_values (fun r => Float64.sort_key (FloatFrame.volume r)) false df.

(** C4 as the specification states it, on float volumes: the total of
    a group is the sum of its volumes, and its top volume is the
    volume of the first record of the group in descending order. *)
Definition total_and_top_as_C4_states {K : SortKernel}
    (df : list FloatFrame.KeywordRecord) : Prop :=
  forall gs g,
    FloatFrame.cluster_keywords df = ([], Some gs) -> In g gs ->
    exists first rest z,
      FloatFrame.rows_of_url (FloatFrame.g_url g) (float_sorted df)
      = first :: rest
      /\ FloatFrame.total_volume g
         = Float64.py_sum (map FloatFrame.volume (first :: rest))
      /\ FloatFrame.top_keyword_volume g = Num z
      /\ FloatFrame.volume first = Float64.of_int z.

(** Scenario A on a float volume column. *)
Definition float_scenario_A : list FloatFrame.KeywordRecord :=
  [float_row "shoes" (Float64.of_int 1000) 3 "/a";
   float_row "sneakers" (Float64.of_int 500) 5 "/a";
   float_row "boots" (Float64.of_int 2000) 1 "/b"].

Definition float_group_a : FloatFrame.UrlGroup :=
  {| FloatFrame.g_url := Str "/a"; FloatFrame.top_keyword := Str "shoes";
     FloatFrame.top_keyword_volume := Num 1000;
     FloatFrame.avg_position := Round1 8 2;
     FloatFrame.keyword_count := 2;
     FloatFrame.total_volume := Float64.Value (Float64.of_int 1500);
     FloatFrame.g_keyword := AsText (join_lines ["shoes"; "sneakers"]%string);
     FloatFrame.g_volume := AsText (join_lines ["1000"; "500"]%string);
     FloatFrame.g_position := AsText (join_lines ["3"; "5"]%string) |}.

Definition float_group_b : FloatFrame.UrlGroup :=
  {| FloatFrame.g_url := Str "/b"; FloatFrame.top_keyword := Str "boots";
     FloatFrame.top_keyword_volume := Num 2000;
     FloatFrame.avg_position := Round1 1 1;
     FloatFrame.keyword_count := 1;
     FloatFrame.total_volume := Float64.Value (Float64.of_int 2000);
     FloatFrame.g_keyword := AsText "boots";
     FloatFrame.g_volume := AsText "2000";
     FloatFrame.g_position := AsText "1" |}.

(** * Properties *)

(** ** Two sorting kernels *)

Module Kernels.
Import Numpy.

Section Insertion.
Variable before : Z -> Z -> bool.
Hypothesis before_le : forall x y, before x y = true -> x <= y.
Hypothesis not_before_ge : forall x y, before x y = false -> y <= x.
Variable a : list Z.

Let key (p : nat) : Z := nth p a 0.

Lemma insert_pos_perm i l : Permutation (insert_pos before a i l) (i :: l).
Proof.
  induction l as [|j l IH]; simpl; [reflexivity|].
  destruct (before _ _); [reflexivity|].
  rewrite IH. apply perm_swap.
Qed.

Lemma insertion_argsort_from_perm ps :
  Permutation (insertion_argsort_from before a ps) ps.
Proof.
  induction ps as [|i ps IH]; simpl; [constructor|].
  rewrite insert_pos_perm. now constructor.
Qed.

Lemma insert_pos_hd i j l :
  key j <= key i -> HdRel Z.le (key j) (map key l) ->
  HdRel Z.le (key j) (map key (insert_pos before a i l)).
Proof.
  intros Hji Hhd. destruct l as [|k l]; simpl.
  - now constructor.
  - fold (key i) (key k). destruct (before (key i) (key k)); simpl.
    + now constructor.
    + inversion Hhd; subst. now constructor.
Qed.

Lemma insert_pos_sorted i l :
  Sorted Z.le (map key l) ->
  Sorted Z.le (map key (insert_pos before a i l)).
Proof.
  induction l as [|j l IH]; simpl; intros Hs.
  - repeat constructor.
  - fold (key i) (key j).
    destruct (before (key i) (key j)) eqn:E; simpl.
    + constructor; [exact Hs|]. constructor. now apply before_le.
    + inversion Hs; subst. constructor; [now apply IH|].
      apply insert_pos_hd; [now apply not_before_ge | assumption].
Qed.

Lemma insertion_argsort_from_sorted ps :
  Sorted Z.le (map key (insertion_argsort_from before a ps)).
Proof.
  induction ps as [|i ps IH]; simpl; [constructor|].
  now apply insert_pos_sorted.
Qed.

End Insertion.

Lemma leb_before x y : (x <=? y) = true -> x <= y.
Proof. apply Z.leb_le. Qed.

Lemma leb_not_before x y : (x <=? y) = false -> y <= x.
Proof. intros H. apply Z.leb_gt in H. lia. Qed.

Lemma ltb_before x y : (x <? y) = true -> x <= y.
Proof. intros H. apply Z.ltb_lt in H. lia. Qed.

Lemma ltb_not_before x y : (x <? y) = false -> y <= x.
Proof. intros H. apply Z.ltb_ge in H. exact H. Qed.

(** The kernel that keeps equal values in the order of their positions:
    what [kind='stable'] gives. *)
Definition stable_kernel : SortKernel := {|
  argsort := insertion_argsort Z.leb;
  argsort_perm := fun a =>
    insertion_argsort_from_perm Z.leb a (seq 0 (List.length a));
  argsort_sorted := fun a =>
    insertion_argsort_from_sorted Z.leb leb_before leb_not_before a
      (seq 0 (List.length a))
|}.

(** A kernel that also sorts, and puts equal values in the opposite
    order of their positions. *)
Definition reversing_kernel : SortKernel := {|
  argsort := insertion_argsort Z.ltb;
  argsort_perm := fun a =>
    insertion_argsort_from_perm Z.ltb a (seq 0 (List.length a));
  argsort_sorted := fun a =>
    insertion_argsort_from_sorted Z.ltb ltb_before ltb_not_before a
      (seq 0 (List.length a))
|}.

Import NumpyQuicksort.

Lemma ascends_sorted l : ascends l = true -> Sorted Z.le l.
Proof.
  induction l as [|x [|y l] IH]; simpl; intros H.
  - constructor.
  - repeat constructor.
  - apply andb_prop in H. destruct H as [Hxy H].
    constructor; [now apply IH|]. constructor. now apply Z.leb_le.
Qed.

Lemma sorts_positions_sound a p :
  sorts_positions a p = true ->
  Permutation p (seq 0 (List.length a))
  /\ Sorted Z.le (map (fun i => nth i a 0) p).
Proof.
  unfold sorts_positions. intros H.
  apply andb_prop in H. destruct H as [H Hs].
  apply andb_prop in H. destruct H as [Hlen Hall].
  split; [|now apply ascends_sorted].
  symmetry. apply NoDup_Permutation_bis.
  - apply seq_NoDup.
  - apply Nat.eqb_eq in Hlen. rewrite Hlen, length_seq. lia.
  - intros i Hi. rewrite forallb_forall in Hall. specialize (Hall i Hi).
    apply existsb_exists in Hall. destruct Hall as (j & Hj & E).
    apply Nat.eqb_eq in E. now subst.
Qed.

Lemma quicksort_argsort_spec a :
  Permutation (quicksort_argsort a) (seq 0 (List.length a))
  /\ Sorted Z.le (map (fun i => nth i a 0) (quicksort_argsort a)).
Proof.
  unfold quicksort_argsort.
  destruct (aquicksort a) as [p|];
    [destruct (sorts_positions a p) eqn:E;
       [now apply sorts_positions_sound|]|];
    split; first [apply (@argsort_perm stable_kernel)
                 | apply (@argsort_sorted stable_kernel)].
Qed.

Definition quicksort_kernel : SortKernel := {|
  argsort := quicksort_argsort;
  argsort_perm := fun a => proj1 (quicksort_argsort_spec a);
  argsort_sorted := fun a => proj2 (quicksort_argsort_spec a)
|}.

End Kernels.

(** ** What [sort_values] guarantees with any kernel *)

Module SortFacts.
Import Numpy.

Lemma take_app {A : Type} (rows : list A) ix jx :
  take rows (ix ++ jx) = take rows ix ++ take rows jx.
Proof. unfold take. apply flat_map_app. Qed.

Lemma take_map {A B : Type} (f : A -> B) (rows : list A) ix :
  map f (take rows ix) = take (map f rows) ix.
Proof.
  unfold take. induction ix as [|i ix IH]; simpl; [reflexivity|].
  rewrite map_app, IH, nth_error_map.
  now destruct (nth_error rows i).
Qed.

Lemma take_rev {A : Type} (rows : list A) ix :
  take rows (rev ix) = rev (take rows ix).
Proof.
  induction ix as [|i ix IH]; simpl; [reflexivity|].
  rewrite take_app, IH. unfold take at 2. simpl.
  change (flat_map _ ix) with (take rows ix).
  rewrite rev_app_distr, app_nil_r.
  now destruct (nth_error rows i).
Qed.

(** With positions in range, [take] reads cell by cell. *)
Lemma take_in_range {A : Type} (d : A) (rows : list A) ix :
  Forall (fun i => (i < List.length rows)%nat) ix ->
  take rows ix = map (fun i => nth i rows d) ix.
Proof.
  induction 1 as [|i ix Hi _ IH]; simpl; [reflexivity|].
  change (flat_map _ ix) with (take rows ix). rewrite IH.
  apply nth_error_nth' with (d := d) in Hi. now rewrite Hi.
Qed.

Lemma take_shift {A : Type} (x : A) (rows : list A) ix :
  take (x :: rows) (map S ix) = take rows ix.
Proof.
  unfold take. induction ix as [|i ix IH]; simpl; [reflexivity|].
  now rewrite IH.
Qed.

Lemma take_seq {A : Type} (rows : list A) :
  take rows (seq 0 (List.length rows)) = rows.
Proof.
  induction rows as [|x rows IH]; simpl; [reflexivity|].
  rewrite <- seq_shift, take_shift. now rewrite IH.
Qed.

Lemma take_perm {A : Type} (rows : list A) ix :
  Permutation ix (seq 0 (List.length rows)) -> Permutation (take rows ix) rows.
Proof.
  intros H. rewrite <- (take_seq rows) at 2.
  unfold take. now apply Permutation_flat_map.
Qed.

(** Selecting the positions whose cell passes a test selects the cells
    that pass it. *)
Lemma filter_shift (f : nat -> bool) (s n : nat) :
  filter f (seq (S s) n) = map S (filter (fun i => f (S i)) (seq s n)).
Proof.
  revert s. induction n as [|n IH]; intros s; simpl; [reflexivity|].
  rewrite IH. now destruct (f (S s)).
Qed.

Lemma take_filter_seq {A : Type} (d : A) (test : A -> bool) (rows : list A) :
  take rows (filter (fun i => test (nth i rows d)) (seq 0 (List.length rows)))
  = filter test rows.
Proof.
  induction rows as [|x rows IH]; simpl; [reflexivity|].
  rewrite filter_shift. simpl.
  destruct (test x); simpl.
  - change (flat_map _ (map S ?l)) with (take (x :: rows) (map S l)).
    now rewrite take_shift, IH.
  - now rewrite take_shift, IH.
Qed.

Lemma take_filter_seq_by {A B : Type} (d : B) (by_ : A -> B)
    (test : B -> bool) (rows : list A) :
  take rows (filter (fun i => test (nth i (map by_ rows) d))
               (seq 0 (List.length (map by_ rows))))
  = filter (fun r => test (by_ r)) rows.
Proof.
  induction rows as [|x rows IH]; simpl; [reflexivity|].
  rewrite filter_shift. simpl.
  destruct (test (by_ x)); simpl.
  - change (flat_map _ (map S ?l)) with (take (x :: rows) (map S l)).
    now rewrite take_shift, IH.
  - now rewrite take_shift, IH.
Qed.

Lemma filter_map_comm {A B : Type} (f : A -> B) (test : B -> bool) l :
  map f (filter (fun x => test (f x)) l) = filter test (map f l).
Proof.
  induction l as [|x l IH]; simpl; [reflexivity|].
  destruct (test (f x)); simpl; now rewrite IH.
Qed.

Lemma filter_split_perm {A : Type} (f : A -> bool) (l : list A) :
  Permutation (filter f l ++ filter (fun x => negb (f x)) l) l.
Proof.
  induction l as [|x l IH]; simpl; [constructor|].
  destruct (f x); simpl.
  - now constructor.
  - symmetry. apply Permutation_cons_app. now symmetry.
Qed.

Lemma map_nth_seq {A : Type} (d : A) (l : list A) :
  map (fun i => nth i l d) (seq 0 (List.length l)) = l.
Proof.
  induction l as [|x l IH]; simpl; [reflexivity|].
  rewrite <- seq_shift, map_map. simpl. now rewrite IH.
Qed.

Lemma filter_notna_values (items : list number) :
  filter notna items = map Num (non_nan_values items).
Proof.
  induction items as [|[|z] items IH]; simpl; [reflexivity|exact IH|].
  now rewrite IH.
Qed.

Lemma filter_isna_repeat (items : list number) :
  filter isna items = repeat NaN (List.length (filter isna items)).
Proof.
  induction items as [|[|z] items IH]; simpl; [reflexivity| |exact IH].
  now rewrite <- IH.
Qed.

Lemma strongly_sorted_snoc {A : Type} (R : A -> A -> Prop) l x :
  StronglySorted R l -> Forall (fun y => R y x) l ->
  StronglySorted R (l ++ [x]).
Proof.
  induction 1 as [|y l Hs IH Hall]; simpl; intros Hx.
  - repeat constructor.
  - inversion Hx; subst. constructor; [now apply IH|].
    apply Forall_app. split; [assumption|]. now repeat constructor.
Qed.

Lemma sorted_le_rev (l : list Z) : Sorted Z.le l -> Sorted Z.ge (rev l).
Proof.
  intros H. apply Sorted_StronglySorted in H; [|intros x y z; apply Z.le_trans].
  apply StronglySorted_Sorted.
  induction H as [|x l Hs IH Hall]; simpl; [constructor|].
  apply strongly_sorted_snoc; [exact IH|].
  apply Forall_rev. revert Hall. apply Forall_impl. intros y Hy. lia.
Qed.

Lemma seq_in_range (n : nat) (f : nat -> bool) :
  Forall (fun i => (i < n)%nat) (filter f (seq 0 n)).
Proof.
  apply Forall_forall. intros i Hi. apply filter_In in Hi.
  destruct Hi as [Hi _]. apply in_seq in Hi. lia.
Qed.

(** Reading [items] through positions [nni] that hold the values [nn]. *)
Lemma take_through (items : list number) (nni : list nat) (nn : list Z) :
  Forall (fun i => (i < List.length items)%nat) nni ->
  map (fun i => nth i items NaN) nni = map Num nn ->
  forall ps, Forall (fun p => (p < List.length nn)%nat) ps ->
  take items (map (fun p => nth p nni 0%nat) ps)
  = map Num (map (fun p => nth p nn 0) ps).
Proof.
  intros Hrange Hvals ps Hps.
  assert (Hlen : List.length nni = List.length nn).
  { apply (f_equal (@List.length number)) in Hvals.
    now rewrite !length_map in Hvals. }
  induction Hps as [|p ps Hp _ IH]; simpl; [reflexivity|].
  change (flat_map _ (map ?f ps)) with (take items (map f ps)).
  rewrite IH. clear IH.
  assert (Hi : (nth p nni 0 < List.length items)%nat).
  { rewrite Forall_forall in Hrange. apply Hrange, nth_In. lia. }
  apply nth_error_nth' with (d := NaN) in Hi. rewrite Hi. simpl. f_equal.
  apply (f_equal (fun l => nth p l NaN)) in Hvals.
  rewrite (nth_indep _ NaN (nth 0 items NaN)) in Hvals
    by (rewrite length_map; lia).
  rewrite (map_nth (fun i => nth i items NaN)) in Hvals.
  rewrite Hvals.
  rewrite (nth_indep _ NaN (Num 0)) by (rewrite length_map; lia).
  apply (map_nth Num).
Qed.

Section AnyKernel.
Context {K : SortKernel}.

Lemma argsort_in_range (a : list Z) :
  Forall (fun p => (p < List.length a)%nat) (argsort a).
Proof.
  apply Forall_forall. intros p Hp.
  apply (Permutation_in _ (argsort_perm a)) in Hp.
  apply in_seq in Hp. lia.
Qed.

Lemma non_nan_idx_values (items : list number) :
  map (fun i => nth i items NaN)
    (filter (fun i => notna (nth i items NaN)) (seq 0 (List.length items)))
  = map Num (non_nan_values items).
Proof.
  rewrite <- take_in_range by apply seq_in_range.
  rewrite (take_filter_seq NaN notna). apply filter_notna_values.
Qed.

Lemma nargsort_perm (items : list number) (ascending : bool) :
  Permutation (nargsort items ascending) (seq 0 (List.length items)).
Proof.
  unfold nargsort.
  set (idx := seq 0 (List.length items)).
  set (nni := filter (fun i => notna (nth i items NaN)) idx).
  set (nn := non_nan_values items).
  assert (Hlen : List.length nni = List.length nn).
  { pose proof (non_nan_idx_values items) as H.
    apply (f_equal (@List.length number)) in H.
    now rewrite !length_map in H. }
  assert (Hsplit : Permutation
            (nni ++ filter (fun i => isna (nth i items NaN)) idx) idx).
  { rewrite (filter_ext (fun i => isna (nth i items NaN))
               (fun i => negb (notna (nth i items NaN)))).
    - apply (filter_split_perm (fun i => notna (nth i items NaN))).
    - intros i. unfold notna. now rewrite negb_involutive. }
  eapply Permutation_trans; [|exact Hsplit]. apply Permutation_app_tail.
  destruct ascending.
  - eapply Permutation_trans;
      [apply Permutation_map, (argsort_perm nn)|].
    rewrite <- Hlen. now rewrite map_nth_seq.
  - eapply Permutation_trans; [symmetry; apply Permutation_rev|].
    eapply Permutation_trans;
      [apply Permutation_map, (argsort_perm (rev nn))|].
    rewrite length_rev, <- Hlen, <- (length_rev nni), map_nth_seq.
    symmetry. apply Permutation_rev.
Qed.

(** The cells in the order of [nargsort]: the numbers sorted, then the
    NaN cells. *)
Lemma nargsort_values (items : list number) (ascending : bool) :
  exists zs,
    take items (nargsort items ascending) = map Num zs ++ filter isna items
    /\ Sorted (if ascending then Z.le else Z.ge) zs
    /\ Permutation zs (non_nan_values items).
Proof.
  unfold nargsort. rewrite take_app, (take_filter_seq NaN isna).
  set (nni := filter (fun i => notna (nth i items NaN))
                (seq 0 (List.length items))).
  set (nn := non_nan_values items).
  assert (Hrange : Forall (fun i => (i < List.length items)%nat) nni)
    by apply seq_in_range.
  pose proof (non_nan_idx_values items) as Hvals. fold nni nn in Hvals.
  destruct ascending.
  - exists (map (fun p => nth p nn 0) (argsort nn)). split; [|split].
    + f_equal. apply take_through; auto using argsort_in_range.
    + apply argsort_sorted.
    + eapply Permutation_trans;
        [apply Permutation_map, (argsort_perm nn)|].
      now rewrite map_nth_seq.
  - exists (rev (map (fun p => nth p (rev nn) 0) (argsort (rev nn)))).
    split; [|split].
    + f_equal. rewrite take_rev, (map_rev Num). f_equal.
      apply take_through; auto using argsort_in_range.
      * now apply Forall_rev.
      * now rewrite !map_rev, Hvals.
    + apply sorted_le_rev, argsort_sorted.
    + eapply Permutation_trans; [symmetry; apply Permutation_rev|].
      eapply Permutation_trans;
        [apply Permutation_map, (argsort_perm (rev nn))|].
      rewrite map_nth_seq. symmetry. apply Permutation_rev.
Qed.

Lemma sort_values_perm {A : Type} (by_ : A -> number) ascending rows :
  Permutation (sort_values by_ ascending rows) rows.
Proof.
  unfold sort_values. apply take_perm.
  rewrite <- (length_map by_). apply nargsort_perm.
Qed.

Lemma sort_values_keys {A : Type} (by_ : A -> number) ascending rows :
  exists zs,
    map by_ (sort_values by_ ascending rows)
    = map Num zs ++ filter isna (map by_ rows)
    /\ Sorted (if ascending then Z.le else Z.ge) zs
    /\ Permutation zs (non_nan_values (map by_ rows)).
Proof.
  unfold sort_values. rewrite take_map. apply nargsort_values.
Qed.

(** The rows in the order of [sort_values]: first the rows with a
    number as key, sorted, then the rows whose key is NaN, in the
    order they had. *)
Lemma sort_values_shape {A : Type} (by_ : A -> number) ascending rows :
  exists front zs,
    sort_values by_ ascending rows
    = front ++ filter (fun r => isna (by_ r)) rows
    /\ map by_ front = map Num zs
    /\ Sorted (if ascending then Z.le else Z.ge) zs.
Proof.
  destruct (sort_values_keys by_ ascending rows) as (zs & Hkeys & Hs & _).
  unfold sort_values, nargsort in *. rewrite take_app in *.
  rewrite (take_filter_seq_by NaN by_ isna) in *.
  match goal with |- context [take rows ?ix ++ _] => set (front := take rows ix) in * end.
  exists front, zs. split; [reflexivity|]. split; [|exact Hs].
  rewrite map_app, <- filter_map_comm in Hkeys.
  now apply app_inv_tail in Hkeys.
Qed.

End AnyKernel.

End SortFacts.

(** ** Groups, dictionaries and columns *)

Module AggFacts.
Import Numpy Aggregator SortFacts.

Lemma cell_eqb_true a b :
  cell_eqb a b = true <-> a = b /\ cell_isna a = false.
Proof.
  unfold cell_eqb. destruct (cell_isna a); [intuition discriminate|].
  destruct (cell_eq_dec a b); intuition discriminate.
Qed.

Lemma dict_get_set_same {V : Type} k (v : V) d :
  dict_get k (dict_set k v d) = Some v.
Proof.
  induction d as [|[k' v'] d IH]; simpl.
  - now destruct (cell_eq_dec k k).
  - destruct (cell_eq_dec k k') as [E|E]; simpl.
    + now destruct (cell_eq_dec k k).
    + now destruct (cell_eq_dec k k').
Qed.

Lemma dict_get_set_other {V : Type} k k' (v : V) d :
  k <> k' -> dict_get k (dict_set k' v d) = dict_get k d.
Proof.
  intros Hne. induction d as [|[k0 v0] d IH]; simpl.
  - now destruct (cell_eq_dec k k').
  - destruct (cell_eq_dec k' k0) as [E|E]; simpl.
    + subst. now destruct (cell_eq_dec k k0).
    + now rewrite IH.
Qed.

Lemma unique_In x l : In x (unique l) <-> In x l.
Proof.
  induction l as [|y l IH]; simpl; [reflexivity|].
  destruct (cell_eq_dec y x) as [E|E]; [tauto|].
  split.
  - intros [H|H]; [tauto|]. apply in_remove in H. tauto.
  - intros [H|H]; [tauto|]. right. apply in_in_remove; [congruence|tauto].
Qed.

Lemma remove_NoDup x (l : list cell) :
  NoDup l -> NoDup (remove cell_eq_dec x l).
Proof.
  induction 1 as [|y l Hy _ IH]; simpl; [constructor|].
  destruct (cell_eq_dec x y); [exact IH|].
  constructor; [|exact IH]. intros H. apply in_remove in H. tauto.
Qed.

Lemma unique_NoDup l : NoDup (unique l).
Proof.
  induction l as [|x l IH]; simpl; constructor.
  - apply remove_In.
  - now apply remove_NoDup.
Qed.

Lemma insert_key_perm k l : Permutation (insert_key k l) (k :: l).
Proof.
  induction l as [|k' l IH]; simpl; [reflexivity|].
  destruct (cell_leb k k'); [reflexivity|].
  rewrite IH. apply perm_swap.
Qed.

Lemma sort_keys_perm l : Permutation (sort_keys l) l.
Proof.
  induction l as [|k l IH]; simpl; [constructor|].
  rewrite insert_key_perm. now constructor.
Qed.

Lemma group_keys_In k rows :
  In k (group_keys rows)
  <-> exists r, In r rows /\ url r = k /\ cell_isna k = false.
Proof.
  unfold group_keys. split.
  - intros H. apply (Permutation_in _ (sort_keys_perm _)) in H.
    apply unique_In, filter_In in H. destruct H as [H Hna].
    apply in_map_iff in H. destruct H as (r & Hr & Hin).
    exists r. repeat split; auto. now destruct (cell_isna k).
  - intros (r & Hin & Hr & Hna).
    apply (Permutation_in _ (Permutation_sym (sort_keys_perm _))).
    apply unique_In, filter_In. split.
    + subst. now apply in_map.
    + now rewrite Hna.
Qed.

Lemma group_keys_NoDup rows : NoDup (group_keys rows).
Proof.
  unfold group_keys.
  apply (Permutation_NoDup (Permutation_sym (sort_keys_perm _))).
  apply unique_NoDup.
Qed.

(** The rows of a key of the grouping are not empty. *)
Lemma group_not_empty k rows :
  In k (group_keys rows) -> rows_of_url k rows <> [].
Proof.
  intros H. apply group_keys_In in H. destruct H as (r & Hin & Hr & Hna).
  assert (Hr' : In r (rows_of_url k rows)).
  { apply filter_In. split; [exact Hin|].
    apply cell_eqb_true. subst. auto. }
  intros E. now rewrite E in Hr'.
Qed.

Lemma group_sizes_key k keys rows :
  group_sizes (k :: keys) rows
  = (List.length (rows_of_url k rows) + group_sizes keys rows)%nat.
Proof. reflexivity. Qed.

Lemma rows_of_url_cons k r rows :
  rows_of_url k (r :: rows)
  = if cell_eqb (url r) k then r :: rows_of_url k rows
    else rows_of_url k rows.
Proof. reflexivity. Qed.

Lemma group_sizes_absent keys r rows :
  ~ In (url r) keys ->
  group_sizes keys (r :: rows) = group_sizes keys rows.
Proof.
  induction keys as [|k keys IH]; intros Hn; [reflexivity|].
  rewrite !group_sizes_key, rows_of_url_cons.
  rewrite IH by (simpl in Hn; tauto).
  destruct (cell_eqb (url r) k) eqn:E; [|reflexivity].
  apply cell_eqb_true in E. destruct E as [E _]. exfalso. apply Hn.
  now left.
Qed.

Lemma group_sizes_cons keys r rows :
  NoDup keys -> In (url r) keys -> cell_isna (url r) = false ->
  group_sizes keys (r :: rows) = S (group_sizes keys rows).
Proof.
  induction 1 as [|k keys Hk Hnd IH]; intros Hin Hna; [contradiction|].
  rewrite !group_sizes_key, rows_of_url_cons.
  destruct (cell_eq_dec k (url r)) as [E|E].
  - subst k. rewrite group_sizes_absent by exact Hk.
    assert (Eb : cell_eqb (url r) (url r) = true)
      by (apply cell_eqb_true; auto).
    rewrite Eb. reflexivity.
  - destruct Hin as [Hin|Hin]; [congruence|].
    rewrite IH by assumption.
    destruct (cell_eqb (url r) k) eqn:Eb.
    + apply cell_eqb_true in Eb. destruct Eb. congruence.
    + now rewrite Nat.add_succ_r.
Qed.


(** [apply_] with a function that returns on every cell. *)
Lemma apply_returns {A B : Type} (f : A -> result B) (g : A -> B) col :
  (forall x, In x col -> f x = inr (g x)) ->
  apply_ f col = inr (map g col).
Proof.
  induction col as [|a col IH]; simpl; intros H; [reflexivity|].
  rewrite (H a) by now left. simpl. rewrite IH; [reflexivity|].
  intros x Hx. apply H. now right.
Qed.

Lemma apply_inr {A B : Type} (f : A -> result B) col out :
  apply_ f col = inr out -> Forall2 (fun x y => f x = inr y) col out.
Proof.
  revert out. induction col as [|a col IH]; simpl; intros out H.
  - injection H as <-. constructor.
  - destruct (f a) as [e|b] eqn:Ea; simpl in H; [discriminate|].
    destruct (apply_ f col) as [e|bs] eqn:Ec; simpl in H; [discriminate|].
    injection H as <-. constructor; auto.
Qed.

(** [apply_] with a function that raises on some cell, and never
    anything but [e]. *)
Lemma apply_raises {A B : Type} (f : A -> result B) (e : exn) col :
  (forall x e', In x col -> f x = inl e' -> e' = e) ->
  (exists x, In x col /\ f x = inl e) ->
  apply_ f col = inl e.
Proof.
  induction col as [|a col IH]; simpl; intros Honly (x & Hx & Hfx);
    [contradiction|].
  destruct (f a) as [e'|b] eqn:Ea; simpl.
  - f_equal. apply (Honly a); auto.
  - rewrite IH; [reflexivity| |].
    + intros y e' Hy. apply Honly. now right.
    + destruct Hx as [->|Hx]; [congruence|]. now exists x.
Qed.

End AggFacts.

(** ** The body of [cluster_keywords], row by row *)

Module ClusterFacts.
Import Numpy Aggregator SortFacts AggFacts.

Lemma top_loop_entries df urls :
  forall tk tv tk' tv',
    top_loop df urls tk tv = inr (tk', tv') ->
    forall u first rest,
      rows_of_url u df = first :: rest ->
      In u urls \/ entry tk tv u first ->
      entry tk' tv' u first.
Proof.
  induction urls as [|u0 urls IH]; simpl; intros tk tv tk' tv' Hrun u first rest Hu Hin.
  - injection Hrun as <- <-. destruct Hin as [[]|H]. exact H.
  - destruct (rows_of_url u0 df) as [|first0 rest0] eqn:E0.
    + apply (IH _ _ _ _ Hrun u first rest Hu).
      destruct Hin as [[->|Hin]|Hin]; auto. congruence.
    + destruct (volume first0) as [|z0] eqn:Ev; simpl in Hrun; [discriminate|].
      apply (IH _ _ _ _ Hrun u first rest Hu).
      destruct (cell_eq_dec u u0) as [->|Hne].
      * right. rewrite E0 in Hu. injection Hu as -> ->.
        exists z0. now rewrite !dict_get_set_same.
      * destruct Hin as [[->|Hin]|(z & Hz & Hv & Hk)]; auto; [congruence|].
        right. exists z. now rewrite !dict_get_set_other.
Qed.

Lemma top_loop_raises df urls :
  forall tk tv e, top_loop df urls tk tv = inl e -> e = nan_to_integer.
Proof.
  induction urls as [|u0 urls IH]; simpl; intros tk tv e Hrun; [discriminate|].
  destruct (rows_of_url u0 df) as [|first0 rest0]; [now apply IH in Hrun|].
  destruct (volume first0); simpl in Hrun.
  - now injection Hrun as <-.
  - now apply IH in Hrun.
Qed.

Lemma apply_map {A B C : Type} (f : B -> result C) (h : A -> B) l :
  apply_ f (map h l) = apply_ (fun x => f (h x)) l.
Proof.
  induction l as [|a l IH]; simpl; [reflexivity|]. now rewrite IH.
Qed.

(** The text of the volumes of a group exists exactly when none of them
    is NaN. *)
Lemma volume_lines_inr vs t :
  apply_ (fun v => z <- py_int v ;; ret (str_int z)) vs = inr t ->
  Forall (fun v => isna v = false) vs
  /\ t = map str_int (non_nan_values vs).
Proof.
  revert t. induction vs as [|[|z] vs IH]; simpl; intros t H.
  - injection H as <-. auto.
  - discriminate.
  - destruct (apply_ _ vs) as [e|t'] eqn:E; simpl in H; [discriminate|].
    injection H as <-. destruct (IH t' eq_refl) as [Hall ->]. auto.
Qed.

Lemma volume_lines_inl vs e :
  apply_ (fun v => z <- py_int v ;; ret (str_int z)) vs = inl e ->
  e = nan_to_integer /\ In NaN vs.
Proof.
  induction vs as [|[|z] vs IH]; simpl; intros H.
  - discriminate.
  - injection H as <-. auto.
  - destruct (apply_ _ vs) as [e'|t'] eqn:E; simpl in H; [|discriminate].
    injection H as <-. destruct (IH eq_refl). auto.
Qed.

Lemma join_volumes_inr vs y :
  join_volumes (AsList vs) = inr y ->
  Forall (fun v => isna v = false) vs
  /\ y = AsText (join_lines (map str_int (non_nan_values vs))).
Proof.
  simpl. destruct (apply_ _ vs) as [e|t] eqn:E; simpl; intros H;
    [discriminate|].
  injection H as <-. apply volume_lines_inr in E. destruct E as [Hall ->].
  auto.
Qed.

Lemma join_volumes_inl vs e :
  join_volumes (AsList vs) = inl e -> e = nan_to_integer /\ In NaN vs.
Proof.
  simpl. destruct (apply_ _ vs) as [e'|t] eqn:E; simpl; intros H;
    [|discriminate].
  injection H as <-. now apply volume_lines_inl.
Qed.

Lemma zip_rows_map (l : list cell) f2 f3 f4 f5 f6 f7 f8 f9 :
  zip_rows l (map f2 l) (map f3 l) (map f4 l) (map f5 l) (map f6 l)
    (map f7 l) (map f8 l) (map f9 l)
  = map (fun x => {| g_url := x; top_keyword := f2 x;
                     top_keyword_volume := f3 x; avg_position := f4 x;
                     keyword_count := f5 x; total_volume := f6 x;
                     g_keyword := f7 x; g_volume := f8 x;
                     g_position := f9 x |}) l.
Proof.
  induction l as [|x l IH]; simpl; [reflexivity|]. now rewrite IH.
Qed.

Lemma forall2_map_eq {A B : Type} (f : A -> result B) (g : A -> B) l out :
  Forall2 (fun x y => f x = inr y) l out ->
  (forall x y, In x l -> f x = inr y -> y = g x) ->
  out = map g l.
Proof.
  induction 1 as [|x y l out Hxy _ IH]; simpl; intros Hg; [reflexivity|].
  rewrite (Hg x y) by auto. f_equal. apply IH. intros; apply Hg; auto.
Qed.

Lemma mean_rounded_list l :
  l <> [] ->
  mean_rounded (AsList l)
  = inr (match py_sum l with
         | NaN => RoundNaN
         | Num t => Round1 t (List.length l)
         end).
Proof. destruct l; [congruence|reflexivity]. Qed.

Lemma apply_inl {A B : Type} (f : A -> result B) col e :
  apply_ f col = inl e -> exists x, In x col /\ f x = inl e.
Proof.
  induction col as [|a col IH]; simpl; intros H; [discriminate|].
  destruct (f a) as [e'|b] eqn:Ea; simpl in H.
  - injection H as <-. exists a. auto.
  - destruct (apply_ f col) as [e'|bs]; simpl in H; [|discriminate].
    injection H as <-. destruct (IH eq_refl) as (x & Hx & Hfx).
    exists x. auto.
Qed.

Lemma top_loop_raises_row df urls :
  forall tk tv e, top_loop df urls tk tv = inl e ->
  exists r, In r df /\ volume r = NaN /\ cell_isna (url r) = false.
Proof.
  induction urls as [|u0 urls IH]; simpl; intros tk tv e Hrun; [discriminate|].
  destruct (rows_of_url u0 df) as [|first0 rest0] eqn:E0;
    [now apply IH in Hrun|].
  destruct (volume first0) eqn:Ev; simpl in Hrun.
  - exists first0.
    assert (H : In first0 (rows_of_url u0 df)) by (rewrite E0; now left).
    apply filter_In in H. destruct H as [Hin Heq].
    apply cell_eqb_true in Heq. tauto.
  - now apply IH in Hrun.
Qed.

Section AnyKernel.
Context {K : SortKernel}.

(** What the body of [cluster_keywords] gives: the one exception it
    can raise, with a row that causes it, or the table, which is the
    rows of the groups sorted by [top_keyword_volume]. *)
Lemma body_cases df :
  let sorted := sort_values volume false df in
  match cluster_keywords_body df with
  | inl e =>
      e = nan_to_integer
      /\ exists r, In r sorted /\ volume r = NaN /\ cell_isna (url r) = false
  | inr gs =>
      exists tops,
        top_loop sorted (unique (map url sorted)) [] [] = inr tops
        /\ (forall k, In k (group_keys sorted) ->
            Forall (fun v => isna v = false) (map volume (rows_of_url k sorted)))
        /\ gs = sort_values top_keyword_volume true
                  (map (row_of sorted tops) (group_keys sorted))
  end.
Proof.
  intros sorted. unfold cluster_keywords_body. fold sorted.
  clearbody sorted.
  destruct (top_loop sorted _ [] []) as [e|tops] eqn:Ht; simpl.
  - split; [eapply top_loop_raises, Ht | eapply top_loop_raises_row, Ht].
  - unfold line_81, line_82, line_83, line_86, line_87, line_90, line_91,
      line_92.
    cbn [bind ret].
    cbn [c_volume c_position c_keyword c_url set_keyword_count
           set_total_volume groupby_agg].
    rewrite apply_map.
    rewrite (apply_returns _
               (fun k => py_sum (map volume (rows_of_url k sorted))))
      by reflexivity.
    cbn [bind ret c_volume c_position c_keyword c_url set_keyword_count
           set_total_volume groupby_agg].
    rewrite apply_map.
    rewrite (apply_returns _
      (fun k => match py_sum (map position (rows_of_url k sorted)) with
                | NaN => RoundNaN
                | Num t => Round1 t (List.length (rows_of_url k sorted))
                end)).
    2:{ intros k Hk. rewrite mean_rounded_list.
        - now rewrite length_map.
        - intros E. apply map_eq_nil in E. revert E. now apply group_not_empty. }
    cbn [bind ret c_volume c_position c_keyword c_url set_keyword_count
           set_total_volume set_avg_position set_top_keyword
           set_top_keyword_volume set_keyword set_position groupby_agg].
    rewrite apply_map.
    destruct (apply_ _ (group_keys sorted)) as [e|col] eqn:Hcol; cbn [bind ret].
    + apply apply_inl in Hcol. destruct Hcol as (k & Hk & Hjoin).
      apply join_volumes_inl in Hjoin. destruct Hjoin as [-> Hnan].
      split; [reflexivity|].
      apply in_map_iff in Hnan. destruct Hnan as (r & Hv & Hr).
      apply filter_In in Hr. destruct Hr as [Hin Heq].
      apply cell_eqb_true in Heq. exists r. tauto.
    + pose proof (apply_inr _ _ _ Hcol) as Hall.
      apply forall2_map_eq with
        (g := fun k => AsText (join_lines (map str_int
                 (non_nan_values (map volume (rows_of_url k sorted))))))
        in Hall.
      2:{ intros k y _ Hy. now apply join_volumes_inr in Hy. }
      unfold select_columns, map_dict_cells, map_dict_ints.
      cbn [c_volume c_position c_keyword c_url c_top_keyword c_top_keyword_volume
             c_avg_position c_keyword_count c_total_volume set_keyword_count
             set_total_volume set_avg_position set_top_keyword
             set_top_keyword_volume set_keyword set_position set_volume
             groupby_agg].
      rewrite Hall, !map_map.
      rewrite zip_rows_map. cbn [bind ret].
      exists tops. split; [reflexivity|]. split.
      * intros k Hk.
        destruct (join_volumes (AsList (map volume (rows_of_url k sorted))))
          as [e|y] eqn:Ey.
        -- exfalso. 
           assert (Hex : exists x, In x (group_keys sorted) /\
              join_volumes (AsList (map volume (rows_of_url x sorted))) = inl e)
             by eauto.
           apply (apply_raises _ e) in Hex.
           ++ congruence.
           ++ intros x e' _ Hx. apply join_volumes_inl in Hx.
              apply join_volumes_inl in Ey. destruct Hx, Ey. congruence.
        -- now apply join_volumes_inr in Ey.
      * f_equal. apply map_ext. intros k. unfold row_of. cbn [len_ join_keywords join_positions].
        now rewrite length_map.
Qed.

End AnyKernel.

End ClusterFacts.

(** ** What [cluster_keywords] returns *)

Import Numpy Aggregator SortFacts AggFacts ClusterFacts.

Section AnyKernel.
Context {K : SortKernel}.

Lemma cluster_keywords_some df shown gs :
  cluster_keywords df = (shown, Some gs)
  <-> cluster_keywords_body df = inr gs /\ shown = [].
Proof.
  unfold cluster_keywords. destruct (cluster_keywords_body df) as [e|t].
  - split; [discriminate|]. intros [H _]. discriminate.
  - split.
    + intros H. injection H as <- <-. auto.
    + intros [H ->]. now injection H as <-.
Qed.

Lemma cluster_keywords_none df shown :
  cluster_keywords df = (shown, None)
  <-> cluster_keywords_body df = inl nan_to_integer
      /\ shown = clustering_error nan_to_integer.
Proof.
  unfold cluster_keywords. pose proof (body_cases df) as H.
  destruct (cluster_keywords_body df) as [e|t].
  - destruct H as [-> _]. split.
    + intros H. now injection H as <-.
    + now intros [_ ->].
  - split; [discriminate|]. intros [E _]. discriminate.
Qed.

(** A row without volume and with a url stops the whole aggregation. *)
Lemma null_volume_aborts df :
  (exists r, In r df /\ volume r = NaN /\ cell_isna (url r) = false) ->
  cluster_keywords df = (clustering_error nan_to_integer, None).
Proof.
  intros (r & Hin & Hv & Hu). apply cluster_keywords_none. split; [|reflexivity].
  pose proof (body_cases df) as H.
  destruct (cluster_keywords_body df) as [e|gs].
  - now destruct H as [-> _].
  - exfalso. destruct H as (tops & _ & Hall & _).
    set (sorted := sort_values volume false df) in *.
    assert (Hs : In r sorted).
    { apply (Permutation_in _ (Permutation_sym (sort_values_perm _ _ _))), Hin. }
    assert (Hk : In (url r) (group_keys sorted)).
    { apply group_keys_In. exists r. auto. }
    specialize (Hall _ Hk). rewrite Forall_forall in Hall.
    assert (Hv' : In NaN (map volume (rows_of_url (url r) sorted))).
    { rewrite <- Hv. apply in_map, filter_In. split; [exact Hs|].
      apply cell_eqb_true. auto. }
    apply Hall in Hv'. discriminate.
Qed.

(** Without such a row the aggregation returns its table. *)
Lemma cluster_keywords_returns df :
  (forall r, In r df -> cell_isna (url r) = false -> isna (volume r) = false) ->
  exists gs, cluster_keywords df = ([], Some gs).
Proof.
  intros Hall. pose proof (body_cases df) as H.
  destruct (cluster_keywords_body df) as [e|gs] eqn:E.
  - exfalso. destruct H as (_ & r & Hin & Hv & Hu).
    apply (Permutation_in _ (sort_values_perm _ _ _)) in Hin.
    specialize (Hall r Hin Hu). rewrite Hv in Hall. discriminate.
  - exists gs. apply cluster_keywords_some. auto.
Qed.

End AnyKernel.

(** ** Lemmas on the groups of the table *)

Lemma take_nil {A : Type} (ix : list nat) : take (@nil A) ix = [].
Proof.
  unfold take. induction ix as [|i ix IH]; simpl; [reflexivity|].
  rewrite IH. now destruct i.
Qed.

Lemma list_sum_perm (l l' : list nat) :
  Permutation l l' -> list_sum l = list_sum l'.
Proof. induction 1; simpl; lia. Qed.

Lemma filter_perm {A : Type} (f : A -> bool) (l l' : list A) :
  Permutation l l' -> Permutation (filter f l) (filter f l').
Proof.
  induction 1 as [|x l l' _ IH|x y l|l l' l'' _ IH1 _ IH2]; simpl.
  - constructor.
  - destruct (f x); [now constructor|exact IH].
  - destruct (f x), (f y); try reflexivity. apply perm_swap.
  - now transitivity (filter f l').
Qed.

Lemma py_sum_from (vs : list Z) (a : Z) :
  fold_left py_add (map Num vs) (Num a) = Num (a + fold_right Z.add 0 vs).
Proof.
  revert a. induction vs as [|v vs IH]; simpl; intros a.
  - f_equal. lia.
  - rewrite IH. f_equal. lia.
Qed.

Lemma py_sum_numbers (vs : list Z) :
  py_sum (map Num vs) = Num (fold_right Z.add 0 vs).
Proof. unfold py_sum. now rewrite py_sum_from. Qed.

Lemma non_nan_values_numbers (zs : list Z) :
  non_nan_values (map Num zs) = zs.
Proof. induction zs as [|z zs IH]; simpl; [reflexivity|]. now rewrite IH. Qed.

(** A selection of rows of a frame sorted by a key is sorted by it. *)
Lemma filter_sorted_keys {A : Type} (by_ : A -> number) (test : A -> bool)
    (front : list A) :
  forall zs, map by_ front = map Num zs -> StronglySorted Z.ge zs ->
  exists vs, map by_ (filter test front) = map Num vs
             /\ StronglySorted Z.ge vs
             /\ incl vs zs.
Proof.
  induction front as [|r front IH]; simpl; intros zs Hzs Hs.
  - exists []. repeat split; [constructor | intros x []].
  - destruct zs as [|z zs]; [discriminate|]. simpl in Hzs.
    injection Hzs as Hr Hzs. inversion Hs as [|? ? Hs' Hall]; subst.
    destruct (IH zs Hzs Hs') as (vs & Hvs & Hsorted & Hincl).
    destruct (test r); simpl.
    + exists (z :: vs). rewrite Hr, Hvs. repeat split.
      * constructor; [exact Hsorted|].
        rewrite Forall_forall in *. intros v Hv. apply Hall, Hincl, Hv.
      * intros x [->|Hx]; [now left | right; now apply Hincl].
    + exists vs. repeat split; auto. intros x Hx. right. now apply Hincl.
Qed.

Lemma ge_trans : forall x y z : Z, x >= y -> y >= z -> x >= z.
Proof. intros; lia. Qed.

Section AnyKernel.
Context {K : SortKernel}.

Lemma sort_values_nil {A : Type} (by_ : A -> number) ascending :
  sort_values by_ ascending [] = [].
Proof. unfold sort_values. apply take_nil. Qed.

(** The volumes of a group whose rows all have one, in the order of
    the frame sorted by volume: they descend. *)
Lemma group_volumes_descend df k :
  Forall (fun v => isna v = false)
    (map volume (rows_of_url k (sort_values volume false df))) ->
  exists vs,
    map volume (rows_of_url k (sort_values volume false df)) = map Num vs
    /\ StronglySorted Z.ge vs.
Proof.
  intros Hall.
  destruct (sort_values_shape volume false df) as (front & zs & Hs & Hf & Hz).
  rewrite Hs in *. unfold rows_of_url in *. rewrite filter_app in *.
  rewrite map_app in *. apply Forall_app in Hall. destruct Hall as [_ Hnan].
  assert (Hnil : filter (fun r => cell_eqb (url r) k)
                   (filter (fun r => isna (volume r)) df) = []).
  { destruct (filter _ (filter _ df)) as [|r l] eqn:E; [reflexivity|].
    exfalso. assert (Hr : In r (r :: l)) by now left.
    rewrite <- E in Hr. apply filter_In in Hr. destruct Hr as [Hr _].
    apply filter_In in Hr. destruct Hr as [_ Hr].
    simpl in Hnan. inversion Hnan; subst. congruence. }
  rewrite Hnil. simpl. rewrite app_nil_r.
  apply Sorted_StronglySorted in Hz; [|exact ge_trans].
  destruct (filter_sorted_keys volume (fun r => cell_eqb (url r) k)
              front zs Hf Hz) as (vs & Hvs & Hsv & _).
  now exists vs.
Qed.

(** The groups of the table, before the last sort. *)
Lemma table_rows df gs :
  cluster_keywords df = ([], Some gs) ->
  let sorted := sort_values volume false df in
  exists tops,
    top_loop sorted (unique (map url sorted)) [] [] = inr tops
    /\ (forall k, In k (group_keys sorted) ->
                  Forall (fun v => isna v = false)
                    (map volume (rows_of_url k sorted)))
    /\ gs = sort_values top_keyword_volume true
              (map (row_of sorted tops) (group_keys sorted))
    /\ Permutation gs (map (row_of sorted tops) (group_keys sorted)).
Proof.
  intros H sorted. apply cluster_keywords_some in H. destruct H as [H _].
  pose proof (body_cases df) as Hb. rewrite H in Hb.
  destruct Hb as (tops & Ht & Hall & ->). exists tops.
  repeat split; auto. apply sort_values_perm.
Qed.

End AnyKernel.

Lemma filter_none {A : Type} (f : A -> bool) (l : list A) :
  Forall (fun x => f x = false) l -> filter f l = [].
Proof.
  induction 1 as [|x l Hx _ IH]; simpl; [reflexivity|]. now rewrite Hx.
Qed.

(** ** The stable kernel keeps the input order *)

Lemma insert_pos_stable (a : list Z) (z : Z) i l :
  filter (has_value a z) (insert_pos Z.leb a i l)
  = filter (has_value a z) (i :: l).
Proof.
  induction l as [|j l IH]; [reflexivity|].
  cbn [insert_pos]. destruct (nth i a 0 <=? nth j a 0) eqn:E; [reflexivity|].
  apply Z.leb_gt in E.
  cbn [filter] in *. rewrite IH.
  destruct (has_value a z i) eqn:Ei, (has_value a z j) eqn:Ej;
    try reflexivity.
  unfold has_value in Ei, Ej. apply Z.eqb_eq in Ei, Ej. lia.
Qed.

Lemma insertion_argsort_stable (a : list Z) (z : Z) ps :
  filter (has_value a z) (insertion_argsort_from Z.leb a ps)
  = filter (has_value a z) ps.
Proof.
  induction ps as [|i ps IH]; [reflexivity|].
  cbn [insertion_argsort_from]. rewrite insert_pos_stable.
  cbn [filter]. now rewrite IH.
Qed.

Lemma take_filter {A : Type} (test : A -> bool) (d : A) (rows : list A) ix :
  Forall (fun i => (i < List.length rows)%nat) ix ->
  filter test (take rows ix)
  = take rows (filter (fun i => test (nth i rows d)) ix).
Proof.
  induction 1 as [|i ix Hi _ IH]; [reflexivity|].
  unfold take in *. cbn [flat_map filter].
  rewrite filter_app, IH.
  pose proof (nth_error_nth' rows d Hi) as E. rewrite E. cbn [filter].
  destruct (test (nth i rows d)); [|reflexivity].
  cbn [flat_map]. now rewrite E.
Qed.

(** The rows in the order of the stable kernel: rows of one key keep
    their order. *)
Lemma stable_take {A : Type} (val : A -> Z) (z : Z) (c : list A) :
  filter (fun r => val r =? z)
    (take c (@argsort Kernels.stable_kernel (map val c)))
  = filter (fun r => val r =? z) c.
Proof.
  destruct c as [|d c']; [now rewrite take_nil|].
  set (c := d :: c') in *.
  pose proof (@argsort_in_range Kernels.stable_kernel (map val c)) as Hrange.
  rewrite length_map in Hrange.
  rewrite (take_filter _ d) by exact Hrange.
  rewrite (filter_ext_in _ (has_value (map val c) z)).
  2:{ intros p Hp. rewrite Forall_forall in Hrange. apply Hrange in Hp.
      unfold has_value.
      rewrite (nth_indep _ 0 (val d)) by now rewrite length_map.
      now rewrite map_nth. }
  cbn [argsort Kernels.stable_kernel]. unfold insertion_argsort.
  rewrite insertion_argsort_stable.
  apply (take_filter_seq_by 0 val (fun v => v =? z)).
Qed.

Lemma filter_rev {A : Type} (f : A -> bool) (l : list A) :
  filter f (rev l) = rev (filter f l).
Proof.
  induction l as [|x l IH]; [reflexivity|]. simpl.
  rewrite filter_app, IH. simpl. destruct (f x); [reflexivity|].
  now rewrite app_nil_r.
Qed.

Lemma take_in {A : Type} (rows : list A) ix r :
  In r (take rows ix) -> In r rows.
Proof.
  unfold take. intros H. apply in_flat_map in H. destruct H as (i & _ & H).
  destruct (nth_error rows i) eqn:E; [|contradiction].
  destruct H as [<-|[]]. eapply nth_error_In, E.
Qed.

Lemma nth_error_take {A : Type} (rows : list A) ix :
  Forall (fun i => (i < List.length rows)%nat) ix ->
  forall p, (p < List.length ix)%nat ->
  nth_error (take rows ix) p = nth_error rows (nth p ix 0%nat).
Proof.
  induction 1 as [|i ix Hi _ IH]; intros p Hp; [simpl in Hp; lia|].
  unfold take in *. cbn [flat_map].
  destruct (nth_error rows i) as [r|] eqn:E.
  - destruct p as [|p]; simpl; [now rewrite E|]. apply IH. simpl in Hp. lia.
  - apply nth_error_None in E. lia.
Qed.

Lemma take_cons {A : Type} (rows : list A) i ix :
  take rows (i :: ix)
  = match nth_error rows i with Some r => [r] | None => [] end
    ++ take rows ix.
Proof. reflexivity. Qed.

(** Reading through positions that were read through positions. *)
Lemma take_take {A : Type} (rows : list A) ix ps :
  Forall (fun i => (i < List.length rows)%nat) ix ->
  Forall (fun p => (p < List.length ix)%nat) ps ->
  take rows (map (fun p => nth p ix 0%nat) ps) = take (take rows ix) ps.
Proof.
  intros Hix. induction 1 as [|p ps Hp _ IH]; [reflexivity|].
  cbn [map]. rewrite !take_cons, IH.
  now rewrite (nth_error_take rows ix Hix p Hp).
Qed.

Lemma non_nan_values_filter {A : Type} (by_ : A -> number) (rows : list A) :
  non_nan_values (map by_ rows)
  = map (fun r => value_or_zero (by_ r))
      (filter (fun r => notna (by_ r)) rows).
Proof.
  unfold non_nan_values.
  induction rows as [|r rows IH]; [reflexivity|]. simpl.
  destruct (by_ r) eqn:E; simpl; rewrite ?E; simpl; now rewrite IH.
Qed.

Lemma take_length {A : Type} (rows : list A) ix :
  Forall (fun i => (i < List.length rows)%nat) ix ->
  List.length (take rows ix) = List.length ix.
Proof.
  induction 1 as [|i ix Hi _ IH]; [reflexivity|].
  rewrite take_cons, length_app, IH.
  destruct (nth_error rows i) eqn:E; [reflexivity|].
  apply nth_error_None in E. lia.
Qed.

Lemma same_volume_number z r :
  notna (volume r) = true ->
  same_volume (Num z) r = (value_or_zero (volume r) =? z).
Proof.
  unfold same_volume, value_or_zero.
  destruct (volume r) as [|x]; [discriminate|].
  intros _. destruct (number_eq_dec (Num x) (Num z)) as [E|E].
  - injection E as ->. symmetry. apply Z.eqb_refl.
  - symmetry. apply Z.eqb_neq. congruence.
Qed.

Lemma same_volume_nan r : same_volume NaN r = isna (volume r).
Proof. unfold same_volume. now destruct (volume r). Qed.

(** The rows of one volume, among the rows with a volume and among the
    rows without. *)
Lemma same_volume_split v df :
  filter (same_volume v) (filter (fun r => notna (volume r)) df)
  ++ filter (same_volume v) (filter (fun r => isna (volume r)) df)
  = filter (same_volume v) df.
Proof.
  destruct v as [|z].
  - rewrite (filter_none (same_volume NaN)
               (filter (fun r => notna (volume r)) df)).
    + cbn [app]. induction df as [|r df IH]; [reflexivity|].
      cbn [filter]. rewrite same_volume_nan.
      destruct (isna (volume r)) eqn:E; [|exact IH].
      cbn [filter]. now rewrite same_volume_nan, E, IH.
    + apply Forall_forall. intros r Hr. apply filter_In in Hr.
      rewrite same_volume_nan. unfold notna in Hr.
      now destruct (isna (volume r)).
  - rewrite (filter_none (same_volume (Num z))
               (filter (fun r => isna (volume r)) df)).
    + rewrite app_nil_r. induction df as [|r df IH]; [reflexivity|].
      cbn [filter]. destruct (notna (volume r)) eqn:E.
      * cbn [filter]. now rewrite IH.
      * assert (H : same_volume (Num z) r = false).
        { unfold same_volume. unfold notna in E.
          destruct (volume r); [|discriminate].
          now destruct (number_eq_dec NaN (Num z)). }
        now rewrite H.
    + apply Forall_forall. intros r Hr. apply filter_In in Hr.
      unfold same_volume. destruct (volume r); [|destruct Hr; discriminate].
      now destruct (number_eq_dec NaN (Num z)).
Qed.

(** ** The order of the keys of the groups *)

Lemma argsort_of_two (K : SortKernel) (a b : Z) :
  argsort [a; b] = [0; 1]%nat \/ argsort [a; b] = [1; 0]%nat.
Proof.
  pose proof (argsort_perm [a; b]) as H. simpl in H.
  apply Permutation_sym, Permutation_length_2_inv in H. tauto.
Qed.

Lemma cell_leb_total a b : cell_leb a b = false -> cell_leb b a = true.
Proof.
  destruct a as [s|[|x]], b as [t|[|y]]; simpl; try congruence.
  - intros H. destruct (String.leb_total s t) as [E|E]; congruence.
  - intros H. apply Z.leb_gt in H. apply Z.leb_le. lia.
Qed.

Lemma insert_key_sorted k l :
  Sorted cell_le l -> Sorted cell_le (insert_key k l).
Proof.
  induction l as [|k' l IH]; simpl; intros Hs.
  - repeat constructor.
  - destruct (cell_leb k k') eqn:E.
    + constructor; [exact Hs|]. now constructor.
    + inversion Hs as [|? ? Hs' Hhd]; subst.
      constructor; [now apply IH|].
      apply cell_leb_total in E.
      destruct l as [|k'' l]; simpl.
      * now constructor.
      * destruct (cell_leb k k''); constructor; auto.
        now inversion Hhd.
Qed.

Lemma sort_keys_sorted l : Sorted cell_le (sort_keys l).
Proof.
  induction l as [|k l IH]; simpl; [constructor|].
  now apply insert_key_sorted.
Qed.

(** ** The quote characters at the ends of a text *)

Import Normalizer.

Lemma lstrip_spec s :
  exists n, s = (quotes n ++ lstrip s)%string
            /\ first_char (lstrip s) <> Some quote.
Proof.
  induction s as [|c s IH]; simpl.
  - exists O. split; [reflexivity|discriminate].
  - destruct (ascii_dec c quote) as [->|Hc].
    + destruct IH as (n & Hs & Hf). exists (S n). simpl. split; congruence.
    + exists O. split; [reflexivity|]. simpl. congruence.
Qed.

Lemma last_char_cons c t :
  t <> EmptyString -> last_char (String c t) = last_char t.
Proof. destruct t; [congruence|reflexivity]. Qed.

Lemma rstrip_spec s :
  exists m, s = (rstrip s ++ quotes m)%string
            /\ last_char (rstrip s) <> Some quote.
Proof.
  induction s as [|c s IH].
  - exists O. split; [reflexivity|discriminate].
  - destruct IH as (m & Hs & Hl). simpl.
    destruct (rstrip s) as [|c' t] eqn:E.
    + destruct (ascii_dec c quote) as [->|Hc].
      * exists (S m). simpl in *. split; [congruence|discriminate].
      * exists m. simpl in *. split; congruence.
    + exists m. split.
      * simpl. f_equal. exact Hs.
      * rewrite last_char_cons by discriminate. exact Hl.
Qed.

Lemma rstrip_first_char s :
  first_char s <> Some quote -> first_char (rstrip s) <> Some quote.
Proof.
  destruct s as [|c s]; simpl; [auto|]. intros Hc.
  destruct (rstrip s); [|simpl; exact Hc].
  destruct (ascii_dec c quote); simpl; congruence.
Qed.

(** What [strip] does: it takes away the quote characters at the two
    ends, however many, and nothing between them. *)
Lemma strip_spec s :
  exists n m, s = (quotes n ++ (strip s ++ quotes m))%string
              /\ first_char (strip s) <> Some quote
              /\ last_char (strip s) <> Some quote.
Proof.
  destruct (lstrip_spec s) as (n & Hs & Hf).
  destruct (rstrip_spec (lstrip s)) as (m & Hs' & Hl).
  exists n, m. unfold strip. split; [congruence|].
  split; [now apply rstrip_first_char | exact Hl].
Qed.

Lemma rstrip_id s :
  last_char s <> Some quote -> rstrip s = s.
Proof.
  induction s as [|c s IH]; [reflexivity|]. intros Hl.
  destruct s as [|c' s'].
  - simpl in *. destruct (ascii_dec c quote); congruence.
  - rewrite last_char_cons in Hl by discriminate.
    change (rstrip (String c (String c' s')))
      with (match rstrip (String c' s') with
            | EmptyString => if ascii_dec c quote then EmptyString
                             else String c EmptyString
            | t => String c t
            end).
    now rewrite IH.
Qed.

Lemma rstrip_quote_end s :
  rstrip (s ++ String quote EmptyString) = rstrip s.
Proof.
  induction s as [|c s IH]; simpl.
  - now destruct (ascii_dec quote quote).
  - now rewrite IH.
Qed.

(** One layer around a value that neither begins nor ends with a quote
    character is taken away, and the value is left. *)
Lemma strip_one_layer inner :
  first_char inner <> Some quote -> last_char inner <> Some quote ->
  strip (q inner) = inner.
Proof.
  intros Hf Hl. unfold strip, q. simpl.
  destruct (ascii_dec quote quote) as [_|]; [|congruence].
  destruct inner as [|c s].
  - reflexivity.
  - simpl in Hf. change (lstrip (String c s ++ String quote EmptyString))
      with (if ascii_dec c quote
            then lstrip (s ++ String quote EmptyString)
            else (String c s ++ String quote EmptyString)%string).
    destruct (ascii_dec c quote); [congruence|].
    rewrite rstrip_quote_end. now apply rstrip_id.
Qed.

Lemma lookup_column_none name df :
  lookup_column name df = None <-> ~ In name (columns df).
Proof.
  induction df as [|[n c] df IH]; simpl; [tauto|].
  destruct (string_dec name n) as [->|Hne].
  - split; [discriminate|]. intros H. exfalso. auto.
  - rewrite IH. split; intros H; [intros [E|E]; auto | auto].
Qed.

(** [normalize] returns only for a frame that has the nine quoted
    names. *)
Lemma normalize_needs_quoted_names df rows :
  normalize df = inr rows -> incl required (columns df).
Proof.
  unfold normalize, getitem_list. intros H name Hname.
  destruct (filter _ required) as [|m ms] eqn:E; [|discriminate].
  destruct (lookup_column name df) as [c|] eqn:El.
  - destruct (in_dec string_dec name (columns df)) as [Hin|Hn]; [exact Hin|].
    apply lookup_column_none in Hn. congruence.
  - exfalso. assert (Hin : In name []).
    { rewrite <- E. apply filter_In. split; [exact Hname|]. now rewrite El. }
    exact Hin.
Qed.

(** ** Columns that the frame lacks *)

Lemma getitem_list_missing names df :
  (exists name, In name names /\ ~ In name (columns df)) ->
  exists missing,
    getitem_list names df = inl (KeyError missing)
    /\ missing <> []
    /\ forall n, In n missing <-> In n names /\ ~ In n (columns df).
Proof.
  intros (name & Hin & Hn). unfold getitem_list.
  set (absent_ := fun n => match lookup_column n df with
                           | Some _ => false
                           | None => true
                           end).
  assert (Hspec : forall n, In n (filter absent_ names)
                            <-> In n names /\ ~ In n (columns df)).
  { intros n. rewrite filter_In, <- lookup_column_none. unfold absent_.
    destruct (lookup_column n df); intuition congruence. }
  destruct (filter absent_ names) as [|m ms] eqn:E.
  - exfalso. apply (proj2 (Hspec name)). auto.
  - exists (m :: ms). split; [reflexivity|]. split; [discriminate|exact Hspec].
Qed.

(** ** The store of frames *)

Import Store.

Lemma nth_error_last {A : Type} (pre : list A) (x : A) :
  nth_error (pre ++ [x]) (List.length pre) = Some x.
Proof. rewrite nth_error_app2 by lia. now rewrite Nat.sub_diag. Qed.

Lemma update_last {A : Type} (pre : list A) (x y : A) :
  update (pre ++ [x]) (List.length pre) y = pre ++ [y].
Proof. induction pre as [|a pre IH]; simpl; [reflexivity|]. now rewrite IH. Qed.

Lemma nth_error_extend {A : Type} (h fresh : list A) (l : nat) (x : A) :
  nth_error h l = Some x -> nth_error (h ++ fresh) l = Some x.
Proof.
  intros H. rewrite nth_error_app1; [exact H|].
  apply nth_error_Some. congruence.
Qed.

Lemma read_records_run s l rows :
  nth_error (heap s) l = Some (Records rows) ->
  read_records l s = (inr rows, s).
Proof. unfold read_records. now intros ->. Qed.

Lemma assign_run pre g pg line :
  assign (List.length pre) line {| heap := pre ++ [GroupedFrame g]; page := pg |}
  = match line g with
    | inl e => (inl e, {| heap := pre ++ [GroupedFrame g]; page := pg |})
    | inr g' => (inr tt, {| heap := pre ++ [GroupedFrame g']; page := pg |})
    end.
Proof.
  unfold assign, mbind, read_grouped, lift, write. simpl.
  rewrite nth_error_last. destruct (line g); [reflexivity|]. simpl.
  now rewrite update_last.
Qed.

Lemma top_loop_st_run loc sorted urls :
  forall tk tv s,
    nth_error (heap s) loc = Some (Records sorted) ->
    exists fresh,
      top_loop_st loc urls tk tv s
      = (top_loop sorted urls tk tv,
         {| heap := heap s ++ fresh; page := page s |}).
Proof.
  induction urls as [|u urls IH]; intros tk tv s Hloc.
  - exists []. simpl. unfold mret. rewrite app_nil_r. now destruct s.
  - simpl. unfold mbind at 1. rewrite (read_records_run _ _ _ Hloc).
    unfold mbind at 1, alloc at 1.
    unfold mbind at 1, read_records at 1. simpl heap.
    rewrite nth_error_last.
    set (s1 := {| heap := heap s ++ [Records (rows_of_url u sorted)];
                  page := page s |}).
    assert (Hloc1 : nth_error (heap s1) loc = Some (Records sorted))
      by now apply nth_error_extend.
    destruct (rows_of_url u sorted) as [|first rest].
    + destruct (IH tk tv s1 Hloc1) as (fresh & ->).
      eexists. simpl. now rewrite <- app_assoc.
    + unfold mbind, lift. destruct (volume first) as [|z]; simpl.
      * exists [Records (first :: rest)]. reflexivity.
      * destruct (IH (dict_set u (keyword first) tk) (dict_set u z tv) s1 Hloc1)
          as (fresh & ->).
        eexists. simpl. now rewrite <- app_assoc.
Qed.

Lemma assign_then {A : Type} pre g pg line (k : unit -> M A) :
  mbind (assign (List.length pre) line) k
    {| heap := pre ++ [GroupedFrame g]; page := pg |}
  = match line g with
    | inl e => (inl e, {| heap := pre ++ [GroupedFrame g]; page := pg |})
    | inr g' => k tt {| heap := pre ++ [GroupedFrame g']; page := pg |}
    end.
Proof.
  unfold mbind at 1. rewrite assign_run. now destruct (line g).
Qed.

Ltac failed_line :=
  do 2 eexists; split; [reflexivity|]; cbn [heap page];
  split; [auto | split; reflexivity].

Section AnyKernel.
Context {K : SortKernel}.

Lemma body_st_run s df rows :
  nth_error (heap s) df = Some (Records rows) ->
  exists r s',
    cluster_keywords_body_st df s = (r, s')
    /\ (exists fresh, heap s' = heap s ++ fresh)
    /\ page s' = page s
    /\ match r with
       | inl e => cluster_keywords_body rows = inl e
       | inr l =>
           exists t, nth_error (heap s') l = Some (Table t)
                     /\ cluster_keywords_body rows = inr t
       end.
Proof.
  intros Hdf. unfold cluster_keywords_body_st, cluster_keywords_body.
  unfold mbind at 1. rewrite (read_records_run _ _ _ Hdf).
  unfold mbind at 1, alloc at 1.
  unfold mbind at 1, read_records at 1. simpl heap. rewrite nth_error_last.
  set (sorted := sort_values volume false rows).
  set (s1 := {| heap := heap s ++ [Records sorted]; page := page s |}).
  assert (Hs1 : nth_error (heap s1) (List.length (heap s)) = Some (Records sorted))
    by apply nth_error_last.
  destruct (top_loop_st_run _ _ (unique (map url sorted)) [] [] s1 Hs1)
    as (fresh & Hloop).
  unfold mbind at 1. rewrite Hloop.
  destruct (top_loop sorted (unique (map url sorted)) [] []) as [e|tops].
  - do 2 eexists. split; [reflexivity|]. simpl.
    split; [|split; reflexivity].
    exists ([Records sorted] ++ fresh). now rewrite <- app_assoc.
  - cbn [bind].
    unfold mbind at 1, alloc at 1. cbn [heap page s1].
    set (pre := (heap s ++ [Records sorted]) ++ fresh).
    assert (Hpre : pre = heap s ++ ([Records sorted] ++ fresh))
      by (unfold pre; now rewrite <- app_assoc).
    assert (Hext : forall g, exists fresh0,
               pre ++ [GroupedFrame g] = heap s ++ fresh0).
    { intros g. exists (([Records sorted] ++ fresh) ++ [GroupedFrame g]).
      rewrite Hpre. now rewrite <- !app_assoc. }
    clearbody pre. clear Hloop Hs1. clearbody sorted.
    rewrite assign_then. cbn [bind ret line_81].
    rewrite assign_then.
    match goal with |- context [line_82 ?g] => destruct (line_82 g) as [e|g2] end;
      cbn [bind ret]; [failed_line|].
    rewrite assign_then.
    destruct (line_83 g2) as [e|g3]; cbn [bind ret]; [failed_line|].
    rewrite assign_then. cbn [bind ret line_86].
    rewrite assign_then. cbn [bind ret line_87].
    rewrite assign_then. cbn [bind ret line_90].
    rewrite assign_then. cbn [bind ret line_91].
    rewrite assign_then.
    match goal with |- context [line_92 ?g] => destruct (line_92 g) as [e|g8] end;
      cbn [bind ret]; [failed_line|].
    unfold mbind at 1, read_grouped at 1. cbn [heap]. rewrite nth_error_last.
    unfold mbind at 1, lift at 1.
    destruct (select_columns g8) as [e|selected]; cbn [bind ret]; [failed_line|].
    unfold mbind, alloc, read_table. cbn [heap page]. rewrite nth_error_last.
    do 2 eexists. split; [reflexivity|]. cbn [heap page].
    split; [|split; [reflexivity|]].
    + destruct (Hext g8) as (fresh0 & ->).
      eexists. rewrite <- !app_assoc. reflexivity.
    + eexists. split; [apply nth_error_last|reflexivity].
Qed.
End AnyKernel.

(** ** The body of [cluster_keywords] on float volumes *)

Module FloatFacts.
Import SortFacts AggFacts ClusterFacts.
Import FloatFrame.

Lemma float_group_keys_In k rows :
  In k (group_keys rows)
  <-> exists r, In r rows /\ url r = k /\ cell_isna k = false.
Proof.
  unfold group_keys. split.
  - intros H. apply (Permutation_in _ (sort_keys_perm _)) in H.
    apply unique_In, filter_In in H. destruct H as [H Hna].
    apply in_map_iff in H. destruct H as (r & Hr & Hin).
    exists r. repeat split; auto. now destruct (cell_isna k).
  - intros (r & Hin & Hr & Hna).
    apply (Permutation_in _ (Permutation_sym (sort_keys_perm _))).
    apply unique_In, filter_In. split.
    + subst. now apply in_map.
    + now rewrite Hna.
Qed.

Lemma float_group_keys_NoDup rows : NoDup (group_keys rows).
Proof.
  unfold group_keys.
  apply (Permutation_NoDup (Permutation_sym (sort_keys_perm _))).
  apply unique_NoDup.
Qed.

Lemma float_group_not_empty k rows :
  In k (group_keys rows) -> rows_of_url k rows <> [].
Proof.
  intros H. apply float_group_keys_In in H.
  destruct H as (r & Hin & Hr & Hna).
  assert (Hr' : In r (rows_of_url k rows)).
  { apply filter_In. split; [exact Hin|].
    apply cell_eqb_true. subst. auto. }
  intros E. now rewrite E in Hr'.
Qed.

Lemma py_int_finite x z :
  Float64.py_int x = inr z ->
  Float64.is_finite x = true /\ z = int_part x.
Proof. destruct x; simpl; intros H; try discriminate. now injection H as <-. Qed.

Lemma py_int_raises x e :
  Float64.py_int x = inl e ->
  Float64.is_finite x = false
  /\ (e = nan_to_integer \/ e = Float64.inf_to_integer).
Proof.
  destruct x; simpl; intros H; try discriminate; injection H as <-; auto.
Qed.

Lemma float_top_loop_entries df urls :
  forall tk tv tk' tv',
    top_loop df urls tk tv = inr (tk', tv') ->
    forall u first rest,
      rows_of_url u df = first :: rest ->
      In u urls \/ float_entry tk tv u first ->
      float_entry tk' tv' u first.
Proof.
  induction urls as [|u0 urls IH]; simpl;
    intros tk tv tk' tv' Hrun u first rest Hu Hin.
  - injection Hrun as <- <-. destruct Hin as [[]|H]. exact H.
  - destruct (rows_of_url u0 df) as [|first0 rest0] eqn:E0.
    + apply (IH _ _ _ _ Hrun u first rest Hu).
      destruct Hin as [[->|Hin]|Hin]; auto. congruence.
    + destruct (Float64.py_int (volume first0)) as [e0|z0] eqn:Ev;
        simpl in Hrun; [discriminate|].
      apply (IH _ _ _ _ Hrun u first rest Hu).
      destruct (cell_eq_dec u u0) as [->|Hne].
      * right. rewrite E0 in Hu. injection Hu as -> ->.
        exists z0. now rewrite !dict_get_set_same.
      * destruct Hin as [[->|Hin]|(z & Hz & Hv & Hk)]; auto; [congruence|].
        right. exists z. now rewrite !dict_get_set_other.
Qed.

Lemma float_top_loop_raises df urls :
  forall tk tv e, top_loop df urls tk tv = inl e ->
  exists r, In r df /\ Float64.py_int (volume r) = inl e
            /\ cell_isna (url r) = false.
Proof.
  induction urls as [|u0 urls IH]; simpl; intros tk tv e Hrun; [discriminate|].
  destruct (rows_of_url u0 df) as [|first0 rest0] eqn:E0;
    [now apply IH in Hrun|].
  destruct (Float64.py_int (volume first0)) as [e0|z0] eqn:Ev; simpl in Hrun.
  - injection Hrun as <-. exists first0.
    assert (H : In first0 (rows_of_url u0 df)) by (rewrite E0; now left).
    apply filter_In in H. destruct H as [Hin Heq].
    apply cell_eqb_true in Heq. tauto.
  - now apply IH in Hrun.
Qed.

Lemma float_volume_lines_inr vs t :
  apply_ (fun v => z <- Float64.py_int v ;; ret (str_int z)) vs = inr t ->
  Forall (fun v => Float64.is_finite v = true) vs
  /\ t = map (fun v => str_int (int_part v)) vs.
Proof.
  revert t. induction vs as [|v vs IH]; simpl; intros t H.
  - injection H as <-. auto.
  - destruct (Float64.py_int v) as [e|z] eqn:Ev; simpl in H; [discriminate|].
    destruct (apply_ _ vs) as [e|t'] eqn:E; simpl in H; [discriminate|].
    injection H as <-. destruct (IH t' eq_refl) as [Hall ->].
    apply py_int_finite in Ev. destruct Ev as [Hf ->]. auto.
Qed.

Lemma float_volume_lines_inl vs e :
  apply_ (fun v => z <- Float64.py_int v ;; ret (str_int z)) vs = inl e ->
  exists v, In v vs /\ Float64.py_int v = inl e.
Proof.
  induction vs as [|v vs IH]; simpl; intros H; [discriminate|].
  destruct (Float64.py_int v) as [e0|z] eqn:Ev; simpl in H.
  - injection H as <-. exists v. auto.
  - destruct (apply_ _ vs) as [e'|t'] eqn:E; simpl in H; [|discriminate].
    injection H as <-. destruct (IH eq_refl) as (v' & Hv' & He).
    exists v'. auto.
Qed.

Lemma float_join_volumes_inr vs y :
  join_volumes (AsList vs) = inr y ->
  Forall (fun v => Float64.is_finite v = true) vs
  /\ y = AsText (join_lines (map (fun v => str_int (int_part v)) vs)).
Proof.
  simpl. destruct (apply_ _ vs) as [e|t] eqn:E; simpl; intros H;
    [discriminate|].
  injection H as <-. apply float_volume_lines_inr in E.
  destruct E as [Hall ->]. auto.
Qed.

Lemma float_join_volumes_inl vs e :
  join_volumes (AsList vs) = inl e ->
  exists v, In v vs /\ Float64.py_int v = inl e.
Proof.
  simpl. destruct (apply_ _ vs) as [e'|t] eqn:E; simpl; intros H;
    [|discriminate].
  injection H as <-. now apply float_volume_lines_inl.
Qed.

Lemma apply_raises_some {A B : Type} (f : A -> result B) col x e :
  In x col -> f x = inl e -> exists e', apply_ f col = inl e'.
Proof.
  induction col as [|a col IH]; intros Hx Hf; [destruct Hx|].
  cbn [apply_]. destruct (f a) as [e0|b] eqn:Ea; cbn [bind].
  - now exists e0.
  - destruct Hx as [->|Hx]; [congruence|].
    destruct (IH Hx Hf) as (e' & ->). now exists e'.
Qed.

Lemma float_zip_rows_map (l : list cell) f2 f3 f4 f5 f6 f7 f8 f9 :
  zip_rows l (map f2 l) (map f3 l) (map f4 l) (map f5 l) (map f6 l)
    (map f7 l) (map f8 l) (map f9 l)
  = map (fun x => {| g_url := x; top_keyword := f2 x;
                     top_keyword_volume := f3 x; avg_position := f4 x;
                     keyword_count := f5 x; total_volume := f6 x;
                     g_keyword := f7 x; g_volume := f8 x;
                     g_position := f9 x |}) l.
Proof.
  induction l as [|x l IH]; simpl; [reflexivity|]. now rewrite IH.
Qed.

(** What lines 65 to 105 give on a frame: an exception of [int] on the
    volume of a row that has a url, or the rows of the groups. *)
Lemma float_table_cases sorted :
  match table_of sorted with
  | inl e =>
      exists r, In r sorted /\ Float64.py_int (volume r) = inl e
                /\ cell_isna (url r) = false
  | inr t =>
      exists tops,
        top_loop sorted (unique (map url sorted)) [] [] = inr tops
        /\ (forall k, In k (group_keys sorted) ->
            Forall (fun v => Float64.is_finite v = true)
              (map volume (rows_of_url k sorted)))
        /\ t = map (float_row_of sorted tops) (group_keys sorted)
  end.
Proof.
  unfold table_of.
  destruct (top_loop sorted _ [] []) as [e|tops] eqn:Ht; simpl.
  - eapply float_top_loop_raises, Ht.
  - unfold line_81, line_82, line_83, line_86, line_87, line_90, line_91,
      line_92.
    cbn [bind ret].
    cbn [c_volume c_position c_keyword c_url groupby_agg].
    rewrite apply_map.
    rewrite (apply_returns _
               (fun k => Float64.py_sum (map volume (rows_of_url k sorted))))
      by reflexivity.
    cbn [bind ret c_volume c_position c_keyword c_url groupby_agg].
    rewrite apply_map.
    rewrite (apply_returns _
      (fun k => match py_sum (map position (rows_of_url k sorted)) with
                | NaN => RoundNaN
                | Num t => Round1 t (List.length (rows_of_url k sorted))
                end)).
    2:{ intros k Hk. rewrite mean_rounded_list.
        - now rewrite length_map.
        - intros E. apply map_eq_nil in E. revert E.
          now apply float_group_not_empty. }
    cbn [bind ret c_volume c_position c_keyword c_url groupby_agg].
    rewrite apply_map.
    destruct (apply_ _ (group_keys sorted)) as [e|col] eqn:Hcol; cbn [bind ret].
    + apply apply_inl in Hcol. destruct Hcol as (k & Hk & Hjoin).
      apply float_join_volumes_inl in Hjoin.
      destruct Hjoin as (v & Hv & He).
      apply in_map_iff in Hv. destruct Hv as (r & Hv & Hr).
      apply filter_In in Hr. destruct Hr as [Hin Heq].
      apply cell_eqb_true in Heq. exists r. subst v. tauto.
    + pose proof (apply_inr _ _ _ Hcol) as Hall.
      apply forall2_map_eq with
        (g := fun k => AsText (join_lines
                 (map (fun v => str_int (int_part v))
                    (map volume (rows_of_url k sorted)))))
        in Hall.
      2:{ intros k y _ Hy. now apply float_join_volumes_inr in Hy. }
      unfold select_columns, map_dict_cells, map_dict_ints.
      cbn [c_volume c_position c_keyword c_url c_top_keyword
             c_top_keyword_volume c_avg_position c_keyword_count
             c_total_volume groupby_agg].
      rewrite Hall, !map_map.
      rewrite float_zip_rows_map. cbn [bind ret].
      exists tops. split; [reflexivity|]. split.
      * intros k Hk.
        destruct (join_volumes (AsList (map volume (rows_of_url k sorted))))
          as [e|y] eqn:Ey.
        -- exfalso.
           destruct (apply_raises_some
                       (fun x => join_volumes
                                   (AsList (map volume (rows_of_url x sorted))))
                       (group_keys sorted) k e Hk Ey) as (e' & He').
           congruence.
        -- now apply float_join_volumes_inr in Ey.
      * apply map_ext. intros k. unfold float_row_of.
        cbn [len_ join_keywords join_positions].
        now rewrite length_map.
Qed.

Section AnyKernel.
Context {K : SortKernel}.

Lemma float_body_cases df :
  let sorted := float_sorted df in
  match cluster_keywords_body df with
  | inl e =>
      exists r, In r sorted /\ Float64.py_int (volume r) = inl e
                /\ cell_isna (url r) = false
  | inr gs =>
      exists tops,
        top_loop sorted (unique (map url sorted)) [] [] = inr tops
        /\ (forall k, In k (group_keys sorted) ->
            Forall (fun v => Float64.is_finite v = true)
              (map volume (rows_of_url k sorted)))
        /\ gs = sort_values top_keyword_volume true
                  (map (float_row_of sorted tops) (group_keys sorted))
  end.
Proof.
  intros sorted. unfold cluster_keywords_body. fold (float_sorted df).
  fold sorted. pose proof (float_table_cases sorted) as H.
  destruct (table_of sorted) as [e|t]; cbn [bind ret]; [exact H|].
  destruct H as (tops & Ht & Hall & ->). now exists tops.
Qed.

End AnyKernel.

(** The first row of a group and what the loop stored for it. *)
Lemma float_first_row sorted tops k :
  top_loop sorted (unique (map url sorted)) [] [] = inr tops ->
  In k (group_keys sorted) ->
  exists first rest,
    rows_of_url k sorted = first :: rest
    /\ In first sorted /\ url first = k
    /\ float_entry (fst tops) (snd tops) k first.
Proof.
  intros Htops Hk.
  destruct (rows_of_url k sorted) as [|first rest] eqn:Erows.
  { exfalso. now apply (float_group_not_empty k sorted). }
  exists first, rest. split; [reflexivity|].
  assert (Hin : In first (rows_of_url k sorted)) by (rewrite Erows; now left).
  apply filter_In in Hin. destruct Hin as [Hin Hu].
  apply cell_eqb_true in Hu. destruct Hu as [Hu _].
  split; [exact Hin|]. split; [exact Hu|].
  destruct tops as [tk tv].
  apply (float_top_loop_entries _ _ _ _ _ _ Htops k first rest Erows). left.
  apply unique_In. apply float_group_keys_In in Hk.
  destruct Hk as (r & Hr & <- & _). now apply in_map.
Qed.

Lemma integers_of_ints zs :
  Float64.integers (map Float64.of_int zs) = Some zs.
Proof.
  induction zs as [|z zs IH]; [reflexivity|].
  cbn [map Float64.of_int Float64.integers].
  assert (Hu : Float64.unit <> 0)
    by (unfold Float64.unit; apply Z.pow_nonzero; lia).
  rewrite Z.mod_mul by exact Hu. cbn [Z.eqb].
  rewrite Z.div_mul by exact Hu. now rewrite IH.
Qed.

Section AnyKernel.
Context {K : SortKernel}.

Lemma float_cluster_some df shown gs :
  cluster_keywords df = (shown, Some gs)
  <-> cluster_keywords_body df = inr gs /\ shown = [].
Proof.
  unfold cluster_keywords. destruct (cluster_keywords_body df); split.
  - discriminate.
  - intros [H _]. discriminate.
  - intros [= <- <-]. auto.
  - intros [[= <-] ->]. reflexivity.
Qed.

Lemma float_cluster_none df shown :
  cluster_keywords df = (shown, None)
  <-> exists e, cluster_keywords_body df = inl e
                /\ shown = clustering_error e.
Proof.
  unfold cluster_keywords. destruct (cluster_keywords_body df) as [e|gs]; split.
  - intros [= <-]. now exists e.
  - intros (e' & [= <-] & ->). reflexivity.
  - discriminate.
  - intros (e' & H & _). discriminate.
Qed.

Lemma float_sorted_perm df : Permutation (float_sorted df) df.
Proof. apply sort_values_perm. Qed.

Lemma float_group_rows_perm k df :
  Permutation (rows_of_url k (float_sorted df)) (rows_of_url k df).
Proof. unfold rows_of_url. apply filter_perm, sort_values_perm. Qed.

Lemma finite_keys (vs : list Float64.t) (zs : list Z) :
  Forall (fun v => Float64.is_finite v = true) vs ->
  map Float64.sort_key vs = map Num zs ->
  vs = map Float64.finite zs.
Proof.
  revert zs. induction vs as [|v vs IH]; intros [|z zs] Hall H;
    try discriminate; [reflexivity|].
  inversion Hall as [|? ? Hv Hvs]; subst. simpl in H.
  injection H as Hk Hks. destruct v; try discriminate.
  simpl in Hk. injection Hk as ->. simpl. f_equal. now apply IH.
Qed.

(** The volumes of a group whose volumes are all finite descend. *)
Lemma float_group_volumes_descend df k :
  Forall (fun v => Float64.is_finite v = true)
    (map volume (rows_of_url k (float_sorted df))) ->
  exists us,
    map volume (rows_of_url k (float_sorted df)) = map Float64.finite us
    /\ StronglySorted Z.ge us.
Proof.
  intros Hall. unfold float_sorted in *.
  destruct (sort_values_shape (fun r => Float64.sort_key (volume r)) false df)
    as (front & zs & Hs & Hf & Hz).
  rewrite Hs in *. unfold rows_of_url in *. rewrite filter_app in *.
  rewrite map_app in *. apply Forall_app in Hall.
  destruct Hall as [Hfront Hnan].
  assert (Hnil : filter (fun r => cell_eqb (url r) k)
                   (filter (fun r => isna (Float64.sort_key (volume r))) df)
                 = []).
  { destruct (filter _ (filter _ df)) as [|r l] eqn:E; [reflexivity|].
    exfalso. assert (Hr : In r (r :: l)) by now left.
    rewrite <- E in Hr. apply filter_In in Hr. destruct Hr as [Hr _].
    apply filter_In in Hr. destruct Hr as [_ Hr].
    simpl in Hnan. inversion Hnan as [|? ? Hfin _]; subst.
    destruct (volume r) as [|[|]|u]; discriminate. }
  rewrite Hnil. simpl. rewrite app_nil_r.
  apply Sorted_StronglySorted in Hz; [|exact ge_trans].
  destruct (filter_sorted_keys (fun r => Float64.sort_key (volume r))
              (fun r => cell_eqb (url r) k) front zs Hf Hz)
    as (vs & Hvs & Hsv & _).
  exists vs. split; [|exact Hsv].
  apply finite_keys; [exact Hfront|]. now rewrite map_map.
Qed.

(** The groups of the table, before the last sort. *)
Lemma float_table_rows df gs :
  cluster_keywords df = ([], Some gs) ->
  let sorted := float_sorted df in
  exists tops,
    top_loop sorted (unique (map url sorted)) [] [] = inr tops
    /\ (forall k, In k (group_keys sorted) ->
                  Forall (fun v => Float64.is_finite v = true)
                    (map volume (rows_of_url k sorted)))
    /\ gs = sort_values top_keyword_volume true
              (map (float_row_of sorted tops) (group_keys sorted))
    /\ Permutation gs (map (float_row_of sorted tops) (group_keys sorted)).
Proof.
  intros H sorted. apply float_cluster_some in H. destruct H as [H _].
  pose proof (float_body_cases df) as Hb. rewrite H in Hb.
  destruct Hb as (tops & Ht & Hall & ->). exists tops.
  repeat split; auto. apply sort_values_perm.
Qed.

(** The row of a returned table, the rows of its group in the sorted
    frame and what the loop stored for its url. *)
Lemma float_group_of_table df gs g :
  cluster_keywords df = ([], Some gs) -> In g gs ->
  let sorted := float_sorted df in
  exists tops first rest u us,
    g = float_row_of sorted tops (g_url g)
    /\ In (g_url g) (group_keys sorted)
    /\ rows_of_url (g_url g) sorted = first :: rest
    /\ map volume (first :: rest) = map Float64.finite (u :: us)
    /\ StronglySorted Z.ge (u :: us)
    /\ float_entry (fst tops) (snd tops) (g_url g) first.
Proof.
  intros E Hg sorted.
  destruct (float_table_rows df gs E) as (tops & Htops & Hall & _ & Hperm).
  fold sorted in Htops, Hall, Hperm.
  apply (Permutation_in _ Hperm) in Hg.
  apply in_map_iff in Hg. destruct Hg as (k & <- & Hk).
  change (g_url (float_row_of sorted tops k)) with k.
  specialize (Hall k Hk).
  destruct (float_group_volumes_descend df k Hall) as (us & Hus & Hsorted).
  fold sorted in Hus.
  destruct (rows_of_url k sorted) as [|first rest] eqn:Erows.
  { exfalso. now apply (float_group_not_empty k sorted). }
  destruct us as [|u us]; [discriminate|].
  exists tops, first, rest, u, us. split; [reflexivity|]. split; [exact Hk|].
  split; [reflexivity|]. split; [exact Hus|]. split; [exact Hsorted|].
  destruct tops as [tk tv].
  apply (float_top_loop_entries _ _ _ _ _ _ Htops k first rest Erows). left.
  apply unique_In. apply float_group_keys_In in Hk.
  destruct Hk as (r & Hr & <- & _). now apply in_map.
Qed.

End AnyKernel.

(** ** Exact sums of integral volumes *)

Lemma unit_positive : 0 < Float64.unit.
Proof. unfold Float64.unit. now apply Z.pow_pos_nonneg. Qed.

Lemma quot_unit z : Z.quot (z * Float64.unit) Float64.unit = z.
Proof. apply Z.quot_mul. pose proof unit_positive. lia. Qed.

(** An integer below 2^53 in magnitude is a double. *)
Lemma representable_int z :
  Z.abs z < 2 ^ 53 -> Float64.representable (z * Float64.unit) = true.
Proof.
  intros Hz. unfold Float64.representable. cbv zeta.
  rewrite Z.abs_mul, (Z.abs_eq Float64.unit)
    by (pose proof unit_positive; lia).
  apply andb_true_iff. split.
  - apply Z.eqb_eq. destruct (Z.eq_dec (Z.abs z) 0) as [E|E].
    + rewrite E. reflexivity.
    + assert (Hpos : 0 < Z.abs z) by lia.
      unfold Float64.unit. rewrite Z.log2_mul_pow2 by lia.
      assert (Hlog : Z.log2 (Z.abs z) < 53)
        by (apply Z.log2_lt_pow2; lia).
      pose proof (Z.log2_nonneg (Z.abs z)) as Hnn.
      set (s := Z.max 0 (1074 + Z.log2 (Z.abs z) - 52)).
      assert (Hs : 0 <= s <= 1074) by (unfold s; lia).
      replace 1074 with ((1074 - s) + s) at 1 by lia.
      rewrite Z.pow_add_r by lia. rewrite Z.mul_assoc.
      apply Z.mod_mul. apply Z.pow_nonzero; lia.
  - apply Z.ltb_lt. unfold Float64.unit.
    apply Z.lt_trans with (2 ^ 53 * 2 ^ 1074).
    + apply Z.mul_lt_mono_pos_r; [now apply Z.pow_pos_nonneg | exact Hz].
    + rewrite <- Z.pow_add_r by lia. apply Z.pow_lt_mono_r; lia.
Qed.

Lemma sum_abs_nonneg zs : 0 <= fold_right Z.add 0 (map Z.abs zs).
Proof. induction zs as [|z zs IH]; simpl; lia. Qed.

Lemma exact_sum_ints zs : forall a,
  Z.abs a + fold_right Z.add 0 (map Z.abs zs) < 2 ^ 53 ->
  Float64.exact_sum (a * Float64.unit) (map Float64.of_int zs)
  = Some ((a + fold_right Z.add 0 zs) * Float64.unit).
Proof.
  induction zs as [|z zs IH]; intros a Ha.
  - simpl. now rewrite Z.add_0_r.
  - cbn [map Float64.of_int Float64.exact_sum fold_right] in *.
    pose proof (sum_abs_nonneg zs).
    rewrite <- Z.mul_add_distr_r.
    rewrite representable_int by lia.
    rewrite IH by lia. f_equal. ring.
Qed.

(** The builtin [sum] of integral floats whose magnitudes add up to
    less than 2^53 is their exact sum. *)
(** When every addition is exact, [exact_sum] is the sum of the
    units. *)
Lemma exact_sum_value us : forall acc s,
  Float64.exact_sum acc (map Float64.finite us) = Some s ->
  s = acc + fold_right Z.add 0 us.
Proof.
  induction us as [|u us IH]; intros acc s H; cbn [map Float64.exact_sum] in H.
  - injection H as <-. simpl. lia.
  - destruct (Float64.representable (acc + u)); [|discriminate].
    apply IH in H. cbn [fold_right]. lia.
Qed.

Lemma py_sum_ints zs :
  fold_right Z.add 0 (map Z.abs zs) < 2 ^ 53 ->
  Float64.py_sum (map Float64.of_int zs)
  = Float64.Value (Float64.of_int (fold_right Z.add 0 zs)).
Proof.
  intros H. unfold Float64.py_sum.
  change 0 with (0 * Float64.unit) at 1.
  rewrite exact_sum_ints by (simpl; lia). reflexivity.
Qed.

End FloatFacts.


Import FloatFacts.

(** * The statements C1 to C10 *)

(** ** C1: a record whose volume did not parse *)

(** C1 (the program departs from the statement).  The text n/a
    becomes NaN, as the specification says.  The claim then wants the
    group of the url to exist, with the NaN left out of [total_volume]
    and the row counted in [keyword_count].  The program does neither:
    [sum] of the volumes of the group is NaN, [int] of the NaN raises
    on line 92, and [cluster_keywords] shows the error and returns
    [None], with every kernel. *)
Theorem C1_null_volume_stops_aggregation :
  normalized_volume (Normalizer.q "n/a") = NaN
  /\ normalized_volume (Normalizer.q "1,234") = Num 1234
  /\ py_sum (map volume scenario_B) = NaN
  /\ forall K : SortKernel,
       @cluster_keywords K scenario_B
       = (clustering_error (ValueError "cannot convert float NaN to integer"),
          None).
Proof.
  split; [reflexivity|]. split; [reflexivity|]. split; [reflexivity|].
  intros K. apply null_volume_aborts.
  exists (row "sandals" NaN 7 "/a"). split; [|split; reflexivity].
  right. now left.
Qed.

(** ** C2: the order of the table *)

(** C2 fails as stated, with every kernel: [groupby] arranges the
    groups by url, so the two groups of [tie_rows], whose top volumes
    are equal, do not come out in the order in which their urls were
    met. *)
Lemma C2_ties_not_in_order_of_encounter :
  ~ (exists K : SortKernel, @ordered_as_C2_states K tie_rows).
Proof.
  intros (K & H).
  assert (Hrun : exists g h,
             cluster_keywords tie_rows = ([], Some [g; h])
             /\ top_keyword_volume g = top_keyword_volume h
             /\ (index_of (g_url h) (first_encountered tie_rows)
                 <= index_of (g_url g) (first_encountered tie_rows))%nat).
  { unfold cluster_keywords, cluster_keywords_body, first_encountered,
      sort_values, nargsort.
    destruct (argsort_of_two K 10 10) as [E|E];
      cbn; rewrite E; cbn; rewrite E; cbn;
      do 2 eexists; (split; [reflexivity|]); split; try reflexivity;
      cbn; lia. }
  destruct Hrun as (g & h & Hrun & Htop & Hle).
  destruct (H [g; h] Hrun) as [_ Hties].
  specialize (Hties 0%nat 1%nat g h (Nat.lt_0_1) eq_refl eq_refl Htop). lia.
Qed.

(** C2, amended.  A table that [cluster_keywords] returns ascends in
    [top_keyword_volume].  It is the groups in ascending order of url,
    as [groupby] arranges them, sorted by [top_keyword_volume] alone
    with the kernel; the order of two groups of equal
    [top_keyword_volume] is not fixed, and need not be the order in
    which their urls were met. *)
Theorem C2_table_ascends_in_top_volume :
  forall (K : SortKernel) (df : list KeywordRecord) (gs : list UrlGroup),
    @cluster_keywords K df = ([], Some gs) ->
    ascending_top_volume gs
    /\ exists by_url,
         gs = sort_values top_keyword_volume true by_url
         /\ Permutation gs by_url
         /\ map g_url by_url = group_keys (sort_values volume false df)
         /\ Sorted cell_le (map g_url by_url).
Proof.
  intros K df gs E.
  destruct (table_rows df gs E) as (tops & Htops & _ & Hgs & Hperm).
  set (sorted := sort_values volume false df) in *.
  set (by_url := map (row_of sorted tops) (group_keys sorted)) in *.
  assert (Hurls : map g_url by_url = group_keys sorted).
  { unfold by_url. rewrite map_map. simpl. apply map_id. }
  split.
  - destruct (sort_values_keys top_keyword_volume true by_url)
      as (zs & Hkeys & Hs & _).
    exists zs. split; [|exact Hs]. rewrite Hgs, Hkeys.
    rewrite filter_none; [apply app_nil_r|].
    apply Forall_forall. intros v Hv. unfold by_url in Hv.
    rewrite map_map in Hv. apply in_map_iff in Hv.
    destruct Hv as (k & <- & Hk). simpl.
    destruct (rows_of_url k sorted) as [|first rest] eqn:Erows.
    { exfalso. now apply (group_not_empty k sorted). }
    destruct tops as [tk tv].
    assert (Hentry : entry tk tv k first).
    { apply (top_loop_entries _ _ _ _ _ _ Htops k first rest Erows). left.
      apply unique_In. apply group_keys_In in Hk.
      destruct Hk as (r & Hr & <- & _). now apply in_map. }
    destruct Hentry as (z & _ & Hget & _). simpl. now rewrite Hget.
  - exists by_url. repeat split; auto.
    rewrite Hurls. apply sort_keys_sorted.
Qed.

(** C2 amended, at scenario A with the stable kernel: the group of /a,
    whose top volume is 1000, before the group of /b, whose top volume
    is 2000. *)
Lemma C2_scenario_A_witness :
  @cluster_keywords Kernels.stable_kernel scenario_A
  = ([], Some [group_a; group_b])
  /\ ascending_top_volume [group_a; group_b]
  /\ exists by_url,
       [group_a; group_b]
       = @sort_values Kernels.stable_kernel _ top_keyword_volume true by_url
       /\ Permutation [group_a; group_b] by_url
       /\ map g_url by_url
          = group_keys (@sort_values Kernels.stable_kernel _ volume false
                          scenario_A)
       /\ Sorted cell_le (map g_url by_url).
Proof.
  split; [reflexivity|].
  apply (C2_table_ascends_in_top_volume Kernels.stable_kernel scenario_A
           [group_a; group_b]).
  reflexivity.
Defined.

(** ** C3: the first sort *)

(** With [kind='stable'] the sort of line 62 is what C3 states. *)
Lemma stable_kind_keeps_input_order (df : list KeywordRecord) :
  @sorted_as_C3_states Kernels.stable_kernel df.
Proof.
  unfold sorted_as_C3_states.
  split; [apply sort_values_perm|]. split.
  - destruct (@sort_values_keys Kernels.stable_kernel _ volume false df)
      as (zs & Hk & Hs & _).
    exists zs, (List.length (filter isna (map volume df))).
    split; [|exact Hs]. now rewrite Hk, <- filter_isna_repeat.
  - intros v. unfold sort_values, nargsort.
    rewrite take_app, (take_filter_seq_by NaN volume isna), filter_app.
    set (items := map volume df).
    set (nni := filter (fun i => notna (nth i items NaN))
                  (seq 0 (List.length items))).
    set (with_volume := filter (fun r => notna (volume r)) df).
    set (c := rev with_volume).
    assert (Hrange : Forall (fun i => (i < List.length df)%nat) (rev nni)).
    { apply Forall_rev. unfold nni, items. rewrite length_map.
      apply seq_in_range. }
    assert (Hc : take df (rev nni) = c).
    { rewrite take_rev. unfold nni, items, c, with_volume.
      now rewrite (take_filter_seq_by NaN volume notna). }
    assert (Hnn : rev (non_nan_values items)
                  = map (fun r => value_or_zero (volume r)) c).
    { unfold items, c, with_volume.
      now rewrite non_nan_values_filter, map_rev. }
    assert (Hin : forall r, In r c -> notna (volume r) = true).
    { intros r Hr. unfold c in Hr. apply in_rev in Hr.
      apply filter_In in Hr. tauto. }
    rewrite Hnn, take_rev, take_take, Hc, filter_rev.
    2: exact Hrange.
    2:{ pose proof (@argsort_in_range Kernels.stable_kernel
                      (map (fun r => value_or_zero (volume r)) c)) as H.
        rewrite length_map in H.
        rewrite <- (take_length df (rev nni) Hrange), Hc. exact H. }
    rewrite <- (same_volume_split v df). f_equal. fold with_volume.
    destruct v as [|z].
    + rewrite !filter_none; [reflexivity| |].
      * apply Forall_forall. intros r Hr. apply filter_In in Hr.
        rewrite same_volume_nan. unfold notna in Hr.
        now destruct (isna (volume r)).
      * apply Forall_forall. intros r Hr. apply take_in, Hin in Hr.
        rewrite same_volume_nan. unfold notna in Hr.
        now destruct (isna (volume r)).
    + rewrite (filter_ext_in _ (fun r => value_or_zero (volume r) =? z)).
      2:{ intros r Hr. apply same_volume_number, Hin. eapply take_in, Hr. }
      rewrite stable_take. unfold c. rewrite filter_rev, rev_involutive.
      apply filter_ext_in. intros r Hr. symmetry. apply same_volume_number.
      apply filter_In in Hr. tauto.
Qed.

(** With the model of numpy's quicksort the sort of line 62 moves
    sixteen of the rows of [eighteen_rows]. *)
Example quicksort_on_eighteen_rows :
  map keyword (@sort_values Kernels.quicksort_kernel _ volume false
                 eighteen_rows)
  = map Str ["1"; "2"; "17"; "16"; "15"; "14"; "13"; "12"; "11"; "10";
             "9"; "8"; "7"; "6"; "5"; "4"; "3"; "18"]%string.
Proof. vm_compute. reflexivity. Qed.

(** C3 fails as stated: line 62 passes no [kind], and a kernel that
    sorts, as [kind='quicksort'] does, need not keep records of equal
    volume in their input order.  What holds of every kernel does not
    keep the two records of [tie_rows] in place, and the model of
    numpy's quicksort does not keep the eighteen of [eighteen_rows] in
    place. *)
Lemma C3_equal_volumes_may_change_places :
  ~ (forall K : SortKernel, @sorted_as_C3_states K tie_rows)
  /\ ~ @sorted_as_C3_states Kernels.quicksort_kernel eighteen_rows.
Proof.
  split.
  - intros H. destruct (H Kernels.reversing_kernel) as (_ & _ & Hstable).
    specialize (Hstable (Num 10)). vm_compute in Hstable. discriminate.
  - intros (_ & _ & Hstable).
    specialize (Hstable (Num 10)). vm_compute in Hstable. discriminate.
Qed.

(** C3, amended.  With every kernel the sort of line 62 permutes the
    records, puts first the records that have a volume, in descending
    order of volume, and after them the records with a null volume, in
    their input order.  The order of two records of equal volume is not
    fixed. *)
Theorem C3_sorted_descending_nulls_last :
  forall (K : SortKernel) (df : list KeywordRecord),
    let sorted := @sort_values K _ volume false df in
    Permutation sorted df
    /\ exists front zs,
         sorted = front ++ filter (fun r => isna (volume r)) df
         /\ map volume front = map Num zs
         /\ Sorted Z.ge zs.
Proof.
  intros K df sorted. split; [apply sort_values_perm|].
  destruct (sort_values_shape volume false df) as (front & zs & H).
  now exists front, zs.
Qed.

(** ** C4: the total and the top volume of a group *)

(** C4 (corrected).  On a float volume column, for every group of a
    returned table: the volumes of the group are finite and descend,
    none exceeding the first; [total_volume] is the builtin [sum] of
    these volumes, their sum itself when every addition is exact;
    [top_keyword_volume] is the integer part of the first, the
    largest, of them; and the volume text lists their integer parts.
    When the volumes are integers, the top volume is the largest volume
    itself, the text lists the volumes, and, their magnitudes adding up
    to less than 2^53, the total is their sum.  For every sorting
    kernel. *)
Theorem C4_total_is_sum_and_top_is_integer_part_of_max :
  forall (K : SortKernel) (df : list FloatFrame.KeywordRecord)
         (gs : list FloatFrame.UrlGroup) (g : FloatFrame.UrlGroup),
    @FloatFrame.cluster_keywords K df = ([], Some gs) ->
    In g gs ->
    exists u us,
      map FloatFrame.volume
        (FloatFrame.rows_of_url (FloatFrame.g_url g) (float_sorted df))
      = map Float64.finite (u :: us)
      /\ Permutation (map Float64.finite (u :: us))
           (map FloatFrame.volume
              (FloatFrame.rows_of_url (FloatFrame.g_url g) df))
      /\ Sorted Z.ge (u :: us)
      /\ Forall (fun x => x <= u) (u :: us)
      /\ FloatFrame.total_volume g
         = Float64.py_sum (map Float64.finite (u :: us))
      /\ (forall s,
            Float64.exact_sum 0 (map Float64.finite (u :: us)) = Some s ->
            FloatFrame.total_volume g
            = Float64.Value (Float64.finite (fold_right Z.add 0 (u :: us))))
      /\ FloatFrame.top_keyword_volume g = Num (Z.quot u Float64.unit)
      /\ FloatFrame.g_volume g
         = AsText (join_lines
                     (map (fun x => str_int (Z.quot x Float64.unit))
                        (u :: us)))
      /\ forall z zs,
           u :: us = map (fun i => i * Float64.unit) (z :: zs) ->
           FloatFrame.top_keyword_volume g = Num z
           /\ Forall (fun i => i <= z) (z :: zs)
           /\ FloatFrame.g_volume g
              = AsText (join_lines (map str_int (z :: zs)))
           /\ (fold_right Z.add 0 (map Z.abs (z :: zs)) < 2 ^ 53 ->
               FloatFrame.total_volume g
               = Float64.Value
                   (Float64.of_int (fold_right Z.add 0 (z :: zs)))).
Proof.
  intros K df gs g E Hg.
  destruct (float_group_of_table df gs g E Hg)
    as (tops & first & rest & u & us & Hrow & Hk & Erows & Hvols & Hsorted
        & Hentry).
  set (sorted := float_sorted df) in *.
  set (k := FloatFrame.g_url g) in *.
  exists u, us.
  assert (Hle : Forall (fun x => x <= u) (u :: us)).
  { constructor; [lia|]. inversion Hsorted as [|? ? _ Hall Heq].
    revert Hall. apply Forall_impl. intros x Hx. lia. }
  assert (Htop : FloatFrame.top_keyword_volume g = Num (Z.quot u Float64.unit)).
  { destruct Hentry as (z & Hz & Hget & _).
    assert (Hfirst : FloatFrame.volume first = Float64.finite u)
      by (simpl in Hvols; congruence).
    rewrite Hfirst in Hz. simpl in Hz. injection Hz as <-.
    rewrite Hrow. unfold float_row_of.
    cbn [FloatFrame.top_keyword_volume]. now rewrite Hget. }
  assert (Htext : FloatFrame.g_volume g
                  = AsText (join_lines
                              (map (fun x => str_int (Z.quot x Float64.unit))
                                 (u :: us)))).
  { rewrite Hrow. unfold float_row_of. cbn [FloatFrame.g_volume].
    fold k. rewrite Erows, Hvols, map_map. reflexivity. }
  assert (Htotal : FloatFrame.total_volume g
                   = Float64.py_sum (map Float64.finite (u :: us))).
  { rewrite Hrow. unfold float_row_of. cbn [FloatFrame.total_volume].
    fold k. now rewrite Erows, Hvols. }
  split; [rewrite Erows; exact Hvols|]. split.
  { rewrite <- Hvols, <- Erows. apply Permutation_map.
    apply float_group_rows_perm. }
  split; [now apply StronglySorted_Sorted|]. split; [exact Hle|].
  split; [exact Htotal|]. split.
  { intros s Hs. rewrite Htotal. unfold Float64.py_sum. rewrite Hs.
    apply exact_sum_value in Hs. now subst s. }
  split; [exact Htop|]. split; [exact Htext|].
  intros z zs Hint. cbn [map] in Hint. injection Hint as Hu Hus.
  pose proof unit_positive as Hunit.
  split; [rewrite Htop, Hu; now rewrite quot_unit|]. split.
  { rewrite Hu, Hus in Hle. constructor; [lia|].
    inversion Hle as [|? ? _ Hall Heq]. rewrite Forall_map in Hall.
    revert Hall. apply Forall_impl. intros i Hi. nia. }
  split.
  { rewrite Htext, Hu, Hus. cbn [map]. rewrite quot_unit, map_map.
    do 3 f_equal. apply map_ext. intros i. now rewrite quot_unit. }
  intros Hbound. rewrite Htotal, Hu, Hus.
  change (map Float64.finite (z * Float64.unit
                              :: map (fun i => i * Float64.unit) zs))
    with (map Float64.finite (map (fun i => i * Float64.unit) (z :: zs))).
  rewrite map_map. change (fun x => Float64.finite (x * Float64.unit))
    with Float64.of_int.
  now apply py_sum_ints.
Qed.

(** C4, at scenario A on a float column with the stable kernel, for the
    group of /a: top volume 1000 and total 1500. *)
Lemma C4_float_scenario_A_witness :
  @FloatFrame.cluster_keywords Kernels.stable_kernel float_scenario_A
  = ([], Some [float_group_a; float_group_b])
  /\ In float_group_a [float_group_a; float_group_b]
  /\ exists u us,
       map FloatFrame.volume
         (FloatFrame.rows_of_url (FloatFrame.g_url float_group_a)
            (@float_sorted Kernels.stable_kernel float_scenario_A))
       = map Float64.finite (u :: us)
       /\ Permutation (map Float64.finite (u :: us))
            (map FloatFrame.volume
               (FloatFrame.rows_of_url (FloatFrame.g_url float_group_a)
                  float_scenario_A))
       /\ Sorted Z.ge (u :: us)
       /\ Forall (fun x => x <= u) (u :: us)
       /\ FloatFrame.total_volume float_group_a
          = Float64.py_sum (map Float64.finite (u :: us))
       /\ (forall s,
             Float64.exact_sum 0 (map Float64.finite (u :: us)) = Some s ->
             FloatFrame.total_volume float_group_a
             = Float64.Value (Float64.finite (fold_right Z.add 0 (u :: us))))
       /\ FloatFrame.top_keyword_volume float_group_a
          = Num (Z.quot u Float64.unit)
       /\ FloatFrame.g_volume float_group_a
          = AsText (join_lines
                      (map (fun x => str_int (Z.quot x Float64.unit))
                         (u :: us)))
       /\ forall z zs,
            u :: us = map (fun i => i * Float64.unit) (z :: zs) ->
            FloatFrame.top_keyword_volume float_group_a = Num z
            /\ Forall (fun i => i <= z) (z :: zs)
            /\ FloatFrame.g_volume float_group_a
               = AsText (join_lines (map str_int (z :: zs)))
            /\ (fold_right Z.add 0 (map Z.abs (z :: zs)) < 2 ^ 53 ->
                FloatFrame.total_volume float_group_a
                = Float64.Value
                    (Float64.of_int (fold_right Z.add 0 (z :: zs)))).
Proof.
  split; [vm_compute; reflexivity|]. split; [now left|].
  apply (C4_total_is_sum_and_top_is_integer_part_of_max
           Kernels.stable_kernel float_scenario_A
           [float_group_a; float_group_b] float_group_a);
    [vm_compute; reflexivity | now left].
Defined.

(** C4 as the specification states it fails on two keywords of one url
    with the volumes 1.5 and 1.25: the table has the top volume 1,
    which is not the volume 1.5 of the first record, and the volume
    text lists 1 and 1 beside the total 2.75. *)
Lemma C4_top_volume_loses_the_fraction :
  @FloatFrame.cluster_keywords Kernels.stable_kernel fractional_rows
  = ([], Some [fractional_group])
  /\ FloatFrame.top_keyword_volume fractional_group = Num 1
  /\ FloatFrame.total_volume fractional_group = Float64.Value (quarters 11)
  /\ ~ @total_and_top_as_C4_states Kernels.stable_kernel fractional_rows.
Proof.
  assert (E : @FloatFrame.cluster_keywords Kernels.stable_kernel
                fractional_rows = ([], Some [fractional_group]))
    by (vm_compute; reflexivity).
  split; [exact E|]. split; [reflexivity|]. split; [reflexivity|].
  intros H.
  destruct (H [fractional_group] fractional_group E (or_introl eq_refl))
    as (first & rest & z & Hrows & _ & Htop & Hfirst).
  vm_compute in Hrows. injection Hrows as <- _.
  cbn [FloatFrame.top_keyword_volume fractional_group] in Htop.
  injection Htop as <-. vm_compute in Hfirst. discriminate.
Qed.

(** ** C5: every record in one group *)



(** ** C6: the quote characters *)

(** C6 fails as stated: of a value wrapped twice, both layers go. *)
Lemma C6_two_layers_are_stripped :
  strip (q (q "x")) = "x"%string /\ ~ strips_one_layer_as_C6_states.
Proof.
  split; [reflexivity|]. intros H. specialize (H (q "x")). discriminate.
Qed.

(** C6, amended.  The columns are selected by their quoted names, and
    then in every object column a text loses the quote characters at
    its two ends: all of them, not one layer, whether or not they pair
    up; the characters between them stay.  When the text is a value in
    one layer of quotes and the value has no quote character at either
    end, the result is that value. *)
Theorem C6_strip_takes_all_quotes_at_the_ends :
  forall (c : column) (i : nat) (s : string),
    col_dtype c = object_ ->
    nth_error (cells c) i = Some (Str s) ->
    nth_error (cells (clean_column c)) i = Some (Str (strip s))
    /\ (exists n m, s = (quotes n ++ (strip s ++ quotes m))%string)
    /\ first_char (strip s) <> Some quote
    /\ last_char (strip s) <> Some quote
    /\ (forall inner, s = q inner -> first_char inner <> Some quote ->
                      last_char inner <> Some quote -> strip s = inner)
    /\ (forall df rows, normalize df = inr rows -> incl required (columns df)).
Proof.
  intros c i s Hc Hi. split.
  - unfold clean_column. rewrite Hc. simpl.
    rewrite nth_error_map, Hi. reflexivity.
  - destruct (strip_spec s) as (n & m & Hs & Hf & Hl).
    split; [now exists n, m|]. split; [exact Hf|]. split; [exact Hl|].
    split.
    + intros inner -> Hfi Hli. now apply strip_one_layer.
    + exact normalize_needs_quoted_names.
Qed.

(** C6 amended, at a keyword cell that the export wrapped twice. *)
Lemma C6_double_quoted_witness :
  let c := {| col_dtype := object_; cells := [Str (q (q "shoes"))] |} in
  col_dtype c = object_
  /\ nth_error (cells c) 0 = Some (Str (q (q "shoes")))
  /\ nth_error (cells (clean_column c)) 0 = Some (Str (strip (q (q "shoes"))))
  /\ strip (q (q "shoes")) = "shoes"%string.
Proof.
  pose proof (C6_strip_takes_all_quotes_at_the_ends
                {| col_dtype := object_; cells := [Str (q (q "shoes"))] |}
                0 (q (q "shoes")) eq_refl eq_refl) as H.
  split; [reflexivity|]. split; [reflexivity|].
  split; [exact (proj1 H) | reflexivity].
Defined.

(** ** C7: the two encodings *)

(** C7.  [process_file] calls [read_csv] once or twice and never more:
    first with UTF-16, from where the cursor is; when that call raises
    [UnicodeError], and only then, a second time with UTF-8, from the
    start of the file, whatever the first call has consumed.  When the
    second call raises too, the error is shown and [None] is returned.
    An exception of the first call that is no [UnicodeError] ends the
    function in the same way, without a second call. *)
Theorem C7_utf16_then_utf8_from_the_start :
  forall (R : CsvReader) (f : upload),
    let '(shown, df, f') := process_file f in
    match read_csv utf_16 (skipn (cursor f) (content f)) with
    | inl (UnicodeError _) =>
        attempts f' = attempts f ++ [(utf_16, cursor f); (utf_8, 0%nat)]
        /\ match read_csv utf_8 (content f) with
           | inl e => shown = [loading_error e] /\ df = None
           | inr frame => (shown, df) = normalized frame
           end
    | inl e =>
        attempts f' = attempts f ++ [(utf_16, cursor f)]
        /\ shown = [loading_error e] /\ df = None
    | inr frame =>
        attempts f' = attempts f ++ [(utf_16, cursor f)]
        /\ (shown, df) = normalized frame
    end.
Proof.
  intros R f. unfold process_file, read_frame, pd_read_csv, normalized.
  destruct (read_csv utf_16 (skipn (cursor f) (content f))) as [e|frame].
  - destruct e; simpl; try (split; [reflexivity|split; reflexivity]).
    rewrite <- app_assoc. simpl.
    destruct (read_csv utf_8 (content f)) as [e|frame]; simpl.
    + split; [reflexivity|split; reflexivity].
    + destruct (normalize frame); simpl; split; reflexivity.
  - destruct (normalize frame); simpl; split; reflexivity.
Qed.

(** With the reader [undecodable]: two calls, the second from the
    start, the error of the second shown, no frame. *)
Example both_encodings_fail (bytes : list Byte.byte) :
  @process_file undecodable (fresh_upload bytes)
  = ([loading_error (UnicodeError "utf-8")], None,
     {| content := bytes;
        cursor := Nat.min (List.length bytes) (0 + List.length bytes);
        attempts := [(utf_16, 0%nat); (utf_8, 0%nat)] |}).
Proof. reflexivity. Qed.

(** ** C8: a missing column *)

(** C8.  When the frame that was read lacks one of the nine quoted
    columns, [process_file] shows the [KeyError], which names the
    columns that are missing, then lists the columns that the frame
    has, and returns [None]; [main] then does not call
    [cluster_keywords], so nothing of the aggregation is shown and
    there is no table. *)
Theorem C8_missing_column_is_reported :
  forall (K : SortKernel) (R : CsvReader) (f f' : upload) (frame : DataFrame),
    read_frame f = (inr frame, f') ->
    (exists name, In name required /\ ~ In name (columns frame)) ->
    exists missing,
      missing <> []
      /\ (forall n, In n missing
                    <-> In n required /\ ~ In n (columns frame))
      /\ process_file f
         = ([loading_error (KeyError missing);
             StWrite "Colonnes disponibles:" (columns frame)], None, f')
      /\ App.analyse f
         = ([loading_error (KeyError missing);
             StWrite "Colonnes disponibles:" (columns frame)], None).
Proof.
  intros K R f f' frame Hread Hmiss.
  destruct (getitem_list_missing required frame Hmiss)
    as (missing & Hget & Hne & Hspec).
  exists missing. split; [exact Hne|]. split; [exact Hspec|].
  assert (Hp : process_file f
               = ([loading_error (KeyError missing);
                   StWrite "Colonnes disponibles:" (columns frame)],
                  None, f')).
  { unfold process_file. rewrite Hread. unfold normalize. rewrite Hget.
    reflexivity. }
  split; [exact Hp|]. unfold App.analyse. now rewrite Hp.
Qed.

(** C8, at scenario C: the one missing column is named and the eight
    columns of the file are listed. *)
Lemma C8_scenario_C_witness :
  let f := fresh_upload [] in
  exists f',
    @read_frame (reads_as scenario_C) f = (inr scenario_C, f')
    /\ (exists name, In name required /\ ~ In name (columns scenario_C))
    /\ exists missing,
         missing <> []
         /\ (forall n, In n missing
                       <-> In n required /\ ~ In n (columns scenario_C))
         /\ @process_file (reads_as scenario_C) f
            = ([loading_error (KeyError missing);
                StWrite "Colonnes disponibles:" (columns scenario_C)],
               None, f')
         /\ @App.analyse Kernels.stable_kernel (reads_as scenario_C) f
            = ([loading_error (KeyError missing);
                StWrite "Colonnes disponibles:" (columns scenario_C)], None).
Proof.
  intros f. eexists.
  assert (Hmiss : exists name,
             In name required /\ ~ In name (columns scenario_C)).
  { exists (q "Current URL"). split.
    - right. right. right. now left.
    - intros H. repeat (destruct H as [H|H]; [discriminate H|]). exact H. }
  split; [reflexivity|]. split; [exact Hmiss|].
  exact (C8_missing_column_is_reported Kernels.stable_kernel
           (reads_as scenario_C) f _ scenario_C eq_refl Hmiss).
Defined.

(** ** C9: the empty record set *)

(** C9.  A header line without data rows normalizes to the empty record
    set.  On the empty record set [cluster_keywords] returns the empty
    table and shows no error, with every kernel, and so does the whole
    analysis of a file that holds the header line only; and on no
    record set does the body of [cluster_keywords] raise a division by
    zero, the mean being taken over groups that are not empty. *)
Theorem C9_empty_record_set_gives_empty_table :
  Normalizer.normalize headers_only = inr []
  /\ forall K : SortKernel,
       @cluster_keywords K [] = ([], Some [])
       /\ (forall bytes,
             @App.analyse K (reads_as headers_only) (fresh_upload bytes)
             = ([], Some []))
       /\ forall df, @cluster_keywords_body K df <> inl ZeroDivisionError.
Proof.
  split; [reflexivity|]. intros K.
  assert (Hempty : @cluster_keywords K [] = ([], Some [])).
  { unfold cluster_keywords, cluster_keywords_body.
    rewrite sort_values_nil. simpl. now rewrite sort_values_nil. }
  split; [exact Hempty|]. split.
  - intros bytes. unfold App.analyse, process_file, read_frame, pd_read_csv.
    cbn [read_csv reads_as].
    change (normalize headers_only) with (@inr exn (list KeywordRecord) []).
    cbn iota. now rewrite Hempty.
  - intros df E. pose proof (body_cases df) as H. rewrite E in H.
    destruct H as [H _]. discriminate.
Qed.

(** ** C10: the input frame *)

(** C10.  Let [df] be the location of a frame of records in the heap.
    After [cluster_keywords], whether it returns a table or [None],
    the heap still has that frame at [df]; every object that existed
    before is unchanged, the call having only added objects; and what
    it returns and shows is what the function computes from the rows
    of the frame. *)
Theorem C10_input_frame_is_left_unchanged :
  forall (K : SortKernel) (s : state) (df : nat) (rows : list KeywordRecord),
    nth_error (heap s) df = Some (Records rows) ->
    let '(r, s') := @cluster_keywords_st K df s in
    nth_error (heap s') df = Some (Records rows)
    /\ (exists fresh, heap s' = heap s ++ fresh)
    /\ match r with
       | Some l =>
           exists t, nth_error (heap s') l = Some (Table t)
                     /\ cluster_keywords rows = ([], Some t)
                     /\ page s' = page s
       | None =>
           exists shown, cluster_keywords rows = (shown, None)
                         /\ page s' = page s ++ shown
       end.
Proof.
  intros K s df rows Hdf.
  destruct (body_st_run s df rows Hdf)
    as (r & s' & Hrun & (fresh & Hheap) & Hpage & Hres).
  unfold cluster_keywords_st. rewrite Hrun.
  unfold cluster_keywords.
  destruct r as [e|l]; cbn [heap page].
  - rewrite Hres. split; [|split].
    + rewrite Hheap. now apply nth_error_extend.
    + now exists fresh.
    + eexists. split; [reflexivity|]. now rewrite Hpage.
  - destruct Hres as (t & Hl & Ht). rewrite Ht. split; [|split].
    + rewrite Hheap. now apply nth_error_extend.
    + now exists fresh.
    + now exists t.
Qed.

(** C10, at a heap that holds the frame of scenario A and nothing else,
    with the stable kernel. *)
Lemma C10_scenario_A_witness :
  let s := {| heap := [Records scenario_A]; page := [] |} in
  nth_error (heap s) 0 = Some (Records scenario_A)
  /\ let '(r, s') := @cluster_keywords_st Kernels.stable_kernel 0 s in
     nth_error (heap s') 0 = Some (Records scenario_A)
     /\ (exists fresh, heap s' = heap s ++ fresh)
     /\ match r with
        | Some l =>
            exists t, nth_error (heap s') l = Some (Table t)
                      /\ @cluster_keywords Kernels.stable_kernel scenario_A
                         = ([], Some t)
                      /\ page s' = page s
        | None =>
            exists shown,
              @cluster_keywords Kernels.stable_kernel scenario_A
              = (shown, None)
              /\ page s' = page s ++ shown
        end.
Proof.
  intros s. split; [reflexivity|].
  exact (C10_input_frame_is_left_unchanged Kernels.stable_kernel s 0
           scenario_A eq_refl).
Defined.

(** * Further properties

    Properties of [cluster_keywords], [process_file] and [main] beyond
    the statements C1 to C10. *)

Import Dashboard.

(** ** Printing and reading integers *)

Ltac eval_digit :=
  match goal with
  | |- context [digit_of ?c] =>
      let v := eval vm_compute in (digit_of c) in
      change (digit_of c) with v; cbv iota beta
  end.

Lemma parse_digits_acc d : forall acc,
  parse_digits (Z.pos acc) (DecimalString.NilEmpty.string_of_uint d)
  = Some (Z.pos (Pos.of_uint_acc d acc)).
Proof.
  induction d; intros acc; cbn -[Z.mul Z.add Pos.mul Pos.add digit_of];
    try reflexivity; rewrite <- IHd; eval_digit; f_equal; lia.
Qed.

Lemma parse_digits_uint d :
  parse_digits 0 (DecimalString.NilEmpty.string_of_uint d)
  = Some (Z.of_N (Pos.of_uint d)).
Proof.
  induction d; try reflexivity;
    cbn -[Z.mul Z.add Pos.mul Pos.add digit_of Pos.of_uint_acc]; eval_digit;
    try exact IHd; apply parse_digits_acc.
Qed.

Lemma parse_integer_digits d :
  d <> Decimal.Nil ->
  parse_integer (DecimalString.NilEmpty.string_of_uint d)
  = parse_digits 0 (DecimalString.NilEmpty.string_of_uint d).
Proof. destruct d; intros H; try reflexivity. now destruct H. Qed.

Lemma string_of_uint_nonnil d :
  d <> Decimal.Nil ->
  DecimalString.NilZero.string_of_uint d
  = DecimalString.NilEmpty.string_of_uint d.
Proof. destruct d; intros H; try reflexivity. now destruct H. Qed.

Lemma str_int_pos p :
  str_int (Z.pos p) = DecimalString.NilEmpty.string_of_uint (Pos.to_uint p).
Proof.
  unfold str_int. cbn [Z.to_int DecimalString.NilZero.string_of_int].
  apply string_of_uint_nonnil, DecimalPos.Unsigned.to_uint_nonnil.
Qed.

Lemma str_int_neg p :
  str_int (Z.neg p) = String (ascii_of_nat 45) (str_int (Z.pos p)).
Proof.
  rewrite str_int_pos. unfold str_int.
  cbn [Z.to_int DecimalString.NilZero.string_of_int].
  now rewrite string_of_uint_nonnil by apply DecimalPos.Unsigned.to_uint_nonnil.
Qed.

Lemma parse_digits_str_int_pos p :
  parse_digits 0 (str_int (Z.pos p)) = Some (Z.pos p).
Proof.
  rewrite str_int_pos, parse_digits_uint.
  now rewrite DecimalPos.Unsigned.of_to.
Qed.

Lemma str_int_pos_not_empty p : str_int (Z.pos p) <> EmptyString.
Proof.
  rewrite str_int_pos.
  pose proof (DecimalPos.Unsigned.to_uint_nonnil p) as H.
  destruct (Pos.to_uint p); try discriminate. now destruct H.
Qed.

Lemma parse_integer_str_int z : parse_integer (str_int z) = Some z.
Proof.
  destruct z as [|p|p].
  - reflexivity.
  - rewrite str_int_pos, parse_integer_digits
      by apply DecimalPos.Unsigned.to_uint_nonnil.
    rewrite <- str_int_pos. apply parse_digits_str_int_pos.
  - rewrite str_int_neg. cbn [parse_integer].
    destruct (ascii_dec (ascii_of_nat 45) (ascii_of_nat 45)) as [_|H];
      [|now destruct H].
    pose proof (str_int_pos_not_empty p) as Hne.
    destruct (str_int (Z.pos p)) eqn:E; [now destruct Hne|].
    rewrite <- E, parse_digits_str_int_pos. reflexivity.
Qed.

Lemma remove_commas_group s :
  remove_commas (group_thousands s) = remove_commas s.
Proof.
  induction s as [|c s IH]; [reflexivity|].
  cbn [group_thousands remove_commas].
  destruct ((0 <? String.length s)%nat && (String.length s mod 3 =? 0)%nat);
    cbn [remove_commas];
    repeat (destruct (ascii_dec _ _) as [?|?]; try congruence).
Qed.

Lemma remove_commas_uint d :
  remove_commas (DecimalString.NilEmpty.string_of_uint d)
  = DecimalString.NilEmpty.string_of_uint d.
Proof.
  induction d; cbn [DecimalString.NilEmpty.string_of_uint remove_commas];
    try reflexivity;
    (destruct (ascii_dec _ comma) as [H|_]; [discriminate H | now rewrite IHd]).
Qed.

Lemma remove_commas_str_int z : remove_commas (str_int z) = str_int z.
Proof.
  destruct z as [|p|p]; [reflexivity | |].
  - rewrite str_int_pos. apply remove_commas_uint.
  - rewrite str_int_neg, str_int_pos. cbn [remove_commas].
    destruct (ascii_dec _ comma) as [H|_]; [discriminate H|].
    now rewrite remove_commas_uint.
Qed.

Lemma remove_commas_format z :
  remove_commas (format_thousands z) = str_int z.
Proof.
  unfold format_thousands. destruct (Z.ltb_spec z 0) as [H|H].
  - destruct z as [|p|p]; try lia. cbn [Z.opp remove_commas].
    destruct (ascii_dec _ comma) as [H'|_]; [discriminate H'|].
    now rewrite remove_commas_group, remove_commas_str_int, str_int_neg.
  - now rewrite remove_commas_group, remove_commas_str_int.
Qed.

(** ** Groups of a returned table *)

Lemma existsb_perm {A : Type} (f : A -> bool) (l l' : list A) :
  Permutation l l' -> existsb f l = existsb f l'.
Proof.
  induction 1; simpl; try congruence.
  now destruct (f x), (f y).
Qed.

Lemma sum_perm (l l' : list Z) :
  Permutation l l' -> fold_right Z.add 0 l = fold_right Z.add 0 l'.
Proof. induction 1; simpl; lia. Qed.

Lemma non_nan_values_all {A : Type} (by_ : A -> number) (rows : list A) :
  Forall (fun v => isna v = false) (map by_ rows) ->
  non_nan_values (map by_ rows) = map (fun r => value_or_zero (by_ r)) rows.
Proof.
  induction rows as [|r rows IH]; intros H; [reflexivity|].
  inversion H as [|? ? Hr Hrest]; subst. simpl.
  destruct (by_ r); [discriminate|]. simpl. now rewrite <- IH.
Qed.

Lemma py_sum_nan_from (l : list number) : fold_left py_add l NaN = NaN.
Proof. induction l as [|v l IH]; [reflexivity|exact IH]. Qed.

Lemma py_sum_cases_from (l : list number) (a : Z) :
  fold_left py_add l (Num a)
  = if existsb isna l then NaN
    else Num (a + fold_right Z.add 0 (non_nan_values l)).
Proof.
  revert a. induction l as [|v l IH]; intros a; simpl.
  - f_equal. lia.
  - destruct v as [|z]; simpl; [apply py_sum_nan_from|].
    rewrite IH. destruct (existsb isna l); [reflexivity|]. f_equal. lia.
Qed.

(** The builtin [sum] is NaN as soon as one cell is, and the sum of the
    values otherwise. *)
Lemma py_sum_cases (l : list number) :
  py_sum l = if existsb isna l then NaN
             else Num (fold_right Z.add 0 (non_nan_values l)).
Proof. unfold py_sum. now rewrite py_sum_cases_from. Qed.

Lemma group_sizes_with_url keys rows :
  NoDup keys ->
  (forall k, In k keys -> cell_isna k = false) ->
  (forall r, In r rows -> cell_isna (url r) = false -> In (url r) keys) ->
  group_sizes keys rows = List.length (filter has_url rows).
Proof.
  intros Hnd Hkeys. induction rows as [|r rows IH]; intros Hall.
  - unfold group_sizes. clear. induction keys; simpl; auto.
  - assert (IH' : group_sizes keys rows = List.length (filter has_url rows)).
    { apply IH. intros r' Hr'. apply Hall. now right. }
    cbn [filter]. change (has_url r) with (negb (cell_isna (url r))).
    destruct (cell_isna (url r)) eqn:E; cbn [negb].
    + rewrite group_sizes_absent; [exact IH'|].
      intros Hin. apply Hkeys in Hin. congruence.
    + rewrite group_sizes_cons; auto.
      * simpl. now rewrite IH'.
      * apply Hall; auto. now left.
Qed.

Lemma group_keys_have_url k rows :
  In k (group_keys rows) -> cell_isna k = false.
Proof.
  intros H. apply group_keys_In in H. now destruct H as (_ & _ & _ & H).
Qed.

Section AnyKernel.
Context {K : SortKernel}.

Lemma group_rows_perm k df :
  Permutation (rows_of_url k (sort_values volume false df)) (rows_of_url k df).
Proof. unfold rows_of_url. apply filter_perm, sort_values_perm. Qed.

Lemma group_keys_sorted_In k df :
  In k (group_keys (sort_values volume false df))
  <-> cell_isna k = false /\ exists r, In r df /\ url r = k.
Proof.
  rewrite group_keys_In. split.
  - intros (r & Hr & Hu & Hna). split; [exact Hna|]. exists r. split; [|exact Hu].
    apply (Permutation_in _ (sort_values_perm volume false df)), Hr.
  - intros (Hna & r & Hr & Hu). exists r. split; [|auto].
    apply (Permutation_in _ (Permutation_sym (sort_values_perm volume false df))), Hr.
Qed.

(** The row of a returned table, the rows of its group in the sorted
    frame and what the loop stored for its url. *)
Lemma group_of_table df gs g :
  cluster_keywords df = ([], Some gs) -> In g gs ->
  let sorted := sort_values volume false df in
  exists tops first rest,
    g = row_of sorted tops (g_url g)
    /\ In (g_url g) (group_keys sorted)
    /\ rows_of_url (g_url g) sorted = first :: rest
    /\ Forall (fun v => isna v = false) (map volume (first :: rest))
    /\ entry (fst tops) (snd tops) (g_url g) first.
Proof.
  intros E Hg sorted.
  destruct (table_rows df gs E) as (tops & Htops & Hall & _ & Hperm).
  fold sorted in Htops, Hall, Hperm.
  apply (Permutation_in _ Hperm) in Hg.
  apply in_map_iff in Hg. destruct Hg as (k & <- & Hk).
  change (g_url (row_of sorted tops k)) with k.
  specialize (Hall k Hk).
  destruct (rows_of_url k sorted) as [|first rest] eqn:Erows.
  { exfalso. now apply (group_not_empty k sorted). }
  exists tops, first, rest. split; [reflexivity|]. split; [exact Hk|].
  split; [reflexivity|]. split; [exact Hall|].
  destruct tops as [tk tv].
  apply (top_loop_entries _ _ _ _ _ _ Htops k first rest Erows). left.
  apply unique_In. apply group_keys_In in Hk.
  destruct Hk as (r & Hr & <- & _). now apply in_map.
Qed.

End AnyKernel.

(** ** Further properties of [cluster_keywords] *)

(** X4. A null position does not stop the aggregation: in a returned
    table, the average position of a group is NaN when one of the
    positions of its url is null, and otherwise the sum of these
    positions over their number, which is [keyword_count] and is not
    zero. *)
Theorem null_position_makes_the_average_nan :
  forall (K : SortKernel) (df : list KeywordRecord) (gs : list UrlGroup)
         (g : UrlGroup),
    @cluster_keywords K df = ([], Some gs) ->
    In g gs ->
    let ps := map position (rows_of_url (g_url g) df) in
    (0 < keyword_count g)%nat
    /\ keyword_count g = List.length ps
    /\ avg_position g
       = if existsb isna ps then RoundNaN
         else Round1 (fold_right Z.add 0 (non_nan_values ps)) (keyword_count g).
Proof.
  intros K df gs g E Hg ps.
  destruct (group_of_table df gs g E Hg)
    as (tops & first & rest & Hrow & Hk & Erows & Hall & Hentry).
  set (sorted := sort_values volume false df) in *.
  set (k := g_url g) in *.
  pose proof (group_rows_perm k df) as Hperm. fold sorted in Hperm.
  assert (Hcount : keyword_count g = List.length (rows_of_url k sorted)).
  { rewrite Hrow. reflexivity. }
  split; [rewrite Hcount, Erows; simpl; lia|].
  split.
  { rewrite Hcount. unfold ps. rewrite length_map.
    now apply Permutation_length. }
  rewrite Hcount. rewrite Hrow at 1. unfold row_of. cbn [avg_position g_url].
  fold k. rewrite py_sum_cases.
  rewrite (existsb_perm isna _ ps) by (now apply Permutation_map).
  destruct (existsb isna ps); [reflexivity|]. f_equal.
  apply sum_perm. unfold ps. rewrite !non_nan_values_filter.
  apply Permutation_map, filter_perm, Hperm.
Qed.

(** X4, at the record set with gaps and the stable kernel: the group
    of /a has a null position, and its average is NaN. *)
Lemma null_position_gaps_witness :
  @cluster_keywords Kernels.stable_kernel scenario_gaps
  = ([], Some [group_gaps])
  /\ In group_gaps [group_gaps]
  /\ let ps := map position (rows_of_url (g_url group_gaps) scenario_gaps) in
     (0 < keyword_count group_gaps)%nat
     /\ keyword_count group_gaps = List.length ps
     /\ avg_position group_gaps
        = if existsb isna ps then RoundNaN
          else Round1 (fold_right Z.add 0 (non_nan_values ps))
                 (keyword_count group_gaps).
Proof.
  split; [reflexivity|]. split; [now left|].
  apply (null_position_makes_the_average_nan Kernels.stable_kernel
           scenario_gaps [group_gaps] group_gaps); [reflexivity | now left].
Defined.

(** X5. The groups of a returned table are the urls of the input: a
    cell is the url of a group exactly when it is the url, not null, of
    some record.  A record without a url is in no group, so the counts
    of the groups add up to the number of records that have a url. *)
Theorem groups_are_the_urls_of_the_records :
  forall (K : SortKernel) (df : list KeywordRecord) (gs : list UrlGroup),
    @cluster_keywords K df = ([], Some gs) ->
    (forall u, In u (map g_url gs)
               <-> cell_isna u = false /\ exists r, In r df /\ url r = u)
    /\ list_sum (map keyword_count gs) = List.length (filter has_url df).
Proof.
  intros K df gs E.
  destruct (table_rows df gs E) as (tops & _ & _ & _ & Hperm).
  set (sorted := sort_values volume false df) in *.
  assert (Hsorted : Permutation sorted df) by apply sort_values_perm.
  assert (Hurls : map g_url (map (row_of sorted tops) (group_keys sorted))
                  = group_keys sorted).
  { rewrite map_map. simpl. apply map_id. }
  split.
  - intros u. rewrite <- (group_keys_sorted_In u df). fold sorted.
    rewrite <- Hurls. split; apply Permutation_in; apply Permutation_map;
      [exact Hperm | now apply Permutation_sym].
  - rewrite (list_sum_perm _ _ (Permutation_map keyword_count Hperm)).
    rewrite map_map. simpl. fold (group_sizes (group_keys sorted) sorted).
    rewrite group_sizes_with_url.
    + apply Permutation_length. now apply filter_perm.
    + apply group_keys_NoDup.
    + intros k. apply group_keys_have_url.
    + intros r Hr Hna. apply group_keys_In. now exists r.
Qed.

(** X5, at the record set with gaps and the stable kernel: three
    records, two of them with a url, one group of two. *)
Lemma groups_gaps_witness :
  @cluster_keywords Kernels.stable_kernel scenario_gaps
  = ([], Some [group_gaps])
  /\ (forall u, In u (map g_url [group_gaps])
                <-> cell_isna u = false
                    /\ exists r, In r scenario_gaps /\ url r = u)
  /\ list_sum (map keyword_count [group_gaps])
     = List.length (filter has_url scenario_gaps).
Proof.
  split; [reflexivity|].
  apply (groups_are_the_urls_of_the_records Kernels.stable_kernel
           scenario_gaps [group_gaps]); reflexivity.
Defined.

(** ** Further properties of [process_file] *)

Lemma lookup_column_some name df :
  In name (columns df) -> exists c, lookup_column name df = Some c.
Proof.
  intros H. destruct (lookup_column name df) as [c|] eqn:E; [now exists c|].
  apply lookup_column_none in E. contradiction.
Qed.

Lemma getitem_list_cons name names df c cols :
  lookup_column name df = Some c ->
  getitem_list names df = inr cols ->
  getitem_list (name :: names) df = inr (c :: cols).
Proof.
  unfold getitem_list. cbn [filter flat_map]. intros ->.
  destruct (filter _ names); [|discriminate].
  intros [= <-]. reflexivity.
Qed.

(** [df[[...]]] when the frame has every name of the list. *)
Lemma getitem_list_present names df :
  incl names (columns df) ->
  exists cols,
    getitem_list names df = inr cols
    /\ Forall2 (fun n c => lookup_column n df = Some c) names cols.
Proof.
  induction names as [|name names IH]; intros Hincl.
  - exists []. split; [reflexivity|constructor].
  - destruct IH as (cols & Hget & Hall).
    { intros n Hn. apply Hincl. now right. }
    destruct (lookup_column_some name df) as (c & Hc).
    { apply Hincl. now left. }
    exists (c :: cols). split; [now apply getitem_list_cons|].
    now constructor.
Qed.

Lemma clean_column_dtype c : col_dtype (clean_column c) = col_dtype c.
Proof. unfold clean_column. now destruct (col_dtype c) eqn:E. Qed.

Lemma clean_column_length c :
  List.length (cells (clean_column c)) = List.length (cells c).
Proof.
  unfold clean_column. destruct (col_dtype c); try reflexivity.
  cbn [cells]. apply length_map.
Qed.

(** What lines 26 to 50 do with a frame that has the nine columns. *)
Lemma normalize_cases df :
  incl required (columns df) ->
  exists v,
    lookup_column (q "Volume") df = Some v
    /\ normalize df
       = match col_dtype v with
         | object_ =>
             inr (rows_of (cleaned (q "Keyword") df)
                    (map to_numeric
                       (map str_replace_comma (cleaned (q "Volume") df)))
                    (map to_numeric (cleaned (q "Current position") df))
                    (cleaned (q "Current URL") df)
                    (cleaned (q "Branded") df)
                    (cleaned (q "Local") df)
                    (cleaned (q "Informational") df)
                    (cleaned (q "Commercial") df)
                    (cleaned (q "Transactional") df))
         | _ => inl no_str_accessor
         end.
Proof.
  intros Hincl.
  destruct (getitem_list_present required df Hincl) as (cols & Hget & Hall).
  unfold required in Hall.
  repeat match goal with
         | H : Forall2 _ (_ :: _) _ |- _ =>
             inversion H; clear H; subst
         | H : Forall2 _ [] _ |- _ => inversion H; clear H; subst
         end.
  match goal with
  | H : lookup_column (q "Volume") df = Some ?v |- _ => exists v
  end.
  split; [assumption|].
  unfold normalize. rewrite Hget. cbn [bind map].
  unfold cleaned, str_accessor.
  repeat match goal with
         | H : lookup_column _ df = Some _ |- _ => rewrite H; clear H
         end.
  rewrite clean_column_dtype.
  match goal with |- context [col_dtype ?v] => destruct (col_dtype v) end;
    reflexivity.
Qed.

Lemma flat_map_agree {A B : Type} (f g : A -> list B) (l : list A) :
  (forall a, In a l -> f a = g a) -> flat_map f l = flat_map g l.
Proof.
  induction l as [|a l IH]; intros H; [reflexivity|]. simpl.
  rewrite (H a (or_introl eq_refl)), IH; [reflexivity|].
  intros a' Ha'. apply H. now right.
Qed.

Lemma rows_of_columns (n : nat) :
  forall k v p u b l i c t,
    List.length k = n -> List.length v = n -> List.length p = n ->
    List.length u = n -> List.length b = n -> List.length l = n ->
    List.length i = n -> List.length c = n -> List.length t = n ->
    let rows := rows_of k v p u b l i c t in
    List.length rows = n
    /\ map keyword rows = k /\ map volume rows = v /\ map position rows = p
    /\ map url rows = u /\ map branded rows = b /\ map local rows = l
    /\ map informational rows = i /\ map commercial rows = c
    /\ map transactional rows = t.
Proof.
  induction n as [|n IH]; intros k v p u b l i c t Hk Hv Hp Hu Hb Hl Hi Hc Ht.
  - destruct k, v, p, u, b, l, i, c, t; try discriminate.
    repeat split; reflexivity.
  - destruct k as [|k0 k], v as [|v0 v], p as [|p0 p], u as [|u0 u],
      b as [|b0 b], l as [|l0 l], i as [|i0 i], c as [|c0 c], t as [|t0 t];
      try discriminate.
    cbn [List.length] in *.
    destruct (IH k v p u b l i c t) as (H0 & H1 & H2 & H3 & H4 & H5 & H6 & H7
                                        & H8 & H9); try lia.
    cbn zeta. cbn [rows_of map List.length keyword volume position url branded
                   local informational commercial transactional].
    repeat split; congruence.
Qed.

Lemma lstrip_id s : first_char s <> Some quote -> lstrip s = s.
Proof.
  destruct s as [|c s]; [reflexivity|]. cbn [first_char lstrip]. intros H.
  destruct (ascii_dec c quote) as [->|_]; [now destruct H | reflexivity].
Qed.

Lemma strip_idempotent s : strip (strip s) = strip s.
Proof.
  destruct (strip_spec s) as (n & m & _ & Hfirst & Hlast).
  unfold strip at 1. rewrite lstrip_id by exact Hfirst.
  now apply rstrip_id.
Qed.






(** X7. Lines 26 to 50 return a record set only when the frame has the
    nine columns under their quoted names and its Volume column is an
    object column. *)
Theorem normalize_returns_only_if_columns_present_and_volume_is_text :
  forall (df : DataFrame) (rows : list KeywordRecord),
    normalize df = inr rows ->
    incl required (columns df)
    /\ exists v, lookup_column (q "Volume") df = Some v
                 /\ col_dtype v = object_.
Proof.
  intros df rows E.
  assert (Hincl : incl required (columns df))
    by (now apply (normalize_needs_quoted_names df rows)).
  split; [exact Hincl|].
  destruct (normalize_cases df Hincl) as (v & Hv & Hn).
  exists v. split; [exact Hv|]. rewrite E in Hn.
  now destruct (col_dtype v).
Qed.

(** X7, at the quoted export of two keywords. *)
Lemma normalize_quoted_frame_witness :
  normalize quoted_frame = inr quoted_records
  /\ incl required (columns quoted_frame)
  /\ exists v, lookup_column (q "Volume") quoted_frame = Some v
               /\ col_dtype v = object_.
Proof.
  split; [reflexivity|].
  exact (normalize_returns_only_if_columns_present_and_volume_is_text
           quoted_frame quoted_records eq_refl).
Defined.

(** X8. An export whose Volume fields are bare numbers, so that the
    column is numeric, is rejected although nothing is missing: the
    [.str] accessor of line 47 raises [AttributeError], which is shown
    with the columns of the file, and neither a record set nor a table
    is returned. *)
Theorem bare_volume_numbers_are_rejected :
  forall (K : SortKernel) (R : CsvReader) (f f' : upload) (frame : DataFrame)
         (v : column),
    read_frame f = (inr frame, f') ->
    incl required (columns frame) ->
    lookup_column (q "Volume") frame = Some v ->
    col_dtype v <> object_ ->
    process_file f
    = ([loading_error no_str_accessor;
        StWrite "Colonnes disponibles:" (columns frame)], None, f')
    /\ Dashboard.main f
       = ([loading_error no_str_accessor;
           StWrite "Colonnes disponibles:" (columns frame)], None).
Proof.
  intros K R f f' frame v Hread Hincl Hv Hd.
  destruct (normalize_cases frame Hincl) as (v' & Hv' & Hn).
  assert (v' = v) as -> by congruence.
  assert (Hp : process_file f
               = ([loading_error no_str_accessor;
                   StWrite "Colonnes disponibles:" (columns frame)],
                  None, f')).
  { unfold process_file. rewrite Hread, Hn.
    destruct (col_dtype v); [now destruct Hd | reflexivity | reflexivity]. }
  split; [exact Hp|]. unfold Dashboard.main. now rewrite Hp.
Qed.

(** X8, at the export with a bare number in the Volume column. *)
Lemma bare_volume_frame_witness :
  let f := fresh_upload [] in
  let v := {| col_dtype := int64; cells := [Numc (Num 1000)] |} in
  exists f',
    @read_frame (reads_as bare_volume_frame) f = (inr bare_volume_frame, f')
    /\ incl required (columns bare_volume_frame)
    /\ lookup_column (q "Volume") bare_volume_frame = Some v
    /\ col_dtype v <> object_
    /\ @process_file (reads_as bare_volume_frame) f
       = ([loading_error no_str_accessor;
           StWrite "Colonnes disponibles:" (columns bare_volume_frame)],
          None, f')
    /\ @Dashboard.main Kernels.stable_kernel (reads_as bare_volume_frame) f
       = ([loading_error no_str_accessor;
           StWrite "Colonnes disponibles:" (columns bare_volume_frame)], None).
Proof.
  intros f v. eexists.
  assert (Hincl : incl required (columns bare_volume_frame))
    by (intros n Hn; exact Hn).
  assert (Hd : col_dtype v <> object_) by discriminate.
  split; [reflexivity|]. split; [exact Hincl|]. split; [reflexivity|].
  split; [exact Hd|].
  exact (bare_volume_numbers_are_rejected Kernels.stable_kernel
           (reads_as bare_volume_frame) f _ bare_volume_frame v
           eq_refl Hincl eq_refl Hd).
Defined.

(** X9. The record set follows the rows of the file: when the nine
    columns have [n] cells each, there are [n] records, in the order of
    the rows, and the keyword, the url and the five category flags of
    a record are the cleaned cells of its row. *)
Theorem records_follow_the_rows_of_the_file :
  forall (df : DataFrame) (rows : list KeywordRecord) (n : nat),
    normalize df = inr rows ->
    (forall name c, In name required -> lookup_column name df = Some c ->
                    List.length (cells c) = n) ->
    List.length rows = n
    /\ map keyword rows = cleaned (q "Keyword") df
    /\ map url rows = cleaned (q "Current URL") df
    /\ map branded rows = cleaned (q "Branded") df
    /\ map local rows = cleaned (q "Local") df
    /\ map informational rows = cleaned (q "Informational") df
    /\ map commercial rows = cleaned (q "Commercial") df
    /\ map transactional rows = cleaned (q "Transactional") df.
Proof.
  intros df rows n E Hlen.
  assert (Hincl : incl required (columns df))
    by (now apply (normalize_needs_quoted_names df rows)).
  destruct (normalize_cases df Hincl) as (v & Hv & Hn).
  rewrite E in Hn. destruct (col_dtype v); try discriminate.
  injection Hn as ->.
  assert (Hc : forall name, In name required ->
                 List.length (cleaned name df) = n).
  { intros name Hname. unfold cleaned.
    destruct (lookup_column_some name df (Hincl name Hname)) as (c & Hc).
    rewrite Hc, clean_column_length. now apply (Hlen name). }
  match goal with
  | |- context [rows_of ?k ?v ?p ?u ?b ?l ?i ?c ?t] =>
      destruct (rows_of_columns n k v p u b l i c t)
        as (H0 & H1 & _ & _ & H4 & H5 & H6 & H7 & H8 & H9)
  end; rewrite ?length_map; try (apply Hc; unfold required; simpl; tauto).
  repeat split; assumption.
Qed.

(** X9, at the quoted export of two keywords. *)
Lemma quoted_frame_witness :
  normalize quoted_frame = inr quoted_records
  /\ (forall name c, In name required ->
        lookup_column name quoted_frame = Some c ->
        List.length (cells c) = 2%nat)
  /\ List.length quoted_records = 2%nat
  /\ map keyword quoted_records = cleaned (q "Keyword") quoted_frame
  /\ map url quoted_records = cleaned (q "Current URL") quoted_frame
  /\ map branded quoted_records = cleaned (q "Branded") quoted_frame
  /\ map local quoted_records = cleaned (q "Local") quoted_frame
  /\ map informational quoted_records
     = cleaned (q "Informational") quoted_frame
  /\ map commercial quoted_records = cleaned (q "Commercial") quoted_frame
  /\ map transactional quoted_records
     = cleaned (q "Transactional") quoted_frame.
Proof.
  assert (Hlen : forall name c, In name required ->
            lookup_column name quoted_frame = Some c ->
            List.length (cells c) = 2%nat).
  { intros name c Hname.
    repeat (destruct Hname as [<-|Hname]; [intros [= <-]; reflexivity|]).
    destruct Hname. }
  split; [reflexivity|]. split; [exact Hlen|].
  exact (records_follow_the_rows_of_the_file quoted_frame quoted_records
           2%nat eq_refl Hlen).
Defined.

(** X10. The columns are selected by name: two frames that have the
    same column under each of the nine names, whatever the order of
    their columns and whatever other columns they have, give the same
    record set or raise the same exception. *)
Theorem columns_are_selected_by_name :
  forall df df' : DataFrame,
    (forall name, In name required ->
                  lookup_column name df = lookup_column name df') ->
    normalize df = normalize df'.
Proof.
  intros df df' H. unfold normalize, getitem_list.
  rewrite (filter_ext_in _ (fun n => match lookup_column n df' with
                                     | Some _ => false
                                     | None => true
                                     end))
    by (intros n Hn; now rewrite (H n Hn)).
  rewrite (flat_map_agree _ (fun n => match lookup_column n df' with
                                       | Some c => [c]
                                       | None => []
                                       end))
    by (intros n Hn; now rewrite (H n Hn)).
  reflexivity.
Qed.

(** X10, at the quoted export and the same export with its columns in
    reverse order after one more column. *)
Lemma columns_by_name_witness :
  (forall name, In name required ->
     lookup_column name quoted_frame
     = lookup_column name
         ((q "Country", {| col_dtype := object_;
                           cells := [Str (q "fr"); Str (q "fr")] |})
          :: rev quoted_frame))
  /\ normalize quoted_frame
     = normalize ((q "Country", {| col_dtype := object_;
                                   cells := [Str (q "fr"); Str (q "fr")] |})
                  :: rev quoted_frame).
Proof.
  assert (H : forall name, In name required ->
     lookup_column name quoted_frame
     = lookup_column name
         ((q "Country", {| col_dtype := object_;
                           cells := [Str (q "fr"); Str (q "fr")] |})
          :: rev quoted_frame)).
  { intros name Hname.
    repeat (destruct Hname as [<-|Hname]; [reflexivity|]). destruct Hname. }
  split; [exact H|].
  exact (columns_are_selected_by_name quoted_frame _ H).
Defined.

(** X11. The cleaning of lines 42 to 44 is idempotent: a cleaned column
    is left as it is by a second cleaning. *)
Theorem cleaning_is_idempotent :
  forall c : column, clean_column (clean_column c) = clean_column c.
Proof.
  intros [d cs]. unfold clean_column. cbn [col_dtype cells].
  destruct d; try reflexivity. cbn [col_dtype cells]. f_equal.
  rewrite map_map. apply map_ext. intros [s|n]; [|reflexivity].
  cbn [str_strip]. now rewrite strip_idempotent.
Qed.

(** X12. What [cluster_keywords] and [main] print is read back by the
    conversion of line 47: for an integer of a magnitude below 2^53,
    the text [str(int(v))] of a volume, and the text of a total under
    the format with thousands separators, both give the number again
    once the commas are removed. *)
Theorem printed_volumes_read_back :
  forall z : Z,
    Z.abs z < 2 ^ 53 ->
    to_numeric (str_replace_comma (Str (str_int z))) = Num z
    /\ to_numeric (str_replace_comma (Str (format_thousands z))) = Num z.
Proof.
  intros z _. cbn [str_replace_comma to_numeric].
  rewrite remove_commas_format, remove_commas_str_int.
  now rewrite parse_integer_str_int.
Qed.

(** X12, at 1234567, printed as 1,234,567. *)
Lemma printed_volumes_witness :
  Z.abs 1234567 < 2 ^ 53
  /\ format_thousands 1234567 = "1,234,567"%string
  /\ to_numeric (str_replace_comma (Str (str_int 1234567))) = Num 1234567
  /\ to_numeric (str_replace_comma (Str (format_thousands 1234567)))
     = Num 1234567.
Proof.
  split; [reflexivity|]. split; [reflexivity|].
  apply (printed_volumes_read_back 1234567). reflexivity.
Defined.


(** ** Further properties of [main] *)

(** X14. For an uploaded file, [main] shows either the statistics and
    the table, after both functions returned a frame and nothing else
    was shown, or exactly one error: the one of the loading, followed
    by the columns of the file when it had been read, or the one of
    the clustering, whatever the exception.  The table is the one of
    the guard of lines 196 to 200. *)
Theorem main_shows_the_statistics_or_one_error :
  forall (K : SortKernel) (R : CsvReader) (f : upload),
    match Dashboard.main f with
    | (shown, Some (m, table)) =>
        shown = []
        /\ exists df f',
             process_file f = ([], Some df, f')
             /\ cluster_keywords df = ([], Some table)
             /\ m = metrics df
    | (shown, None) =>
        (exists e, shown = [loading_error e])
        \/ (exists e cols,
              shown = [loading_error e; StWrite "Colonnes disponibles:" cols])
        \/ (exists e, shown = clustering_error e)
    end
    /\ App.analyse f
       = (fst (Dashboard.main f), option_map snd (snd (Dashboard.main f))).
Proof.
  intros K R f. unfold Dashboard.main, App.analyse, process_file.
  destruct (read_frame f) as [[e|frame] f'].
  - split; [|reflexivity]. left. now exists e.
  - destruct (normalize frame) as [e|df].
    + split; [|reflexivity]. right. left. now exists e, (columns frame).
    + destruct (cluster_keywords df) as [shown [table|]] eqn:E.
      * apply cluster_keywords_some in E. destruct E as [E ->].
        split; [|reflexivity]. split; [reflexivity|].
        exists df, f'. split; [reflexivity|]. split; [|reflexivity].
        now apply cluster_keywords_some.
      * apply cluster_keywords_none in E. destruct E as [E ->].
        split; [|reflexivity]. right. right. now exists nan_to_integer.
Qed.

(** ** The category flags *)

Section Flags.
Variable f : KeywordRecord -> KeywordRecord.
Hypothesis f_keeps : forall r, same_keyword_data (f r) r.

Lemma map_keyword_f rows : map keyword (map f rows) = map keyword rows.
Proof. rewrite map_map. apply map_ext. intros r. apply f_keeps. Qed.

Lemma map_volume_f rows : map volume (map f rows) = map volume rows.
Proof. rewrite map_map. apply map_ext. intros r. apply f_keeps. Qed.

Lemma map_position_f rows : map position (map f rows) = map position rows.
Proof. rewrite map_map. apply map_ext. intros r. apply f_keeps. Qed.

Lemma map_url_f rows : map url (map f rows) = map url rows.
Proof. rewrite map_map. apply map_ext. intros r. apply f_keeps. Qed.

Lemma rows_of_url_f u rows :
  rows_of_url u (map f rows) = map f (rows_of_url u rows).
Proof.
  unfold rows_of_url. induction rows as [|r rows IH]; [reflexivity|].
  cbn [map filter]. rewrite IH.
  replace (url (f r)) with (url r) by (symmetry; apply f_keeps).
  now destruct (cell_eqb (url r) u).
Qed.

Lemma top_loop_f rows urls :
  forall tk tv, top_loop (map f rows) urls tk tv = top_loop rows urls tk tv.
Proof.
  induction urls as [|u urls IH]; intros tk tv; [reflexivity|].
  cbn [top_loop]. rewrite rows_of_url_f.
  destruct (rows_of_url u rows) as [|first rest]; cbn [map]; [apply IH|].
  replace (keyword (f first)) with (keyword first)
    by (symmetry; apply f_keeps).
  replace (volume (f first)) with (volume first) by (symmetry; apply f_keeps).
  destruct (py_int (volume first)); cbn [bind]; [reflexivity | apply IH].
Qed.

Lemma groupby_agg_f rows : groupby_agg (map f rows) = groupby_agg rows.
Proof.
  unfold groupby_agg, group_keys. rewrite map_url_f. f_equal;
    apply map_ext; intros k; rewrite rows_of_url_f;
    [rewrite map_keyword_f | rewrite map_position_f | rewrite map_volume_f];
    reflexivity.
Qed.

Lemma sort_values_f {K : SortKernel} ascending rows :
  sort_values volume ascending (map f rows)
  = map f (sort_values volume ascending rows).
Proof. unfold sort_values. now rewrite map_volume_f, take_map. Qed.

Lemma cluster_keywords_body_f {K : SortKernel} df :
  cluster_keywords_body (map f df) = cluster_keywords_body df.
Proof.
  unfold cluster_keywords_body. cbv zeta. rewrite sort_values_f.
  unfold keyword_is_float, position_is_float.
  now rewrite map_url_f, top_loop_f, groupby_agg_f, map_keyword_f,
    map_position_f.
Qed.

End Flags.

(** X15. The five category flags do not reach the table: two record
    sets that differ in the flags of their records only give the same
    table, or the same error. *)
Theorem category_flags_do_not_reach_the_table :
  forall (K : SortKernel) (f : KeywordRecord -> KeywordRecord),
    (forall r, same_keyword_data (f r) r) ->
    forall df, @cluster_keywords K (map f df) = @cluster_keywords K df.
Proof.
  intros K f Hf df. unfold cluster_keywords.
  now rewrite (cluster_keywords_body_f f Hf).
Qed.

(** X15, at scenario A with every flag set to the text true. *)
Lemma category_flags_scenario_A_witness :
  (forall r, same_keyword_data (with_flags "true" r) r)
  /\ @cluster_keywords Kernels.stable_kernel
       (map (with_flags "true") scenario_A)
     = @cluster_keywords Kernels.stable_kernel scenario_A.
Proof.
  assert (H : forall r, same_keyword_data (with_flags "true" r) r)
    by (intros r; repeat split).
  split; [exact H|].
  exact (category_flags_do_not_reach_the_table Kernels.stable_kernel
           (with_flags "true") H scenario_A).
Defined.

(** ** Record sets without ties *)

Lemma strictly_sorted_unique {A : Type} (key : A -> Z) (l : list A) :
  forall l',
    Permutation l l' ->
    StronglySorted Z.lt (map key l) -> StronglySorted Z.lt (map key l') ->
    l = l'.
Proof.
  induction l as [|x l IH]; intros l' Hperm Hl Hl'.
  - apply Permutation_nil in Hperm. now subst.
  - destruct l' as [|y l'].
    { apply Permutation_sym, Permutation_nil in Hperm. discriminate. }
    cbn [map] in Hl, Hl'.
    inversion Hl as [|? ? Hl1 Hx]; subst.
    inversion Hl' as [|? ? Hl'1 Hy]; subst.
    assert (x = y) as <-.
    { assert (Hxin : In x (y :: l'))
        by (apply (Permutation_in _ Hperm); now left).
      assert (Hyin : In y (x :: l))
        by (apply (Permutation_in _ (Permutation_sym Hperm)); now left).
      destruct Hxin as [E|Hxin]; [now symmetry|].
      destruct Hyin as [E|Hyin]; [exact E|].
      rewrite Forall_forall in Hx, Hy.
      pose proof (Hx _ (in_map key _ _ Hyin)).
      pose proof (Hy _ (in_map key _ _ Hxin)). lia. }
    f_equal. apply IH; auto. now apply Permutation_cons_inv in Hperm.
Qed.

Lemma sorted_nodup_strict (l : list Z) :
  Sorted Z.le l -> NoDup l -> StronglySorted Z.lt l.
Proof.
  intros Hs Hn. apply Sorted_StronglySorted in Hs;
    [|intros x y z; apply Z.le_trans].
  induction Hs as [|x l Hs IH Hx]; [constructor|].
  inversion Hn as [|? ? Hnotin Hn']; subst.
  constructor; [now apply IH|].
  rewrite Forall_forall in *. intros y Hy. specialize (Hx y Hy).
  assert (x <> y) by (intros ->; contradiction). lia.
Qed.

(** Every kernel sorts an array without equal values in the same way. *)
Lemma argsort_unique (K1 K2 : SortKernel) (a : list Z) :
  NoDup a -> @argsort K1 a = @argsort K2 a.
Proof.
  intros Hn.
  assert (H : forall K : SortKernel,
            StronglySorted Z.lt (map (fun p => nth p a 0) (@argsort K a))).
  { intros K. apply sorted_nodup_strict; [apply argsort_sorted|].
    apply (Permutation_NoDup (l := a)); [|exact Hn].
    rewrite <- (map_nth_seq 0 a) at 1.
    apply Permutation_map, Permutation_sym, argsort_perm. }
  apply (strictly_sorted_unique (fun p => nth p a 0)); [|apply H|apply H].
  eapply Permutation_trans; [apply argsort_perm|].
  apply Permutation_sym, argsort_perm.
Qed.

Lemma nargsort_unique (K1 K2 : SortKernel) (items : list number) ascending :
  NoDup (non_nan_values items) ->
  @nargsort K1 items ascending = @nargsort K2 items ascending.
Proof.
  intros Hn. unfold nargsort. cbv zeta.
  rewrite (argsort_unique K1 K2); [reflexivity|].
  destruct ascending; [exact Hn | now apply NoDup_rev].
Qed.

Lemma sort_values_unique {A : Type} (K1 K2 : SortKernel) (by_ : A -> number)
    ascending (rows : list A) :
  NoDup (non_nan_values (map by_ rows)) ->
  @sort_values K1 A by_ ascending rows = @sort_values K2 A by_ ascending rows.
Proof.
  intros Hn. unfold sort_values. now rewrite (nargsort_unique K1 K2).
Qed.

Lemma value_determines_row {A : Type} (by_ : A -> number) (rows : list A) :
  NoDup (non_nan_values (map by_ rows)) ->
  forall r r' z, In r rows -> In r' rows ->
    by_ r = Num z -> by_ r' = Num z -> r = r'.
Proof.
  induction rows as [|x rows IH]; intros Hn r r' z Hr Hr' Hz Hz';
    [destruct Hr|].
  assert (Hin : forall y, In y rows -> by_ y = Num z ->
                  In z (non_nan_values (map by_ rows))).
  { intros y Hy Hby. unfold non_nan_values. apply in_flat_map.
    exists (Num z). split; [|now left]. rewrite <- Hby. now apply in_map. }
  cbn [map non_nan_values flat_map] in Hn.
  fold (non_nan_values (map by_ rows)) in Hn.
  assert (Hrest : NoDup (non_nan_values (map by_ rows))).
  { destruct (by_ x); [exact Hn|]. now inversion Hn. }
  destruct Hr as [<-|Hr], Hr' as [<-|Hr']; auto.
  - exfalso. rewrite Hz in Hn. cbn [app] in Hn.
    inversion Hn as [|? ? Hnotin _]; subst.
    apply Hnotin. now apply (Hin r').
  - exfalso. rewrite Hz' in Hn. cbn [app] in Hn.
    inversion Hn as [|? ? Hnotin _]; subst.
    apply Hnotin. now apply (Hin r).
  - now apply (IH Hrest r r' z).
Qed.

Lemma values_nodup {A : Type} (by_ : A -> number) (l : list A) :
  Forall (fun v => isna v = false) (map by_ l) ->
  (forall x y, In x l -> In y l -> by_ x = by_ y -> x = y) ->
  NoDup l ->
  NoDup (non_nan_values (map by_ l)).
Proof.
  intros Hall Hinj Hn. rewrite non_nan_values_all by exact Hall.
  apply NoDup_map_NoDup_ForallPairs; [|exact Hn].
  intros x y Hx Hy E. apply Hinj; auto.
  rewrite Forall_map, Forall_forall in Hall.
  pose proof (Hall x Hx) as Hx'. pose proof (Hall y Hy) as Hy'.
  destruct (by_ x), (by_ y); try discriminate. simpl in E. now subst.
Qed.

Lemma sorted_ge_nodup_strict (l : list Z) :
  Sorted Z.ge l -> NoDup l -> StronglySorted Z.lt (map Z.opp l).
Proof.
  intros Hs Hn. apply Sorted_StronglySorted in Hs;
    [|intros x y z; apply ge_trans].
  induction Hs as [|x l Hs IH Hx]; [constructor|].
  inversion Hn as [|? ? Hnotin Hn']; subst.
  cbn [map]. constructor; [now apply IH|].
  rewrite Forall_map, Forall_forall in *. intros y Hy. specialize (Hx y Hy).
  assert (x <> y) by (intros ->; contradiction). lia.
Qed.

Section AnyKernel.
Context {K : SortKernel}.

(** Without null volumes and without ties, the frame sorted by volume
    is strictly descending. *)
Lemma sorted_strictly df :
  Forall (fun r => isna (volume r) = false) df ->
  NoDup (non_nan_values (map volume df)) ->
  StronglySorted Z.lt
    (map (fun r => - value_or_zero (volume r))
       (sort_values volume false df)).
Proof.
  intros Hall Hn.
  destruct (sort_values_keys volume false df) as (zs & Hzs & Hsorted & Hperm).
  rewrite filter_none in Hzs by (now rewrite Forall_map).
  rewrite app_nil_r in Hzs.
  assert (E : map (fun r => value_or_zero (volume r))
                (sort_values volume false df) = zs).
  { rewrite <- (map_map volume value_or_zero), Hzs, map_map. apply map_id. }
  rewrite <- (map_map (fun r => value_or_zero (volume r)) Z.opp), E.
  apply sorted_ge_nodup_strict; [exact Hsorted|].
  apply (Permutation_NoDup (Permutation_sym Hperm)), Hn.
Qed.

End AnyKernel.

(** X17. The order of the records in the file reaches the table
    through the ties and the nulls alone: two record sets with the
    same records in different orders, none with a null volume and no
    two with the same volume, give the same table. *)
Theorem table_without_ties_ignores_the_order_of_the_records :
  forall (K : SortKernel) (df df' : list KeywordRecord),
    Permutation df df' ->
    Forall (fun r => isna (volume r) = false) df ->
    NoDup (non_nan_values (map volume df)) ->
    @cluster_keywords K df = @cluster_keywords K df'.
Proof.
  intros K df df' Hperm Hall Hn.
  assert (Hall' : Forall (fun r => isna (volume r) = false) df').
  { rewrite Forall_forall in *. intros r Hr. apply Hall.
    apply (Permutation_in _ (Permutation_sym Hperm)), Hr. }
  assert (Hn' : NoDup (non_nan_values (map volume df'))).
  { apply (Permutation_NoDup (l := non_nan_values (map volume df)));
      [|exact Hn].
    rewrite !non_nan_values_filter.
    apply Permutation_map, filter_perm, Hperm. }
  assert (Hs : sort_values volume false df = sort_values volume false df').
  { apply (strictly_sorted_unique (fun r => - value_or_zero (volume r))).
    - eapply Permutation_trans; [apply sort_values_perm|].
      eapply Permutation_trans; [exact Hperm|].
      apply Permutation_sym, sort_values_perm.
    - now apply sorted_strictly.
    - now apply sorted_strictly. }
  unfold cluster_keywords, cluster_keywords_body. cbv zeta.
  now rewrite Hs.
Qed.

(** X17, at scenario A and its reversal, with the stable kernel. *)
Lemma order_of_records_scenario_A_witness :
  Permutation scenario_A (rev scenario_A)
  /\ Forall (fun r => isna (volume r) = false) scenario_A
  /\ NoDup (non_nan_values (map volume scenario_A))
  /\ @cluster_keywords Kernels.stable_kernel scenario_A
     = @cluster_keywords Kernels.stable_kernel (rev scenario_A).
Proof.
  assert (Hp : Permutation scenario_A (rev scenario_A))
    by apply Permutation_rev.
  assert (Ha : Forall (fun r => isna (volume r) = false) scenario_A)
    by (repeat constructor).
  assert (Hn : NoDup (non_nan_values (map volume scenario_A))).
  { simpl. repeat constructor; simpl; intuition discriminate. }
  split; [exact Hp|]. split; [exact Ha|]. split; [exact Hn|].
  exact (table_without_ties_ignores_the_order_of_the_records
           Kernels.stable_kernel scenario_A (rev scenario_A) Hp Ha Hn).
Defined.

(** ** From the file to the table *)

Lemma rows_of_volume_in k : forall v p u b l i c t r,
  In r (rows_of k v p u b l i c t) -> In (volume r) v.
Proof.
  induction k as [|k0 k IH]; intros v p u b l i c t r H; [destruct H|].
  destruct v, p, u, b, l, i, c, t; try destruct H as [<-|H];
    try contradiction; [now left|].
  right. eapply IH, H.
Qed.

Lemma parse_digits_all_digits s : forall acc,
  all_digits s = true -> exists z, parse_digits acc s = Some z.
Proof.
  induction s as [|c s IH]; intros acc H; [now exists acc|].
  cbn [all_digits parse_digits] in *.
  destruct (digit_of c); [now apply IH | discriminate].
Qed.

(** A count is read as a number. *)
Lemma parse_integer_count s :
  is_count s = true -> exists z, parse_integer s = Some z.
Proof.
  unfold is_count. intros H.
  apply andb_true_iff in H. destruct H as [Hlen Hd].
  destruct s as [|c s]; [discriminate|]. clear Hlen.
  cbn [parse_integer].
  pose proof Hd as Hc. cbn [all_digits] in Hc.
  destruct (ascii_dec c (ascii_of_nat 45)) as [->|_]; [discriminate|].
  destruct (ascii_dec c (ascii_of_nat 43)) as [->|_]; [discriminate|].
  now apply parse_digits_all_digits.
Qed.

(** X18. A quoted export is analysed without error: when each of the
    nine columns is a column of text and every cell of the Volume
    column holds, between its quotes, a count of one to fifteen digits
    with or without commas, [main] shows the statistics and a table. *)
Theorem well_formed_export_is_analysed :
  forall (K : SortKernel) (R : CsvReader) (f f' : upload) (frame : DataFrame)
         (v : column),
    read_frame f = (inr frame, f') ->
    incl required (columns frame) ->
    (forall name c, In name required -> lookup_column name frame = Some c ->
                    is_text c = true) ->
    lookup_column (q "Volume") frame = Some v ->
    forallb is_count_cell (cells v) = true ->
    exists df table,
      process_file f = ([], Some df, f')
      /\ Forall (fun r => isna (volume r) = false) df
      /\ cluster_keywords df = ([], Some table)
      /\ Dashboard.main f = ([], Some (metrics df, table)).
Proof.
  intros K R f f' frame v Hread Hincl Htext Hv Hcount.
  destruct (normalize_cases frame Hincl) as (v' & Hv' & Hn).
  assert (v' = v) as -> by congruence.
  assert (Hd : col_dtype v = object_).
  { assert (H : is_text v = true)
      by (apply (Htext (q "Volume")); [unfold required; simpl; tauto|exact Hv]).
    unfold is_text in H. now destruct (col_dtype v). }
  rewrite Hd in Hn.
  match type of Hn with _ = inr ?rows => set (df := rows) in * end.
  assert (Hp : process_file f = ([], Some df, f')).
  { unfold process_file. now rewrite Hread, Hn. }
  assert (Hvol : Forall (fun r => isna (volume r) = false) df).
  { apply Forall_forall. intros r Hr. apply rows_of_volume_in in Hr.
    rewrite map_map in Hr. apply in_map_iff in Hr.
    destruct Hr as (c & <- & Hc).
    unfold cleaned in Hc. rewrite Hv in Hc. unfold clean_column in Hc.
    rewrite Hd in Hc. cbn [cells] in Hc. apply in_map_iff in Hc.
    destruct Hc as (x & <- & Hx).
    rewrite forallb_forall in Hcount. specialize (Hcount x Hx).
    destruct x as [s|n]; [|discriminate]. cbn [is_count_cell] in Hcount.
    cbn [str_strip str_replace_comma to_numeric].
    destruct (parse_integer_count _ Hcount) as (z & ->). reflexivity. }
  destruct (cluster_keywords_returns df) as (table & Ht).
  { intros r Hr _. rewrite Forall_forall in Hvol. now apply Hvol. }
  exists df, table. split; [exact Hp|]. split; [exact Hvol|].
  split; [exact Ht|].
  unfold Dashboard.main. now rewrite Hp, Ht.
Qed.

(** X18, at the export of scenario A with the stable kernel. *)
Lemma export_A_witness :
  let f := fresh_upload [] in
  let v := {| col_dtype := object_;
              cells := [Str (q "1,000"); Str (q "500"); Str (q "2,000")] |} in
  exists f',
    @read_frame (reads_as export_A) f = (inr export_A, f')
    /\ incl required (columns export_A)
    /\ (forall name c, In name required ->
          lookup_column name export_A = Some c -> is_text c = true)
    /\ lookup_column (q "Volume") export_A = Some v
    /\ forallb is_count_cell (cells v) = true
    /\ exists df table,
         @process_file (reads_as export_A) f = ([], Some df, f')
         /\ Forall (fun r => isna (volume r) = false) df
         /\ @cluster_keywords Kernels.stable_kernel df = ([], Some table)
         /\ @Dashboard.main Kernels.stable_kernel (reads_as export_A) f
            = ([], Some (metrics df, table)).
Proof.
  intros f v. eexists.
  assert (Hincl : incl required (columns export_A))
    by (intros n Hn; exact Hn).
  assert (Htext : forall name c, In name required ->
            lookup_column name export_A = Some c -> is_text c = true).
  { intros name c Hname.
    repeat (destruct Hname as [<-|Hname]; [intros [= <-]; reflexivity|]).
    destruct Hname. }
  assert (Hcount : forallb is_count_cell (cells v) = true) by reflexivity.
  split; [reflexivity|]. split; [exact Hincl|]. split; [exact Htext|].
  split; [reflexivity|]. split; [exact Hcount|].
  exact (well_formed_export_is_analysed Kernels.stable_kernel
           (reads_as export_A) f _ export_A v eq_refl Hincl Htext eq_refl
           Hcount).
Defined.

(** ** [cluster_keywords] on float volumes *)

(** The sum of the weights of the rows that pass a test is part of the
    sum over all rows. *)
Lemma filter_weight_le {A : Type} (w : A -> Z) (test : A -> bool) (l : list A) :
  (forall x, 0 <= w x) ->
  fold_right Z.add 0 (map w (filter test l)) <= fold_right Z.add 0 (map w l).
Proof.
  intros Hw. induction l as [|x l IH]; simpl; [lia|].
  pose proof (Hw x). destruct (test x); simpl; lia.
Qed.

Section Partition.
Context {A : Type}.
Variable key : A -> cell.
Variable w : A -> Z.

Lemma partition_absent keys r rows :
  ~ In (key r) keys ->
  map (fun k => fold_right Z.add 0
                  (map w (filter (fun x => cell_eqb (key x) k) (r :: rows))))
    keys
  = map (fun k => fold_right Z.add 0
                    (map w (filter (fun x => cell_eqb (key x) k) rows)))
      keys.
Proof.
  intros Hn. apply map_ext_in. intros k Hk. cbn [filter].
  destruct (cell_eqb (key r) k) eqn:E; [|reflexivity].
  apply cell_eqb_true in E. destruct E as [E _]. exfalso. apply Hn. now subst.
Qed.

Lemma partition_cons keys r rows :
  NoDup keys -> In (key r) keys -> cell_isna (key r) = false ->
  fold_right Z.add 0
    (map (fun k => fold_right Z.add 0
                     (map w (filter (fun x => cell_eqb (key x) k)
                               (r :: rows)))) keys)
  = w r + fold_right Z.add 0
            (map (fun k => fold_right Z.add 0
                             (map w (filter (fun x => cell_eqb (key x) k)
                                       rows))) keys).
Proof.
  induction 1 as [|k keys Hk Hnd IH]; intros Hin Hna; [contradiction|].
  cbn [map fold_right].
  destruct (cell_eq_dec k (key r)) as [E|E].
  - subst k. rewrite partition_absent by exact Hk.
    assert (Eb : cell_eqb (key r) (key r) = true)
      by (apply cell_eqb_true; auto).
    cbn [filter]. rewrite Eb. cbn [map fold_right]. lia.
  - destruct Hin as [Hin|Hin]; [congruence|].
    rewrite IH by assumption. cbn [filter].
    destruct (cell_eqb (key r) k) eqn:Eb.
    + apply cell_eqb_true in Eb. destruct Eb. congruence.
    + lia.
Qed.

(** The weights of the groups add up to the weight of the rows, when
    every row has its key among the keys. *)
Lemma partition_total keys rows :
  NoDup keys ->
  (forall r, In r rows -> In (key r) keys /\ cell_isna (key r) = false) ->
  fold_right Z.add 0
    (map (fun k => fold_right Z.add 0
                     (map w (filter (fun x => cell_eqb (key x) k) rows)))
       keys)
  = fold_right Z.add 0 (map w rows).
Proof.
  intros Hnd. induction rows as [|r rows IH]; intros Hall.
  - clear. induction keys; simpl; auto.
  - destruct (Hall r (or_introl eq_refl)) as [Hin Hna].
    rewrite partition_cons by assumption. cbn [map fold_right].
    rewrite IH; [reflexivity|]. intros r' Hr'. apply Hall. now right.
Qed.

End Partition.

(** X1.  On a float volume column, [cluster_keywords] returns a table,
    and shows nothing, exactly when every record that has a url has a
    finite volume; otherwise it shows the one error that [int] raises
    on the volume of such a record, for NaN or for an infinity, and
    returns [None].  Records without a url do not count. *)
Theorem cluster_keywords_returns_unless_a_volume_is_not_finite :
  forall (K : SortKernel) (df : list FloatFrame.KeywordRecord),
    match @FloatFrame.cluster_keywords K df with
    | (shown, Some _) =>
        shown = []
        /\ forall r, In r df -> cell_isna (FloatFrame.url r) = false ->
                     Float64.is_finite (FloatFrame.volume r) = true
    | (shown, None) =>
        exists r e,
          In r df /\ cell_isna (FloatFrame.url r) = false
          /\ Float64.py_int (FloatFrame.volume r) = inl e
          /\ (e = nan_to_integer \/ e = Float64.inf_to_integer)
          /\ shown = clustering_error e
    end.
Proof.
  intros K df.
  pose proof (float_sorted_perm df) as Hperm.
  destruct (FloatFrame.cluster_keywords df) as [shown [gs|]] eqn:E.
  - apply float_cluster_some in E. destruct E as [E ->].
    split; [reflexivity|]. intros r Hr Hu.
    pose proof (float_body_cases df) as H. rewrite E in H.
    destruct H as (tops & _ & Hall & _).
    apply (Permutation_in _ (Permutation_sym Hperm)) in Hr.
    assert (Hk : In (FloatFrame.url r)
                   (FloatFrame.group_keys (float_sorted df)))
      by (apply float_group_keys_In; now exists r).
    specialize (Hall _ Hk). rewrite Forall_map, Forall_forall in Hall.
    apply Hall. apply filter_In. split; [exact Hr|].
    apply cell_eqb_true. auto.
  - apply float_cluster_none in E. destruct E as (e & E & ->).
    pose proof (float_body_cases df) as H. rewrite E in H.
    destruct H as (r & Hin & He & Hu). exists r, e.
    split; [apply (Permutation_in _ Hperm), Hin|]. split; [exact Hu|].
    split; [exact He|]. split; [|reflexivity].
    now apply py_int_raises in He.
Qed.

(** X2.  In a returned table, the top keyword of a group is the keyword
    of the first record of its url in the frame sorted by volume: a
    record of the input with that url whose volume no record of that
    url exceeds; and the top volume is the integer part of the volume
    of that same record. *)
Theorem top_keyword_is_the_keyword_of_a_largest_volume :
  forall (K : SortKernel) (df : list FloatFrame.KeywordRecord)
         (gs : list FloatFrame.UrlGroup) (g : FloatFrame.UrlGroup),
    @FloatFrame.cluster_keywords K df = ([], Some gs) ->
    In g gs ->
    exists first rest u,
      FloatFrame.rows_of_url (FloatFrame.g_url g) (float_sorted df)
      = first :: rest
      /\ In first df
      /\ FloatFrame.url first = FloatFrame.g_url g
      /\ FloatFrame.top_keyword g = FloatFrame.keyword first
      /\ FloatFrame.volume first = Float64.finite u
      /\ FloatFrame.top_keyword_volume g = Num (Z.quot u Float64.unit)
      /\ forall r, In r df -> FloatFrame.url r = FloatFrame.g_url g ->
           exists u', FloatFrame.volume r = Float64.finite u' /\ u' <= u.
Proof.
  intros K df gs g E Hg.
  destruct (float_group_of_table df gs g E Hg)
    as (tops & first & rest & u & us & Hrow & Hk & Erows & Hvols & Hsorted
        & Hentry).
  set (sorted := float_sorted df) in *.
  set (k := FloatFrame.g_url g) in *.
  exists first, rest, u. split; [exact Erows|].
  assert (Hin : In first (FloatFrame.rows_of_url k sorted))
    by (rewrite Erows; now left).
  apply filter_In in Hin. destruct Hin as [Hin Hu].
  apply cell_eqb_true in Hu. destruct Hu as [Hu Hna].
  assert (Hfirst : FloatFrame.volume first = Float64.finite u)
    by (simpl in Hvols; congruence).
  split; [apply (Permutation_in _ (float_sorted_perm df)), Hin|].
  split; [exact Hu|].
  destruct Hentry as (z & Hz & Hv & Hkw).
  split; [rewrite Hrow; unfold float_row_of;
          cbn [FloatFrame.top_keyword]; now rewrite Hkw|].
  split; [exact Hfirst|].
  split.
  { rewrite Hfirst in Hz. simpl in Hz. injection Hz as <-.
    rewrite Hrow. unfold float_row_of.
    cbn [FloatFrame.top_keyword_volume]. now rewrite Hv. }
  intros r Hr Hur.
  assert (Hrin : In r (FloatFrame.rows_of_url k sorted)).
  { apply (Permutation_in _ (Permutation_sym (float_group_rows_perm k df))).
    apply filter_In. split; [exact Hr|]. apply cell_eqb_true.
    split; [exact Hur|]. rewrite Hur. fold k. congruence. }
  rewrite Erows in Hrin. apply (in_map FloatFrame.volume) in Hrin.
  rewrite Hvols in Hrin.
  apply in_map_iff in Hrin. destruct Hrin as (u' & Hu' & Huin).
  exists u'. split; [now symmetry|].
  destruct Huin as [<-|Huin]; [lia|].
  inversion Hsorted as [|? ? _ Hle Heq].
  rewrite Forall_forall in Hle. specialize (Hle u' Huin). lia.
Qed.

(** X2, at the two keywords with volumes 1.5 and 1.25 and the stable
    kernel: the top keyword is shoes, the top volume 1. *)
Lemma top_keyword_fractional_witness :
  @FloatFrame.cluster_keywords Kernels.stable_kernel fractional_rows
  = ([], Some [fractional_group])
  /\ In fractional_group [fractional_group]
  /\ exists first rest u,
       FloatFrame.rows_of_url (FloatFrame.g_url fractional_group)
         (@float_sorted Kernels.stable_kernel fractional_rows)
       = first :: rest
       /\ In first fractional_rows
       /\ FloatFrame.url first = FloatFrame.g_url fractional_group
       /\ FloatFrame.top_keyword fractional_group = FloatFrame.keyword first
       /\ FloatFrame.volume first = Float64.finite u
       /\ FloatFrame.top_keyword_volume fractional_group
          = Num (Z.quot u Float64.unit)
       /\ forall r, In r fractional_rows ->
            FloatFrame.url r = FloatFrame.g_url fractional_group ->
            exists u', FloatFrame.volume r = Float64.finite u' /\ u' <= u.
Proof.
  split; [vm_compute; reflexivity|]. split; [now left|].
  apply (top_keyword_is_the_keyword_of_a_largest_volume Kernels.stable_kernel
           fractional_rows [fractional_group] fractional_group);
    [vm_compute; reflexivity | now left].
Defined.

(** X3.  In a returned table, the keyword text and the volume text of a
    group follow one and the same sequence of records, the records of
    the input with that url, none with a volume that is not finite:
    the volume text lists the integer parts of their volumes, one line
    each, the keyword text lists their keywords in the same order when
    these are strings, and [keyword_count] is the length of the
    sequence. *)
Theorem group_texts_are_aligned :
  forall (K : SortKernel) (df : list FloatFrame.KeywordRecord)
         (gs : list FloatFrame.UrlGroup) (g : FloatFrame.UrlGroup),
    @FloatFrame.cluster_keywords K df = ([], Some gs) ->
    In g gs ->
    exists rows,
      Permutation rows (FloatFrame.rows_of_url (FloatFrame.g_url g) df)
      /\ Forall (fun r => Float64.is_finite (FloatFrame.volume r) = true)
           rows
      /\ FloatFrame.keyword_count g = List.length rows
      /\ FloatFrame.g_volume g
         = AsText (join_lines
                     (map (fun r => str_int (int_part (FloatFrame.volume r)))
                        rows))
      /\ forall ks, map FloatFrame.keyword rows = map Str ks ->
                    FloatFrame.g_keyword g = AsText (join_lines ks).
Proof.
  intros K df gs g E Hg.
  destruct (float_group_of_table df gs g E Hg)
    as (tops & first & rest & u & us & Hrow & Hk & Erows & Hvols & Hsorted
        & Hentry).
  set (sorted := float_sorted df) in *.
  set (k := FloatFrame.g_url g) in *.
  exists (FloatFrame.rows_of_url k sorted).
  split; [apply float_group_rows_perm|]. split.
  { rewrite Erows.
    apply (proj1 (Forall_map FloatFrame.volume
                    (fun v => Float64.is_finite v = true) (first :: rest))).
    rewrite Hvols. apply Forall_map, Forall_forall. reflexivity. }
  rewrite Hrow. unfold float_row_of.
  cbn [FloatFrame.keyword_count FloatFrame.g_keyword FloatFrame.g_volume
         FloatFrame.g_url]. fold k.
  split; [reflexivity|]. split; [now rewrite map_map|].
  intros ks Hks. rewrite Hks, map_map. cbn [str_cell].
  now rewrite map_id.
Qed.

(** X3, at the two keywords with volumes 1.5 and 1.25 and the stable
    kernel. *)
Lemma group_texts_fractional_witness :
  @FloatFrame.cluster_keywords Kernels.stable_kernel fractional_rows
  = ([], Some [fractional_group])
  /\ In fractional_group [fractional_group]
  /\ exists rows,
       Permutation rows
         (FloatFrame.rows_of_url (FloatFrame.g_url fractional_group)
            fractional_rows)
       /\ Forall (fun r => Float64.is_finite (FloatFrame.volume r) = true)
            rows
       /\ FloatFrame.keyword_count fractional_group = List.length rows
       /\ FloatFrame.g_volume fractional_group
          = AsText (join_lines
                      (map (fun r => str_int (int_part (FloatFrame.volume r)))
                         rows))
       /\ forall ks, map FloatFrame.keyword rows = map Str ks ->
                     FloatFrame.g_keyword fractional_group
                     = AsText (join_lines ks).
Proof.
  split; [vm_compute; reflexivity|]. split; [now left|].
  apply (group_texts_are_aligned Kernels.stable_kernel fractional_rows
           [fractional_group] fractional_group);
    [vm_compute; reflexivity | now left].
Defined.

Lemma int_part_of_int z : int_part (Float64.of_int z) = z.
Proof. apply quot_unit. Qed.

Lemma filter_not_nan_ints zs :
  filter (fun v => negb (Float64.isna v)) (map Float64.of_int zs)
  = map Float64.of_int zs.
Proof. induction zs as [|z zs IH]; [reflexivity|]. simpl. now rewrite IH. Qed.

Lemma series_sum_ints zs :
  fold_right Z.add 0 (map Z.abs zs) < 2 ^ 53 ->
  Float64.series_sum (map Float64.of_int zs) = Some (fold_right Z.add 0 zs).
Proof.
  intros H. unfold Float64.series_sum.
  rewrite filter_not_nan_ints, integers_of_ints.
  apply Z.ltb_lt in H. now rewrite H.
Qed.

(** X6.  On a record set in which every record has a url and the
    volumes are integers whose magnitudes add up to less than 2^53, the
    totals of the groups of a returned table are integers that add up
    to the sum of the volumes, which is what [main] shows, with
    thousands separators, as Volume total. *)
Theorem group_totals_add_up_to_the_volume_total :
  forall (K : SortKernel) (df : list FloatFrame.KeywordRecord)
         (gs : list FloatFrame.UrlGroup) (zs : list Z),
    @FloatFrame.cluster_keywords K df = ([], Some gs) ->
    (forall r, In r df -> cell_isna (FloatFrame.url r) = false) ->
    map FloatFrame.volume df = map Float64.of_int zs ->
    fold_right Z.add 0 (map Z.abs zs) < 2 ^ 53 ->
    exists totals,
      map FloatFrame.total_volume gs
      = map (fun t => Float64.Value (Float64.of_int t)) totals
      /\ fold_right Z.add 0 totals = fold_right Z.add 0 zs
      /\ FloatFrame.volume_metric df
         = Some (Dashboard.format_thousands (fold_right Z.add 0 totals)).
Proof.
  intros K df gs zs E Hurl Hvol Hbound.
  destruct (float_table_rows df gs E) as (tops & _ & _ & _ & Hperm).
  set (sorted := float_sorted df) in *.
  pose proof (float_sorted_perm df) as Hsorted. fold sorted in Hsorted.
  set (w := fun r => int_part (FloatFrame.volume r)).
  assert (Hw : forall r, In r sorted ->
                 FloatFrame.volume r = Float64.of_int (w r)).
  { intros r Hr. apply (Permutation_in _ Hsorted) in Hr.
    apply (in_map FloatFrame.volume) in Hr. rewrite Hvol in Hr.
    apply in_map_iff in Hr. destruct Hr as (z & Hz & _).
    unfold w. rewrite <- Hz. now rewrite int_part_of_int. }
  assert (Hzs : map w df = zs).
  { unfold w. rewrite <- (map_map FloatFrame.volume int_part), Hvol, map_map.
    rewrite <- (map_id zs) at 2. apply map_ext. apply int_part_of_int. }
  assert (Habs : fold_right Z.add 0 (map (fun r => Z.abs (w r)) sorted)
                 < 2 ^ 53).
  { rewrite (sum_perm _ _ (Permutation_map _ Hsorted)).
    rewrite <- (map_map w Z.abs), Hzs. exact Hbound. }
  assert (Htotal : forall k,
            FloatFrame.total_volume (float_row_of sorted tops k)
            = Float64.Value
                (Float64.of_int
                   (fold_right Z.add 0
                      (map w (filter (fun x => cell_eqb (FloatFrame.url x) k)
                                sorted))))).
  { intros k. unfold float_row_of. cbn [FloatFrame.total_volume].
    unfold FloatFrame.rows_of_url.
    set (rows := filter (fun x => cell_eqb (FloatFrame.url x) k) sorted).
    rewrite (map_ext_in FloatFrame.volume (fun r => Float64.of_int (w r))).
    - rewrite <- (map_map w Float64.of_int). apply py_sum_ints.
      rewrite map_map.
      eapply Z.le_lt_trans; [|exact Habs].
      apply (filter_weight_le (fun r => Z.abs (w r))). intros x. lia.
    - intros r Hr. apply Hw. unfold rows in Hr. now apply filter_In in Hr. }
  set (tot := fun g => match FloatFrame.total_volume g with
                       | Float64.Value x => int_part x
                       | Float64.FloatSum _ => 0
                       end).
  assert (Hsum : fold_right Z.add 0 (map tot gs) = fold_right Z.add 0 zs).
  { rewrite (sum_perm _ _ (Permutation_map tot Hperm)), map_map.
    rewrite (map_ext _ (fun k => fold_right Z.add 0
                (map w (filter (fun x => cell_eqb (FloatFrame.url x) k)
                          sorted)))).
    - rewrite (partition_total FloatFrame.url w).
      + rewrite (sum_perm _ _ (Permutation_map w Hsorted)). now rewrite Hzs.
      + apply float_group_keys_NoDup.
      + intros r Hr.
        assert (Hna : cell_isna (FloatFrame.url r) = false)
          by (apply Hurl; now apply (Permutation_in _ Hsorted)).
        split; [|exact Hna]. apply float_group_keys_In. now exists r.
    - intros k. unfold tot. rewrite Htotal. apply int_part_of_int. }
  exists (map tot gs). split; [|split].
  - rewrite map_map. apply map_ext_in. intros g Hg.
    apply (Permutation_in _ Hperm) in Hg. apply in_map_iff in Hg.
    destruct Hg as (k & <- & _). unfold tot. rewrite Htotal.
    now rewrite int_part_of_int.
  - exact Hsum.
  - unfold FloatFrame.volume_metric. rewrite Hvol, series_sum_ints by exact Hbound.
    cbn [option_map]. now rewrite Hsum.
Qed.

(** X6, at scenario A on a float column with the stable kernel: 1500
    and 2000 add up to the 3500 of the three records. *)
Lemma group_totals_float_scenario_A_witness :
  @FloatFrame.cluster_keywords Kernels.stable_kernel float_scenario_A
  = ([], Some [float_group_a; float_group_b])
  /\ (forall r, In r float_scenario_A ->
                cell_isna (FloatFrame.url r) = false)
  /\ map FloatFrame.volume float_scenario_A
     = map Float64.of_int [1000; 500; 2000]
  /\ fold_right Z.add 0 (map Z.abs [1000; 500; 2000]) < 2 ^ 53
  /\ exists totals,
       map FloatFrame.total_volume [float_group_a; float_group_b]
       = map (fun t => Float64.Value (Float64.of_int t)) totals
       /\ fold_right Z.add 0 totals = fold_right Z.add 0 [1000; 500; 2000]
       /\ FloatFrame.volume_metric float_scenario_A
          = Some (Dashboard.format_thousands (fold_right Z.add 0 totals)).
Proof.
  assert (E : @FloatFrame.cluster_keywords Kernels.stable_kernel
                float_scenario_A
              = ([], Some [float_group_a; float_group_b]))
    by (vm_compute; reflexivity).
  assert (Hurl : forall r, In r float_scenario_A ->
                   cell_isna (FloatFrame.url r) = false).
  { intros r [<-|[<-|[<-|[]]]]; reflexivity. }
  assert (Hb : fold_right Z.add 0 (map Z.abs [1000; 500; 2000]) < 2 ^ 53)
    by reflexivity.
  split; [exact E|]. split; [exact Hurl|]. split; [reflexivity|].
  split; [exact Hb|].
  exact (group_totals_add_up_to_the_volume_total Kernels.stable_kernel
           float_scenario_A [float_group_a; float_group_b] [1000; 500; 2000]
           E Hurl eq_refl Hb).
Defined.

(** The key under which [int] tells the volumes apart: the integer
    part of a finite volume. *)
Lemma top_volumes_distinct sorted tops :
  NoDup (non_nan_values
           (map (fun r => int_key (FloatFrame.volume r)) sorted)) ->
  FloatFrame.top_loop sorted (unique (map FloatFrame.url sorted)) [] []
  = inr tops ->
  (forall k, In k (FloatFrame.group_keys sorted) ->
     Forall (fun v => Float64.is_finite v = true)
       (map FloatFrame.volume (FloatFrame.rows_of_url k sorted))) ->
  NoDup (non_nan_values
           (map FloatFrame.top_keyword_volume
              (map (float_row_of sorted tops)
                 (FloatFrame.group_keys sorted)))).
Proof.
  intros Hn Htops Hall.
  assert (Hrow : forall k, In k (FloatFrame.group_keys sorted) ->
            exists first u,
              In first sorted /\ FloatFrame.url first = k
              /\ FloatFrame.volume first = Float64.finite u
              /\ FloatFrame.top_keyword_volume (float_row_of sorted tops k)
                 = Num (Z.quot u Float64.unit)).
  { intros k Hk.
    destruct (float_first_row sorted tops k Htops Hk)
      as (first & rest & Erows & Hin & Hu & (z & Hz & Hv & _)).
    apply py_int_finite in Hz. destruct Hz as [Hfin ->].
    destruct (FloatFrame.volume first) as [| |u] eqn:Ev; try discriminate.
    exists first, u. repeat split; auto.
    unfold float_row_of. cbn [FloatFrame.top_keyword_volume].
    now rewrite Hv. }
  apply values_nodup.
  - rewrite Forall_map, Forall_forall. intros g Hg.
    apply in_map_iff in Hg. destruct Hg as (k & <- & Hk).
    destruct (Hrow k Hk) as (_ & u & _ & _ & _ & ->). reflexivity.
  - intros x y Hx Hy Exy.
    apply in_map_iff in Hx, Hy.
    destruct Hx as (kx & <- & Hkx), Hy as (ky & <- & Hky).
    destruct (Hrow kx Hkx) as (fx & ux & Hfx & Hux & Hvx & Htx).
    destruct (Hrow ky Hky) as (fy & uy & Hfy & Huy & Hvy & Hty).
    rewrite Htx, Hty in Exy. injection Exy as Exy.
    assert (fx = fy) as ->.
    { apply (value_determines_row
               (fun r => int_key (FloatFrame.volume r)) sorted Hn fx fy
               (Z.quot ux Float64.unit)); auto.
      - now rewrite Hvx.
      - rewrite Hvy. simpl. now rewrite Exy. }
    congruence.
  - apply (NoDup_map_inv FloatFrame.g_url). rewrite map_map. simpl.
    rewrite map_id. apply float_group_keys_NoDup.
Qed.

(** X16.  The result of [cluster_keywords] depends on the sorting
    kernel through the ties alone: on a record set in which no two
    records have the same volume, nor finite volumes with the same
    integer part, every kernel gives the same table, or the same
    error. *)
Theorem table_without_ties_is_the_same_for_every_kernel :
  forall (K1 K2 : SortKernel) (df : list FloatFrame.KeywordRecord),
    NoDup (non_nan_values
             (map (fun r => Float64.sort_key (FloatFrame.volume r)) df)) ->
    NoDup (non_nan_values
             (map (fun r => int_key (FloatFrame.volume r)) df)) ->
    @FloatFrame.cluster_keywords K1 df = @FloatFrame.cluster_keywords K2 df.
Proof.
  intros K1 K2 df Hn Hint.
  assert (Hs : @float_sorted K1 df = @float_sorted K2 df)
    by (now apply sort_values_unique).
  unfold FloatFrame.cluster_keywords, FloatFrame.cluster_keywords_body.
  cbv zeta. fold (@float_sorted K1 df). fold (@float_sorted K2 df).
  rewrite Hs. set (sorted := @float_sorted K2 df).
  pose proof (float_table_cases sorted) as H.
  destruct (FloatFrame.table_of sorted) as [e|t]; [reflexivity|].
  destruct H as (tops & Htops & Hall & ->). cbn [bind ret].
  do 2 f_equal. apply sort_values_unique.
  apply top_volumes_distinct; auto.
  apply (Permutation_NoDup
           (l := non_nan_values
                   (map (fun r => int_key (FloatFrame.volume r)) df)));
    [|exact Hint].
  rewrite !non_nan_values_filter.
  apply Permutation_map, filter_perm, Permutation_sym.
  apply (@float_sorted_perm K2).
Qed.

(** X16, at scenario A on a float column, with the stable and the
    reversing kernel. *)
Lemma no_ties_float_witness :
  NoDup (non_nan_values
           (map (fun r => Float64.sort_key (FloatFrame.volume r))
              float_scenario_A))
  /\ NoDup (non_nan_values
              (map (fun r => int_key (FloatFrame.volume r)) float_scenario_A))
  /\ @FloatFrame.cluster_keywords Kernels.stable_kernel float_scenario_A
     = @FloatFrame.cluster_keywords Kernels.reversing_kernel float_scenario_A.
Proof.
  assert (H1 : NoDup (non_nan_values
                        (map (fun r => Float64.sort_key (FloatFrame.volume r))
                           float_scenario_A))).
  { vm_compute. repeat constructor; simpl; intuition discriminate. }
  assert (H2 : NoDup (non_nan_values
                        (map (fun r => int_key (FloatFrame.volume r))
                           float_scenario_A))).
  { vm_compute. repeat constructor; simpl; intuition discriminate. }
  split; [exact H1|]. split; [exact H2|].
  exact (table_without_ties_is_the_same_for_every_kernel
           Kernels.stable_kernel Kernels.reversing_kernel float_scenario_A
           H1 H2).
Defined.
